(** * FuelTableCAN-Serial: tilt-table pitch controller and telemetry streamer

    A shallow embedding of [FuelTableCAN-Serial.cpp]: the WT901 angle reader,
    the CAN telemetry reader with its held-last-value cache, the L298N
    actuator driver, the six bang-bang pitch routines, the CSV streamer and
    the test sequence of [setup] and [loop].

    Integers.  [byte] values are [Strings.Byte.byte]; [uint16_t], [int16_t]
    and [unsigned long] are [Z] with the wrap-around written out.

    Pitch.  A pitch is a [float] in the firmware and a rational [Q] here.
    Every value [readPitch] can return is [raw/32768*180 = (45*raw)/8192]
    with [|45*raw| < 2^24], a dyadic rational that binary32 and binary64
    hold exactly ([pitch_is_dyadic]), so the division and the multiplication
    of the source are exact.  The sentinel [-999.0] and the envelope bounds
    [-25.0], [25.0] are exact as well.  The band thresholds [0.1], [4.9],
    [5.1], [9.9], [10.1] are not binary fractions; the firmware compares
    with their roundings, and on the values the reader returns that gives
    what the comparison with the decimal gives ([threshold_rounding]).

    Effects.  The firmware is single-threaded and works on globals and on
    ports; it is embedded as functions on a [World] in a small monad.  Loops
    that the source does not bound (the busy-wait sampling loops, the
    bang-bang loops) take an iteration budget; a computation whose budget
    runs out is cut off and yields the world reached so far, so that
    invariants are stated on every cut-off point and results are stated for
    every large enough budget.

    Environment.  The angle source is a parameter of the rig: a state and
    the function that answers a poll.  The bus is the list of what
    successive polls of the CAN controller find.  The clock is virtual.  The
    trace [log] records polls, delays and motor commands in order. *)

From Stdlib Require Import ZArith QArith Qabs List String Strings.Byte.
From Stdlib Require Import DecimalString DecimalN Lia Lqa Bool.
Import ListNotations.

Local Open Scope Z_scope.

(** ** Machine integers *)

(** [unsigned long] of the board: 32 bits. *)
Definition u32 (z : Z) : Z := z mod 2 ^ 32.

(** [uint16_t] conversion. *)
Definition u16 (z : Z) : Z := z mod 2 ^ 16.

(** [int16_t] conversion: the two's-complement reading of the low 16 bits. *)
Definition to_int16 (z : Z) : Z := (z + 2 ^ 15) mod 2 ^ 16 - 2 ^ 15.

(** A [byte] promoted to an integer, as in [buffer[3] << 8]. *)
Definition byteZ (b : byte) : Z := Z.of_N (Byte.to_N b).

(** ** Pitch values *)

(** The value [readPitch] returns when it has no sample. *)
Definition NO_PITCH : Q := -999.

Definition Qltb (x y : Q) : bool := negb (Qle_bool y x).

(** [pitch == -999.0 || pitch < -25.0 || pitch > 25.0]: the guard of every
    acquisition loop and of the abort tests that follow them. *)
Definition rejected (pitch : Q) : bool :=
  Qeq_bool pitch NO_PITCH || Qltb pitch (-25) || Qltb 25 pitch.

(** [pitch != -999.0 && pitch >= -25.0 && pitch <= 25.0]: the guard of
    [streamCSVData]. *)
Definition in_envelope (pitch : Q) : bool :=
  negb (Qeq_bool pitch NO_PITCH) && Qle_bool (-25) pitch && Qle_bool pitch 25.

(** ** Angle reader: [readPitch] over the bytes buffered on [WT901_SERIAL] *)

Module WT901.

(** [WT901_SERIAL.readBytes(&buffer[1], 9)]: the next nine buffered bytes. *)
Definition readBytes (n : nat) (rx : list byte) : list byte * list byte :=
  (firstn n rx, skipn n rx).

(** [buffer[i]] of the local ten-byte array. *)
Definition at_ (buffer : list byte) (i : nat) : byte := nth i buffer x00.

(** [readPitch]: the result and the bytes left in the receive buffer. *)
Definition readPitch (rx : list byte) : Q * list byte :=
  if (11 <=? List.length rx)%nat then
    match rx with
    | header :: rx1 =>
        if Byte.eqb header x55 then
          let (tail, rx2) := readBytes 9 rx1 in
          let buffer := header :: tail in
          if Byte.eqb (at_ buffer 1) x53 then
            let pitch_raw :=
              to_int16 (Z.lor (Z.shiftl (byteZ (at_ buffer 3)) 8)
                              (byteZ (at_ buffer 2))) in
            ((inject_Z pitch_raw / 32768 * 180)%Q, rx2)
          else (NO_PITCH, rx2)
        else (NO_PITCH, rx1)
    | [] => (NO_PITCH, rx)
    end
  else (NO_PITCH, rx).

End WT901.

(** The signed 16-bit little-endian integer with low byte [lo] and high
    byte [hi]. *)
Definition int16_le (lo hi : byte) : Z :=
  let u := byteZ lo + 256 * byteZ hi in
  if u <? 32768 then u else u - 65536.

(** ** Bus telemetry data *)

(** What [CAN.readMsgBuf(&rxId, &len, rxBuf)] delivers. *)
Record CANFrame := mkFrame {
  rxId : Z;
  len : nat;
  rxBuf : list byte
}.

(** [rxBuf[i]]. *)
Definition rx (f : CANFrame) (i : nat) : byte := nth i (rxBuf f) x00.

(** [struct CANData]. *)
Record CANData := mkCANData {
  fuelLevel : string;
  internalTemp : string;
  externalTemp : string;
  externalSensorValid : bool
}.

Definition set_fuelLevel (s : string) (d : CANData) : CANData :=
  mkCANData s (internalTemp d) (externalTemp d) (externalSensorValid d).
Definition set_internalTemp (s : string) (d : CANData) : CANData :=
  mkCANData (fuelLevel d) s (externalTemp d) (externalSensorValid d).
Definition set_externalTemp (s : string) (d : CANData) : CANData :=
  mkCANData (fuelLevel d) (internalTemp d) s (externalSensorValid d).
Definition set_externalSensorValid (b : bool) (d : CANData) : CANData :=
  mkCANData (fuelLevel d) (internalTemp d) (externalTemp d) b.

(** The initializer of the static [lastValidData]. *)
Definition noData : CANData :=
  mkCANData "No Data" "No Data" "No Data" false.

(** [(rxBuf[i] << 8) | rxBuf[i+1]] stored in a [uint16_t]. *)
Definition word_be (f : CANFrame) (i : nat) : Z :=
  u16 (Z.lor (Z.shiftl (byteZ (rx f i)) 8) (byteZ (rx f (S i)))).

(** [String(v)] of an unsigned value: its decimal digits. *)
Definition String_of (v : Z) : string :=
  NilEmpty.string_of_uint (N.to_uint (Z.to_N v)).

(** The body of [if (len >= 6) { ... }] in [readCANData], assignment by
    assignment, on the static [lastValidData]. *)
Definition storeFrame (f : CANFrame) (lastValidData : CANData) : CANData :=
  let level := word_be f 0 in
  let internalTemp := word_be f 2 in
  let externalTemp := word_be f 4 in
  let d1 := set_fuelLevel (String_of level) lastValidData in
  let d2 := set_internalTemp (String_of internalTemp) d1 in
  if externalTemp =? 65535 then
    set_externalSensorValid false (set_externalTemp "Disabled" d2)
  else if externalTemp =? 32769 then
    set_externalSensorValid false (set_externalTemp "Open Circuit" d2)
  else if externalTemp =? 32770 then
    set_externalSensorValid false (set_externalTemp "Short Circuit" d2)
  else
    set_externalSensorValid true (set_externalTemp (String_of externalTemp) d2).

(** ** Actuator pins, output sinks and the trace of effects *)

(** The L298N lines [MOTOR_IN1], [MOTOR_IN2] and the PWM duty on
    [MOTOR_ENA]. *)
Record Pins := mkPins { IN1 : bool; IN2 : bool; ENA : Z }.

Definition HIGH := true.
Definition LOW := false.

Inductive Actuator := Forward | Backward | Stopped.

(** The actuator state a pin pattern stands for: the three patterns the
    driver writes, and no other. *)
Definition actuator (p : Pins) : option Actuator :=
  match IN1 p, IN2 p, ENA p with
  | true, false, 255 => Some Forward
  | false, true, 255 => Some Backward
  | false, false, 0 => Some Stopped
  | _, _, _ => None
  end.

Inductive MotorCmd := CmdForward | CmdBackward | CmdStop.

(** What a call of [print]/[println] hands to a serial port. *)
Inductive Tok :=
| TStr (s : string)
| TNum (n : Z)
| TFloat (x : Q) (digits : nat)
| TLn.

(** Effects on the rig, in the order the firmware performs them. *)
Inductive Event :=
| EvPoll               (* a call of readPitch *)
| EvDelay (ms : Z)     (* delay(ms) *)
| EvMotor (c : MotorCmd).

(** How an adjustment routine ends: the band was reached at the given pitch,
    the re-acquisition after a pulse failed, or no first sample was had. *)
Inductive Outcome :=
| Reached (pitch : Q)
| LostSignal
| InitialReadFailed.

(** ** Angle sources of the test bench *)

(** A source with no valid sample, ever: every poll finds [-999.0]. *)
Definition deadSource (s : unit) : Q * unit := (NO_PITCH, s).

(** The source that answers 8.0 degrees to its first three polls and 10.05
    degrees from then on; its state counts the polls. *)
Definition stepSource (polls : nat) : Q * nat :=
  ((if (polls <? 3)%nat then 8 else 10.05)%Q, S polls).

(** A source that replays a list of samples, one per poll, and has no
    sample once the list is used up. *)
Definition replaySource (samples : list Q) : Q * list Q :=
  match samples with
  | [] => (NO_PITCH, [])
  | p :: rest => (p, rest)
  end.

(** The WT901 receive buffer fed by the wire: [arrivals] lists the bytes
    that come in before each successive poll; the poll then runs
    [WT901.readPitch] on what is buffered.  This is the firmware's own
    angle source. *)
Definition wt901Source (s : list byte * list (list byte))
  : Q * (list byte * list (list byte)) :=
  let (received, arrivals) := s in
  let (pitch, rest) := WT901.readPitch (received ++ hd [] arrivals) in
  (pitch, (rest, tl arrivals)).

(** An angle frame whose bytes 2 and 3 are 0x00 0x20: raw 8192, that is 45
    degrees. *)
Definition frame45 : list byte :=
  [x55; x53; x00; x20; x00; x00; x00; x00; x00; x00].

(** A receive buffer whose first byte is not the sync byte: twelve bytes,
    an angle frame behind one stray byte. *)
Definition misaligned : list byte := x00 :: frame45 ++ [x00].

(** A receive buffer headed by a frame of another type (0x51). *)
Definition otherFrame : list byte :=
  [x55; x51; x00; x20; x00; x00; x00; x00; x00; x00; x00; x55].

(** A bus frame of eight bytes: fuel 300, internal temperature 25,
    external word 0x8001. *)
Definition frameOpen : CANFrame :=
  mkFrame 256 8 [x01; x2c; x00; x19; x80; x01; x00; x00].

(** A bus frame of four bytes. *)
Definition frameShort : CANFrame := mkFrame 256 4 [x01; x2c; x00; x19].

(** ** The rig: state, clock and effects *)

Local Open Scope string_scope.
Local Open Scope list_scope.
Local Open Scope Z_scope.

Definition DATA_INTERVAL : Z := 10.

Section Rig.

(** What feeds [readPitch].  [pollSrc s] is the value one call of
    [readPitch] returns against a source in state [s], and the state the
    call leaves.  The firmware's own source is [wt901Source], the WT901
    receive buffer read by [WT901.readPitch]; a test bench supplies a
    synthetic one. *)
Variable Src : Type.
Variable pollSrc : Src -> Q * Src.

(** The clock is virtual: a read of [millis()] finds it [tick] ms after
    the previous read, [delay(n)] adds [n] ms, nothing else takes time. *)
Variable tick : Z.

(** The ports as the firmware sees them, its globals (with the static
    [lastValidData] of [readCANData]), the two output sinks and the trace
    of effects.  [bus] lists what successive calls of [CAN.checkReceive]
    find: [Some f] a pending message, [None] nothing pending. *)
Record World := mkWorld {
  angle : Src;
  bus : list (option CANFrame);
  cmdIn : list string;
  now : Z;
  pins : Pins;
  isMoving : bool;
  lastCanMsgTime : Z;
  startTime : Z;
  testComplete : bool;
  headersWritten : bool;
  lastValidData : CANData;
  serial : list Tok;
  serial1 : list Tok;
  log : list Event
}.

Definition set_angle (v : Src) (w : World) : World :=
  mkWorld v (bus w) (cmdIn w) (now w) (pins w) (isMoving w)
    (lastCanMsgTime w) (startTime w) (testComplete w) (headersWritten w)
    (lastValidData w) (serial w) (serial1 w) (log w).
Definition set_bus (v : list (option CANFrame)) (w : World) : World :=
  mkWorld (angle w) v (cmdIn w) (now w) (pins w) (isMoving w)
    (lastCanMsgTime w) (startTime w) (testComplete w) (headersWritten w)
    (lastValidData w) (serial w) (serial1 w) (log w).
Definition set_cmdIn (v : list string) (w : World) : World :=
  mkWorld (angle w) (bus w) v (now w) (pins w) (isMoving w)
    (lastCanMsgTime w) (startTime w) (testComplete w) (headersWritten w)
    (lastValidData w) (serial w) (serial1 w) (log w).
Definition set_now (v : Z) (w : World) : World :=
  mkWorld (angle w) (bus w) (cmdIn w) v (pins w) (isMoving w)
    (lastCanMsgTime w) (startTime w) (testComplete w) (headersWritten w)
    (lastValidData w) (serial w) (serial1 w) (log w).
Definition set_pins (v : Pins) (w : World) : World :=
  mkWorld (angle w) (bus w) (cmdIn w) (now w) v (isMoving w)
    (lastCanMsgTime w) (startTime w) (testComplete w) (headersWritten w)
    (lastValidData w) (serial w) (serial1 w) (log w).
Definition set_isMoving (v : bool) (w : World) : World :=
  mkWorld (angle w) (bus w) (cmdIn w) (now w) (pins w) v
    (lastCanMsgTime w) (startTime w) (testComplete w) (headersWritten w)
    (lastValidData w) (serial w) (serial1 w) (log w).
Definition set_lastCanMsgTime (v : Z) (w : World) : World :=
  mkWorld (angle w) (bus w) (cmdIn w) (now w) (pins w) (isMoving w) v
    (startTime w) (testComplete w) (headersWritten w) (lastValidData w)
    (serial w) (serial1 w) (log w).
Definition set_startTime (v : Z) (w : World) : World :=
  mkWorld (angle w) (bus w) (cmdIn w) (now w) (pins w) (isMoving w)
    (lastCanMsgTime w) v (testComplete w) (headersWritten w)
    (lastValidData w) (serial w) (serial1 w) (log w).
Definition set_testComplete (v : bool) (w : World) : World :=
  mkWorld (angle w) (bus w) (cmdIn w) (now w) (pins w) (isMoving w)
    (lastCanMsgTime w) (startTime w) v (headersWritten w)
    (lastValidData w) (serial w) (serial1 w) (log w).
Definition set_headersWritten (v : bool) (w : World) : World :=
  mkWorld (angle w) (bus w) (cmdIn w) (now w) (pins w) (isMoving w)
    (lastCanMsgTime w) (startTime w) (testComplete w) v (lastValidData w)
    (serial w) (serial1 w) (log w).
Definition set_lastValidData (v : CANData) (w : World) : World :=
  mkWorld (angle w) (bus w) (cmdIn w) (now w) (pins w) (isMoving w)
    (lastCanMsgTime w) (startTime w) (testComplete w) (headersWritten w) v
    (serial w) (serial1 w) (log w).
Definition set_serial (v : list Tok) (w : World) : World :=
  mkWorld (angle w) (bus w) (cmdIn w) (now w) (pins w) (isMoving w)
    (lastCanMsgTime w) (startTime w) (testComplete w) (headersWritten w)
    (lastValidData w) v (serial1 w) (log w).
Definition set_serial1 (v : list Tok) (w : World) : World :=
  mkWorld (angle w) (bus w) (cmdIn w) (now w) (pins w) (isMoving w)
    (lastCanMsgTime w) (startTime w) (testComplete w) (headersWritten w)
    (lastValidData w) (serial w) v (log w).
Definition set_log (v : list Event) (w : World) : World :=
  mkWorld (angle w) (bus w) (cmdIn w) (now w) (pins w) (isMoving w)
    (lastCanMsgTime w) (startTime w) (testComplete w) (headersWritten w)
    (lastValidData w) (serial w) (serial1 w) v.

(** A computation either returns, or is cut off inside a loop whose
    iteration budget ran out; both carry the world reached. *)
Inductive Res (A : Type) :=
| Ret (a : A) (w : World)
| Spin (w : World).
Arguments Ret {A} a w.
Arguments Spin {A} w.

Definition M (A : Type) := World -> Res A.

Definition ret {A} (a : A) : M A := fun w => Ret a w.
Definition spin {A} : M A := fun w => Spin w.
Definition bind {A B} (m : M A) (k : A -> M B) : M B :=
  fun w => match m w with
           | Ret a w' => k a w'
           | Spin w' => Spin w'
           end.

Notation "x <- m ;; k" := (bind m (fun x => k))
  (at level 61, m at next level, right associativity).
Notation "m ;; k" := (bind m (fun _ => k))
  (at level 61, right associativity).

Definition get {A} (f : World -> A) : M A := fun w => Ret (f w) w.
Definition put (upd : World -> World) : M unit := fun w => Ret tt (upd w).

Definition world_of {A} (r : Res A) : World :=
  match r with Ret _ w => w | Spin w => w end.

(** *** Arduino primitives *)

Definition millis : M Z :=
  fun w => Ret (u32 (now w)) (set_now (now w + tick) w).

Definition trace (e : Event) : M unit :=
  put (fun w => set_log (log w ++ [e]) w).

Definition delay (ms : Z) : M unit :=
  put (fun w => set_now (now w + ms) w);; trace (EvDelay ms).

Inductive Line := MOTOR_IN1 | MOTOR_IN2.

Definition digitalWrite (pin : Line) (v : bool) : M unit :=
  put (fun w =>
         let p := pins w in
         set_pins (match pin with
                   | MOTOR_IN1 => mkPins v (IN2 p) (ENA p)
                   | MOTOR_IN2 => mkPins (IN1 p) v (ENA p)
                   end) w).

(** [analogWrite(MOTOR_ENA, duty)]. *)
Definition analogWrite (duty : Z) : M unit :=
  put (fun w => let p := pins w in set_pins (mkPins (IN1 p) (IN2 p) duty) w).

(** [Serial.print] and [Serial.println]: the primary sink. *)
Definition print (t : Tok) : M unit :=
  put (fun w => set_serial (serial w ++ [t]) w).
Definition println (t : Tok) : M unit :=
  put (fun w => set_serial (serial w ++ [t; TLn]) w).

(** [Serial1.print] and [Serial1.println]: the diagnostic sink. *)
Definition print1 (t : Tok) : M unit :=
  put (fun w => set_serial1 (serial1 w ++ [t]) w).
Definition println1 (t : Tok) : M unit :=
  put (fun w => set_serial1 (serial1 w ++ [t; TLn]) w).

(** *** Actuator driver *)

Definition moveMotorForward : M unit :=
  trace (EvMotor CmdForward);;
  digitalWrite MOTOR_IN1 HIGH;;
  digitalWrite MOTOR_IN2 LOW;;
  analogWrite 255;;
  put (set_isMoving true).

Definition moveMotorBackward : M unit :=
  trace (EvMotor CmdBackward);;
  digitalWrite MOTOR_IN1 LOW;;
  digitalWrite MOTOR_IN2 HIGH;;
  analogWrite 255;;
  put (set_isMoving true).

Definition stopMotor : M unit :=
  trace (EvMotor CmdStop);;
  digitalWrite MOTOR_IN1 LOW;;
  digitalWrite MOTOR_IN2 LOW;;
  analogWrite 0;;
  put (set_isMoving false).

(** *** Angle reader and bus telemetry reader *)

Definition readPitch : M Q :=
  fun w => let (pitch, s) := pollSrc (angle w) in
           Ret pitch (set_log (log w ++ [EvPoll]) (set_angle s w)).

(** [CAN.checkReceive() == CAN_MSGAVAIL] followed by [CAN.readMsgBuf]. *)
Definition checkReceive : M (option CANFrame) :=
  fun w => match bus w with
           | [] => Ret None w
           | m :: rest => Ret m (set_bus rest w)
           end.

Definition readCANData : M CANData :=
  msg <- checkReceive;;
  match msg with
  | Some f =>
      t <- millis;;
      put (set_lastCanMsgTime t);;
      (if (6 <=? len f)%nat
       then put (fun w => set_lastValidData (storeFrame f (lastValidData w)) w)
       else ret tt);;
      get lastValidData
  | None => get lastValidData
  end.

(** *** Telemetry streamer *)

(** The CSV record of one sample and the status line, as the tokens
    [streamCSVData] prints on [Serial] and on [Serial1]. *)
Definition csvRecord (elapsedTime : Z) (canData : CANData) (pitch : Q)
           (phase direction : string) : list Tok :=
  [TNum elapsedTime; TStr ","; TStr (fuelLevel canData); TStr ",";
   TStr (internalTemp canData); TStr ","; TStr (externalTemp canData);
   TStr ","; TFloat pitch 2; TStr ","; TStr phase; TStr ",";
   TStr direction; TLn].

Definition statusLine (elapsedTime : Z) (canData : CANData) (pitch : Q)
           (phase direction : string) : list Tok :=
  [TStr "# Status at "; TNum elapsedTime; TStr "ms: Phase="; TStr phase;
   TStr ", Direction="; TStr direction; TStr ", Pitch="; TFloat pitch 2;
   TStr ", Fuel="; TStr (fuelLevel canData); TStr ", Temp=";
   TStr (internalTemp canData); TLn].

Definition streamCSVData (phase direction : string) : M unit :=
  pitch <- readPitch;;
  canData <- readCANData;;
  t <- millis;;
  st <- get startTime;;
  let elapsedTime := u32 (t - st) in
  if in_envelope pitch then
    print (TNum elapsedTime);;
    print (TStr ",");;
    print (TStr (fuelLevel canData));;
    print (TStr ",");;
    print (TStr (internalTemp canData));;
    print (TStr ",");;
    print (TStr (externalTemp canData));;
    print (TStr ",");;
    print (TFloat pitch 2);;
    print (TStr ",");;
    print (TStr phase);;
    print (TStr ",");;
    println (TStr direction);;
    (* if (Serial1): a hardware port always converts to true *)
    if elapsedTime mod 1000 <? 10 then
      print1 (TStr "# Status at ");;
      print1 (TNum elapsedTime);;
      print1 (TStr "ms: Phase=");;
      print1 (TStr phase);;
      print1 (TStr ", Direction=");;
      print1 (TStr direction);;
      print1 (TStr ", Pitch=");;
      print1 (TFloat pitch 2);;
      print1 (TStr ", Fuel=");;
      print1 (TStr (fuelLevel canData));;
      print1 (TStr ", Temp=");;
      println1 (TStr (internalTemp canData))
    else ret tt
  else ret tt.

(** The busy-wait sampling loop
    [while (millis() < deadline) { if (millis() - lastDataTime >=
    DATA_INTERVAL) { streamCSVData(..); lastDataTime = millis(); } }]. *)
Fixpoint sampleUntil (fuel : nat) (deadline lastDataTime : Z)
         (phase direction : string) : M unit :=
  match fuel with
  | O => spin
  | S fuel' =>
      t <- millis;;
      if t <? deadline then
        t' <- millis;;
        if DATA_INTERVAL <=? u32 (t' - lastDataTime) then
          streamCSVData phase direction;;
          l <- millis;;
          sampleUntil fuel' deadline l phase direction
        else sampleUntil fuel' deadline lastDataTime phase direction
      else ret tt
  end.

(** [start = millis(); lastDataTime = millis();] and the loop above with
    deadline [start + ms]: the pulse window (200), the stabilization window
    (1000) and the stationary periods (10000). *)
Definition sampleFor (fuel : nat) (ms : Z) (phase direction : string)
  : M unit :=
  adjustStartTime <- millis;;
  lastDataTime <- millis;;
  sampleUntil fuel (u32 (adjustStartTime + ms)) lastDataTime phase direction.

(** *** Pitch controller *)

Definition maxTimeout : nat := 1000.

(** The acquisition loop
    [while (rejected(pitch) && timeoutCounter < maxTimeout)], with [left]
    the attempts that remain, [maxTimeout - timeoutCounter]. *)
Fixpoint acquirePitch (left : nat) (pitch : Q) : M Q :=
  match left with
  | O => ret pitch
  | S left' =>
      if rejected pitch then
        p <- readPitch;;
        if rejected p then delay 10;; acquirePitch left' p
        else ret p
      else ret pitch
  end.

(** [timeoutCounter = 0; pitch = -999.0;] and the loop. *)
Definition getValidPitch : M Q := acquirePitch maxTimeout NO_PITCH.

Definition text (s : string) : Tok := TStr s.

(** The [while (abs(pitch) > 0.1)] loop of [adjustToZeroPitch]. *)
Fixpoint zeroLoop (fuel : nat) (pitch : Q) : M Outcome :=
  if Qltb 0.1 (Qabs pitch) then
    match fuel with
    | O => spin
    | S fuel' =>
        (if Qltb 0 pitch then
           println1 (text "# Moving actuator DOWN");; moveMotorForward
         else
           println1 (text "# Moving actuator UP");; moveMotorBackward);;
        delay 200;;
        stopMotor;;
        delay 1000;;
        p <- getValidPitch;;
        if rejected p then
          println1 (text "# Lost valid pitch reading during adjustment. Stopping.");;
          ret LostSignal
        else
          print1 (text "# Current pitch: ");;
          println1 (TFloat p 2);;
          zeroLoop fuel' p
    end
  else ret (Reached pitch).

Definition adjustToZeroPitch (fuel : nat) : M Outcome :=
  pitch <- getValidPitch;;
  if rejected pitch then
    println1 (text "# Failed to get valid pitch reading. Check inclinometer connection.");;
    ret InitialReadFailed
  else
    print1 (text "# Initial pitch: ");;
    println1 (TFloat pitch 2);;
    r <- zeroLoop fuel pitch;;
    stopMotor;;
    println1 (text "# Pitch stabilized at near 0 degrees.");;
    ret r.

(** The final burst of [returnToZeroPitch]:
    [for (i = 0; i < 100; i++) { if (millis() - lastDataTime >=
    DATA_INTERVAL) { streamCSVData("Complete", "Zero"); lastDataTime =
    millis(); } delay(10); }]. *)
Fixpoint finalSamples (n : nat) (lastDataTime : Z) : M unit :=
  match n with
  | O => ret tt
  | S n' =>
      t <- millis;;
      l <- (if DATA_INTERVAL <=? u32 (t - lastDataTime) then
              streamCSVData "Complete" "Zero";;
              millis
            else ret lastDataTime);;
      delay 10;;
      finalSamples n' l
  end.

(** The [while (abs(pitch) > 0.1)] loop of [returnToZeroPitch]. *)
Fixpoint returnLoop (spins fuel : nat) (pitch : Q) : M Outcome :=
  if Qltb 0.1 (Qabs pitch) then
    match fuel with
    | O => spin
    | S fuel' =>
        (if Qltb 0 pitch then
           println1 (text "# Return to zero - moving actuator DOWN");;
           moveMotorForward
         else
           println1 (text "# Return to zero - moving actuator UP");;
           moveMotorBackward);;
        sampleFor spins 200 "ReturnToZero"
                  (if Qltb 0 pitch then "Down" else "Up");;
        stopMotor;;
        sampleFor spins 1000 "ReturnToZero" "Stabilizing";;
        p <- getValidPitch;;
        if rejected p then
          println1 (text "# Lost valid pitch reading during return to zero. Stopping.");;
          ret LostSignal
        else
          print1 (text "# Return to zero - current pitch: ");;
          println1 (TFloat p 2);;
          returnLoop spins fuel' p
    end
  else ret (Reached pitch).

(** Return to zero pitch at the end of the test. *)
Definition returnToZeroPitch (fuel : nat) : M Outcome :=
  pitch <- getValidPitch;;
  if rejected pitch then
    println1 (text "# Failed to get valid pitch reading during return to zero.");;
    ret InitialReadFailed
  else
    print1 (text "# Return to zero - starting pitch: ");;
    println1 (TFloat pitch 2);;
    r <- returnLoop fuel fuel pitch;;
    stopMotor;;
    lastDataTime <- millis;;
    finalSamples 100 lastDataTime;;
    println1 (text "# Return to zero complete - pitch stabilized at zero degrees.");;
    ret r.

(** The [while (pitch < 4.9 || pitch > 5.1)] loop of [adjustToPosFivePitch];
    [spins] is the budget of each busy-wait inside it. *)
Fixpoint posFiveLoop (spins fuel : nat) (pitch : Q) : M Outcome :=
  if Qltb pitch 4.9 || Qltb 5.1 pitch then
    match fuel with
    | O => spin
    | S fuel' =>
        (if Qltb 5.1 pitch then
           println1 (text "# Moving actuator DOWN");; moveMotorForward
         else if Qltb pitch 4.9 then
           println1 (text "# Moving actuator UP");; moveMotorBackward
         else ret tt);;
        sampleFor spins 200 "AdjustingToPos5"
                  (if Qltb 5.1 pitch then "Down" else "Up");;
        stopMotor;;
        sampleFor spins 1000 "AdjustingToPos5" "Stabilizing";;
        p <- getValidPitch;;
        if rejected p then
          println1 (text "# Lost valid pitch reading during adjustment. Stopping.");;
          ret LostSignal
        else
          print1 (text "# Current pitch: ");;
          println1 (TFloat p 2);;
          posFiveLoop spins fuel' p
    end
  else ret (Reached pitch).

(** Raise to positive five degrees. *)
Definition adjustToPosFivePitch (fuel : nat) : M Outcome :=
  pitch <- getValidPitch;;
  if rejected pitch then
    println1 (text "# Failed to get valid pitch reading. Check inclinometer connection.");;
    ret InitialReadFailed
  else
    print1 (text "# Initial pitch: ");;
    println1 (TFloat pitch 2);;
    r <- posFiveLoop fuel fuel pitch;;
    stopMotor;;
    println1 (text "# Pitch stabilized at near +5 degrees.");;
    ret r.

(** The [while (pitch < 9.9 || pitch > 10.1)] loop of [adjustToPosTenPitch];
    [spins] is the budget of each busy-wait inside it. *)
Fixpoint posTenLoop (spins fuel : nat) (pitch : Q) : M Outcome :=
  if Qltb pitch 9.9 || Qltb 10.1 pitch then
    match fuel with
    | O => spin
    | S fuel' =>
        (if Qltb 10.1 pitch then
           println1 (text "# Moving actuator DOWN");; moveMotorForward
         else if Qltb pitch 9.9 then
           println1 (text "# Moving actuator UP");; moveMotorBackward
         else ret tt);;
        sampleFor spins 200 "AdjustingToPos10"
                  (if Qltb 10.1 pitch then "Down" else "Up");;
        stopMotor;;
        sampleFor spins 1000 "AdjustingToPos10" "Stabilizing";;
        p <- getValidPitch;;
        if rejected p then
          println1 (text "# Lost valid pitch reading during adjustment. Stopping.");;
          ret LostSignal
        else
          print1 (text "# Current pitch: ");;
          println1 (TFloat p 2);;
          posTenLoop spins fuel' p
    end
  else ret (Reached pitch).

(** Raise to positive ten degrees. *)
Definition adjustToPosTenPitch (fuel : nat) : M Outcome :=
  pitch <- getValidPitch;;
  if rejected pitch then
    println1 (text "# Failed to get valid pitch reading. Check inclinometer connection.");;
    ret InitialReadFailed
  else
    print1 (text "# Initial pitch: ");;
    println1 (TFloat pitch 2);;
    r <- posTenLoop fuel fuel pitch;;
    stopMotor;;
    println1 (text "# Pitch stabilized at near +10 degrees.");;
    ret r.

(** The [while (pitch < -5.1 || pitch > -4.9)] loop of [adjustToNegFivePitch];
    [spins] is the budget of each busy-wait inside it. *)
Fixpoint negFiveLoop (spins fuel : nat) (pitch : Q) : M Outcome :=
  if Qltb pitch (-5.1) || Qltb (-4.9) pitch then
    match fuel with
    | O => spin
    | S fuel' =>
        (if Qltb pitch (-5.1) then
           println1 (text "# Moving actuator UP");; moveMotorBackward
         else if Qltb (-4.9) pitch then
           println1 (text "# Moving actuator DOWN");; moveMotorForward
         else ret tt);;
        sampleFor spins 200 "AdjustingToNeg5"
                  (if Qltb pitch (-5.1) then "Up" else "Down");;
        stopMotor;;
        sampleFor spins 1000 "AdjustingToNeg5" "Stabilizing";;
        p <- getValidPitch;;
        if rejected p then
          println1 (text "# Lost valid pitch reading during adjustment. Stopping.");;
          ret LostSignal
        else
          print1 (text "# Current pitch: ");;
          println1 (TFloat p 2);;
          negFiveLoop spins fuel' p
    end
  else ret (Reached pitch).

(** Adjust to negative five degrees. *)
Definition adjustToNegFivePitch (fuel : nat) : M Outcome :=
  pitch <- getValidPitch;;
  if rejected pitch then
    println1 (text "# Failed to get valid pitch reading. Check inclinometer connection.");;
    ret InitialReadFailed
  else
    print1 (text "# Initial pitch: ");;
    println1 (TFloat pitch 2);;
    r <- negFiveLoop fuel fuel pitch;;
    stopMotor;;
    println1 (text "# Pitch stabilized at near -5 degrees.");;
    ret r.

(** The [while (pitch < -10.1 || pitch > -9.9)] loop of [adjustToNegTenPitch];
    [spins] is the budget of each busy-wait inside it. *)
Fixpoint negTenLoop (spins fuel : nat) (pitch : Q) : M Outcome :=
  if Qltb pitch (-10.1) || Qltb (-9.9) pitch then
    match fuel with
    | O => spin
    | S fuel' =>
        (if Qltb pitch (-10.1) then
           println1 (text "# Moving actuator UP");; moveMotorBackward
         else if Qltb (-9.9) pitch then
           println1 (text "# Moving actuator DOWN");; moveMotorForward
         else ret tt);;
        sampleFor spins 200 "AdjustingToNeg10"
                  (if Qltb pitch (-10.1) then "Up" else "Down");;
        stopMotor;;
        sampleFor spins 1000 "AdjustingToNeg10" "Stabilizing";;
        p <- getValidPitch;;
        if rejected p then
          println1 (text "# Lost valid pitch reading during adjustment. Stopping.");;
          ret LostSignal
        else
          print1 (text "# Current pitch: ");;
          println1 (TFloat p 2);;
          negTenLoop spins fuel' p
    end
  else ret (Reached pitch).

(** Adjust to negative ten degrees. *)
Definition adjustToNegTenPitch (fuel : nat) : M Outcome :=
  pitch <- getValidPitch;;
  if rejected pitch then
    println1 (text "# Failed to get valid pitch reading. Check inclinometer connection.");;
    ret InitialReadFailed
  else
    print1 (text "# Initial pitch: ");;
    println1 (TFloat pitch 2);;
    r <- negTenLoop fuel fuel pitch;;
    stopMotor;;
    println1 (text "# Pitch stabilized at near -10 degrees.");;
    ret r.

(** *** Test sequencer *)

(** The block that follows every adjustment in [loop]:
    [if (millis() - lastCanMsgTime > 60000) { warn; lastCanMsgTime =
    millis(); }]. *)
Definition warnIfBusSilent : M unit :=
  t <- millis;;
  l <- get lastCanMsgTime;;
  if 60000 <? u32 (t - l) then
    println1 (text "# WARNING: No CAN messages received in the last 60 seconds.");;
    t' <- millis;;
    put (set_lastCanMsgTime t')
  else ret tt.

(** [setup], from [headersWritten = false] on.  The port, pin-mode and
    CAN bring-up before it is outside the model. *)
Definition setup (fuel : nat) : M unit :=
  put (set_headersWritten false);;
  stopMotor;;
  println1 (text "# Adjusting actuator to achieve 0-degree pitch...");;
  adjustToZeroPitch fuel;;
  println1 (text "# Pitch is now 0 degrees. Starting test motion...");;
  t <- millis;;
  put (set_startTime t);;
  put (set_testComplete false).

(** One pass of [loop].  [cmdIn] holds the lines waiting on [Serial]. *)
Definition loop (fuel : nat) : M unit :=
  complete <- get testComplete;;
  if complete then
    pending <- get cmdIn;;
    match pending with
    | command :: rest =>
        put (set_cmdIn rest);;
        if String.eqb command "reset" then
          println1 (text "# Resetting system...");;
          setup fuel
        else delay 100
    | [] => delay 100
    end
  else
    cycleStartTime <- millis;;
    written <- get headersWritten;;
    (if negb written then
       println (text "TimeMS,FuelLevel,InternalTemp,ExternalTemp,Pitch,Phase,MovementDirection");;
       put (set_headersWritten true)
     else ret tt);;
    println1 (text "# Raising to +5");;
    adjustToPosFivePitch fuel;;
    warnIfBusSilent;;
    stopMotor;;
    println1 (text "# Starting first stationary period");;
    sampleFor fuel 10000 "Stationary1" "None";;
    println1 (text "# Lowering to -5");;
    adjustToNegFivePitch fuel;;
    warnIfBusSilent;;
    stopMotor;;
    println1 (text "# Starting second stationary period");;
    sampleFor fuel 10000 "Stationary2" "None";;
    println1 (text "# Raising to +10");;
    adjustToPosTenPitch fuel;;
    warnIfBusSilent;;
    stopMotor;;
    println1 (text "# Starting third stationary period");;
    sampleFor fuel 10000 "Stationary3" "None";;
    println1 (text "# Lowering to -10");;
    adjustToNegTenPitch fuel;;
    warnIfBusSilent;;
    stopMotor;;
    println1 (text "# Starting fourth stationary period");;
    sampleFor fuel 10000 "Stationary4" "None";;
    println1 (text "# Returning to zero pitch position");;
    returnToZeroPitch fuel;;
    println1 (text "# Test cycle complete - System waiting for reset");;
    println1 (text "# Send 'reset' command to begin a new test");;
    put (set_testComplete true);;
    warnIfBusSilent.

(** [loop] called [n] times over. *)
Fixpoint loops (n fuel : nat) : M unit :=
  match n with
  | O => ret tt
  | S n' => loop fuel;; loops n' fuel
  end.

(** The firmware: [setup] once, then [loop] again and again. *)
Definition firmware (n fuel : nat) : M unit :=
  setup fuel;; loops n fuel.

(** The rig at power-on, the pins configured as outputs: lines low, no
    drive, the globals at their initializers. *)
Definition powerOn (s : Src) (frames : list (option CANFrame))
           (commands : list string) : World :=
  mkWorld s frames commands 0 (mkPins LOW LOW 0) false 0 0 false false
          noData [] [] [].

(** The motor commands of a trace, in order. *)
Fixpoint commands (l : list Event) : list MotorCmd :=
  match l with
  | [] => []
  | EvMotor c :: l' => c :: commands l'
  | _ :: l' => commands l'
  end.

(** The number of [readPitch] calls in a trace. *)
Fixpoint polls (l : list Event) : nat :=
  match l with
  | [] => O
  | EvPoll :: l' => S (polls l')
  | _ :: l' => polls l'
  end.

Definition isDrive (c : MotorCmd) : bool :=
  match c with CmdStop => false | _ => true end.

(** No drive command is directly followed by another drive command: a
    stop separates any two of them. *)
Fixpoint stopSeparated (l : list MotorCmd) : bool :=
  match l with
  | [] => true
  | c :: l' =>
      match l' with
      | [] => true
      | c' :: _ => negb (isDrive c && isDrive c') && stopSeparated l'
      end
  end.

(** The actuator state a command leaves. *)
Definition stateAfter (c : MotorCmd) : Actuator :=
  match c with
  | CmdForward => Forward
  | CmdBackward => Backward
  | CmdStop => Stopped
  end.


(** [n] successive polls of the bus telemetry reader, with what each
    returned. *)
Fixpoint pollBus (n : nat) : M (list CANData) :=
  match n with
  | O => ret []
  | S n' =>
      d <- readCANData;;
      ds <- pollBus n';;
      ret (d :: ds)
  end.

(** [n] successive calls of [streamCSVData], with the sample each call
    found at the angle source. *)
Fixpoint streamMany (n : nat) (phase direction : string) : M (list Q) :=
  match n with
  | O => ret []
  | S n' =>
      p <- get (fun w => fst (pollSrc (angle w)));;
      streamCSVData phase direction;;
      ps <- streamMany n' phase direction;;
      ret (p :: ps)
  end.

(** The records on a sink: its line ends. *)
Fixpoint records (out : list Tok) : nat :=
  match out with
  | [] => O
  | TLn :: out' => S (records out')
  | _ :: out' => records out'
  end.

(** The last motor command of a trace. *)
Definition lastCommand (l : list Event) : option MotorCmd :=
  last (map Some (commands l)) None.

(** The actuator as a run has left it: the commands given so far and the
    pins. *)
Definition motor (w : World) : list MotorCmd * Pins :=
  (commands (log w), pins w).

(** The commands so far are stop-separated and the pins show the state the
    last of them set. *)
Definition safe (mv : list MotorCmd * Pins) : Prop :=
  stopSeparated (fst mv) = true /\
  exists c, last (map Some (fst mv)) None = Some c /\
            actuator (snd mv) = Some (stateAfter c).

(** [safe], and the last command was a stop. *)
Definition parked (mv : list MotorCmd * Pins) : Prop :=
  stopSeparated (fst mv) = true /\
  last (map Some (fst mv)) None = Some CmdStop /\
  actuator (snd mv) = Some Stopped.

(** What holds when a computation returns ([Q]) and when it is cut off
    ([S]). *)
Definition post {A} (m : M A) (w : World)
           (Q : A -> World -> Prop) (S : World -> Prop) : Prop :=
  match m w with
  | Ret a w' => Q a w'
  | Spin w' => S w'
  end.

(** A computation that gives no motor command and leaves the pins. *)
Definition quiet {A} (m : M A) : Prop :=
  forall w, motor (world_of (m w)) = motor w.

(** The source state after [k] polls. *)
Definition polled (k : nat) (s : Src) : Src :=
  Nat.iter k (fun s => snd (pollSrc s)) s.

(** The six pitch-adjustment routines. *)
Inductive Routine :=
| ZeroAtStart | ZeroAtEnd | PosFive | PosTen | NegFive | NegTen.

(** The angle a routine drives to. *)
Definition target (r : Routine) : Q :=
  match r with
  | ZeroAtStart | ZeroAtEnd => 0
  | PosFive => 5
  | PosTen => 10
  | NegFive => -5
  | NegTen => -10
  end.

(** The firmware function of a routine. *)
Definition run (r : Routine) : nat -> M Outcome :=
  match r with
  | ZeroAtStart => adjustToZeroPitch
  | ZeroAtEnd => returnToZeroPitch
  | PosFive => adjustToPosFivePitch
  | PosTen => adjustToPosTenPitch
  | NegFive => adjustToNegFivePitch
  | NegTen => adjustToNegTenPitch
  end.

(** [n] rounds of a failed acquisition attempt: a poll, then [delay(10)]. *)
Fixpoint attempts (n : nat) : list Event :=
  match n with
  | O => []
  | S n' => EvPoll :: EvDelay 10 :: attempts n'
  end.

(** A computation that takes the actuator from parked to parked, and is
    safe wherever it is cut off. *)
Definition keepsParked {A} (m : M A) : Prop :=
  forall w, parked (motor w) ->
            post m w (fun _ w' => parked (motor w'))
                 (fun w' => safe (motor w')).

(** What a routine reports as reached lies within 0.1 of [target]. *)
Definition reachedWithin (target : Q) (r : Outcome) (w : World) : Prop :=
  forall p, r = Reached p -> (Qabs (p - target) <= 0.1)%Q.

(** A poll result that is not a frame of payload length 6 or more. *)
Definition shortOrNone (m : option CANFrame) : Prop :=
  match m with
  | Some f => (len f < 6)%nat
  | None => True
  end.

(** Output on [Serial] made of header lines and of records whose bus
    columns carry the placeholder. *)
Inductive placeholderOnly : list Tok -> Prop :=
| po_nil : placeholderOnly []
| po_header (out : list Tok) (s : string) :
    placeholderOnly out -> placeholderOnly (out ++ [TStr s; TLn])
| po_record (out : list Tok) (elapsedTime : Z) (pitch : Q)
            (phase direction : string) :
    placeholderOnly out ->
    placeholderOnly (out ++ csvRecord elapsedTime noData pitch phase direction).

(** No frame of payload length 6 or more has been stored or is to be found
    on the bus, and [Serial] shows it. *)
Definition cold (w : World) : Prop :=
  lastValidData w = noData /\ Forall shortOrNone (bus w)
  /\ placeholderOnly (serial w).

(** A computation that preserves [cold], wherever it ends. *)
Definition staysCold {A} (m : M A) : Prop :=
  forall w, cold w -> cold (world_of (m w)).

(** ** Further observations on the reader, the bus and the script *)

(** An angle frame whose bytes 2 and 3 are 0x00 0x04: raw 1024, that is
    5.625 degrees. *)
Definition frame5 : list byte :=
  [x55; x53; x00; x04; x00; x00; x00; x00; x00; x00].

(** [n] successive calls of [WT901.readPitch] on a receive buffer that
    gets no new bytes meanwhile: the values returned, and what is left. *)
Fixpoint readMany (n : nat) (buffered : list byte) : list Q * list byte :=
  match n with
  | O => ([], buffered)
  | S n' =>
      let (pitch, rest) := WT901.readPitch buffered in
      let (pitches, left) := readMany n' rest in
      (pitch :: pitches, left)
  end.

(** The last frame of payload length 6 or more among poll results. *)
Fixpoint lastLong (found : list (option CANFrame)) : option CANFrame :=
  match found with
  | [] => None
  | m :: found' =>
      match lastLong found' with
      | Some f => Some f
      | None =>
          match m with
          | Some f => if (6 <=? len f)%nat then Some f else None
          | None => None
          end
      end
  end.

(** A relation between the world before and the world after that a
    computation respects, wherever it ends. *)
Definition steps {A} (R : World -> World -> Prop) (m : M A) : Prop :=
  forall w, R w (world_of (m w)).

(** The header line [loop] writes on [Serial]. *)
Definition csvHeader : string :=
  "TimeMS,FuelLevel,InternalTemp,ExternalTemp,Pitch,Phase,MovementDirection".

(** The phase and direction labels at the call sites of [streamCSVData]. *)
Definition labels : list (string * string) :=
  [("Stationary1", "None"); ("Stationary2", "None");
   ("Stationary3", "None"); ("Stationary4", "None");
   ("ReturnToZero", "Down"); ("ReturnToZero", "Up");
   ("ReturnToZero", "Stabilizing"); ("Complete", "Zero");
   ("AdjustingToPos5", "Down"); ("AdjustingToPos5", "Up");
   ("AdjustingToPos5", "Stabilizing");
   ("AdjustingToPos10", "Down"); ("AdjustingToPos10", "Up");
   ("AdjustingToPos10", "Stabilizing");
   ("AdjustingToNeg5", "Up"); ("AdjustingToNeg5", "Down");
   ("AdjustingToNeg5", "Stabilizing");
   ("AdjustingToNeg10", "Up"); ("AdjustingToNeg10", "Down");
   ("AdjustingToNeg10", "Stabilizing")].

Definition isLabel (phase direction : string) : bool :=
  existsb (fun l => String.eqb phase (fst l) && String.eqb direction (snd l))
          labels.

(** Output on [Serial] that a CSV reader can take: header lines and
    records, each record with a 32-bit time stamp, a pitch in the envelope
    and labels of [labels]. *)
Inductive csvStream : list Tok -> Prop :=
| cs_nil : csvStream []
| cs_header (out : list Tok) :
    csvStream out -> csvStream (out ++ [TStr csvHeader; TLn])
| cs_record (out : list Tok) (elapsedTime : Z) (canData : CANData)
            (pitch : Q) (phase direction : string) :
    csvStream out ->
    0 <= elapsedTime < 2 ^ 32 ->
    in_envelope pitch = true ->
    isLabel phase direction = true ->
    csvStream (out ++ csvRecord elapsedTime canData pitch phase direction).

(** The log only grows. *)
Definition logGrows (w w' : World) : Prop :=
  exists l, log w' = log w ++ l.

(** [Serial] only grows, and by well-formed CSV. *)
Definition csvGrows (w w' : World) : Prop :=
  exists out, serial w' = serial w ++ out /\ csvStream out.

(** What the initial levelling and the idle state leave alone: the CSV
    sink, the bus, the telemetry cache and its time stamp. *)
Definition telemetry (w : World)
  : list Tok * list (option CANFrame) * CANData * Z :=
  (serial w, bus w, lastValidData w, lastCanMsgTime w).

(** The globals that sequence the test, apart from [testComplete]. *)
Definition script (w : World) : bool * Z * list string :=
  (headersWritten w, startTime w, cmdIn w).

(** What an idle pass of [loop] leaves alone. *)
Definition rig (w : World)
  : Src * list (option CANFrame) * Pins * list MotorCmd * list Tok
    * list Tok * CANData :=
  (angle w, bus w, pins w, commands (log w), serial w, serial1 w,
   lastValidData w).

(** *** CAN bring-up at the head of [setup] *)

Inductive Baud := CAN_1000KBPS | CAN_500KBPS | CAN_250KBPS | CAN_125KBPS.

(** The status [CAN.begin] returns on success. *)
Definition CAN_OK : Z := 0.

(** The loop [for (i = 0; i < 3; i++) { delay(100); canStatus =
    CAN.begin(MCP_ANY, baudRates[i], MCP_8MHZ); if (canStatus == CAN_OK)
    { ...; break; } }] over the rates that remain.  [begin] gives the
    status the controller answers at each rate; each rate is tried at most
    once. *)
Fixpoint tryRates (begin : Baud -> Z) (rates : list (Baud * string))
         (canStatus : Z) : M Z :=
  match rates with
  | [] => ret canStatus
  | (rate, name) :: rest =>
      delay 100;;
      let canStatus := begin rate in
      if canStatus =? CAN_OK then
        print1 (text "# CAN module initialized at ");;
        println1 (text name);;
        ret canStatus
      else tryRates begin rest canStatus
  end.

(** The CAN part of [setup]: 1 Mbps first, then the alternate rates. *)
Definition canBringUp (begin : Baud -> Z) : M Z :=
  println1 (text "# Initializing CAN bus...");;
  let canStatus := begin CAN_1000KBPS in
  if canStatus =? CAN_OK then
    println1 (text "# CAN module initialized successfully at 1Mbps");;
    ret canStatus
  else
    print1 (text "# CAN module initialization failed at 1Mbps. Error code: ");;
    println1 (TNum canStatus);;
    println1 (text "# Trying alternate baud rates...");;
    canStatus <- tryRates begin
                   [(CAN_500KBPS, "500kbps"); (CAN_250KBPS, "250kbps");
                    (CAN_125KBPS, "125kbps")] canStatus;;
    (if negb (canStatus =? CAN_OK) then
       println1 (text "# CAN module initialization failed with all settings")
     else ret tt);;
    ret canStatus.

(** How many of the given rates fail before one answers. *)
Fixpoint failedFirst (begin : Baud -> Z) (rates : list Baud) : nat :=
  match rates with
  | [] => O
  | rate :: rest =>
      if begin rate =? CAN_OK then O else S (failedFirst begin rest)
  end.

(** * Properties *)

(** ** Machine arithmetic *)

Lemma byteZ_range (b : byte) : 0 <= byteZ b < 256.
Proof.
  unfold byteZ. pose proof (Byte.to_N_bounded b). lia.
Qed.

Lemma lor_shiftl_8 (hi lo : Z) :
  0 <= hi -> 0 <= lo < 256 -> Z.lor (Z.shiftl hi 8) lo = 256 * hi + lo.
Proof.
  intros Hhi Hlo.
  assert (Hdisj : Z.land (Z.shiftl hi 8) lo = 0).
  { apply Z.bits_inj'. intros n Hn.
    rewrite Z.land_spec, Z.bits_0.
    destruct (Z.lt_ge_cases n 8) as [Hlt | Hge].
    - rewrite Z.shiftl_spec_low by assumption. reflexivity.
    - destruct (Z.eq_dec lo 0) as [-> | Hnz].
      + rewrite Z.bits_0. apply andb_false_r.
      + rewrite (Z.bits_above_log2 lo n); [apply andb_false_r | lia | ].
        apply Z.log2_lt_pow2; [lia | ].
        apply Z.lt_le_trans with (2 ^ 8); [simpl; lia | ].
        apply Z.pow_le_mono_r; lia. }
  rewrite <- Z.lxor_lor by assumption.
  rewrite <- Z.add_nocarry_lxor by assumption.
  rewrite Z.shiftl_mul_pow2 by lia. change (2 ^ 8) with 256. lia.
Qed.

Lemma to_int16_le (lo hi : byte) :
  to_int16 (Z.lor (Z.shiftl (byteZ hi) 8) (byteZ lo)) = int16_le lo hi.
Proof.
  pose proof (byteZ_range lo). pose proof (byteZ_range hi).
  rewrite lor_shiftl_8 by lia.
  unfold to_int16, int16_le.
  replace (byteZ lo + 256 * byteZ hi) with (256 * byteZ hi + byteZ lo) by lia.
  change (2 ^ 15) with 32768. change (2 ^ 16) with 65536.
  destruct (Z.ltb_spec (256 * byteZ hi + byteZ lo) 32768).
  - rewrite Z.mod_small; lia.
  - replace (256 * byteZ hi + byteZ lo + 32768)
      with ((256 * byteZ hi + byteZ lo - 32768) + 1 * 65536) by lia.
    rewrite Z.mod_add by lia. rewrite Z.mod_small; lia.
Qed.

Lemma int16_le_range (lo hi : byte) : -32768 <= int16_le lo hi < 32768.
Proof.
  pose proof (byteZ_range lo). pose proof (byteZ_range hi).
  unfold int16_le.
  destruct (Z.ltb_spec (byteZ lo + 256 * byteZ hi) 32768); lia.
Qed.

Lemma u16_word (hi lo : byte) :
  u16 (Z.lor (Z.shiftl (byteZ hi) 8) (byteZ lo)) = 256 * byteZ hi + byteZ lo.
Proof.
  pose proof (byteZ_range lo). pose proof (byteZ_range hi).
  rewrite lor_shiftl_8 by lia. unfold u16. apply Z.mod_small.
  change (2 ^ 16) with 65536. lia.
Qed.

(** ** Envelope guards *)

Lemma Qltb_lt (x y : Q) : Qltb x y = true <-> (x < y)%Q.
Proof.
  unfold Qltb. rewrite negb_true_iff. split; intro H.
  - apply Qnot_le_lt. intro Hle. apply Qle_bool_iff in Hle. congruence.
  - destruct (Qle_bool y x) eqn:E; [ | reflexivity].
    apply Qle_bool_iff in E. exfalso. exact (Qlt_not_le _ _ H E).
Qed.

Lemma Qltb_ge (x y : Q) : Qltb x y = false <-> (y <= x)%Q.
Proof.
  unfold Qltb. rewrite negb_false_iff. apply Qle_bool_iff.
Qed.

Lemma rejected_in_envelope (pitch : Q) :
  rejected pitch = negb (in_envelope pitch).
Proof.
  unfold rejected, in_envelope, Qltb.
  destruct (Qeq_bool pitch NO_PITCH), (Qle_bool (-25) pitch),
    (Qle_bool pitch 25); reflexivity.
Qed.

Lemma in_envelope_iff (pitch : Q) :
  in_envelope pitch = true <-> (-25 <= pitch /\ pitch <= 25)%Q.
Proof.
  unfold in_envelope. rewrite !andb_true_iff, negb_true_iff, !Qle_bool_iff.
  split; [tauto | ]. intros [Hlo Hhi]. repeat split; try assumption.
  destruct (Qeq_bool pitch NO_PITCH) eqn:E; [ | reflexivity].
  apply Qeq_bool_eq in E. rewrite E in Hlo. unfold NO_PITCH in Hlo.
  exfalso. revert Hlo. unfold Qle. simpl. lia.
Qed.

Lemma outside_rejected (pitch : Q) :
  ~ (-25 <= pitch /\ pitch <= 25)%Q ->
  rejected pitch = true /\ in_envelope pitch = false.
Proof.
  intro H. rewrite rejected_in_envelope.
  destruct (in_envelope pitch) eqn:E; [ | split; reflexivity].
  apply in_envelope_iff in E. contradiction.
Qed.

(** ** Angle reader *)

Lemma readPitch_short (rx : list byte) :
  (List.length rx < 11)%nat -> WT901.readPitch rx = (NO_PITCH, rx).
Proof.
  intro H. unfold WT901.readPitch.
  destruct (Nat.leb_spec 11 (List.length rx)); [lia | reflexivity].
Qed.

Lemma readPitch_bad_sync (rx : list byte) :
  (11 <= List.length rx)%nat -> nth 0 rx x00 <> x55 ->
  WT901.readPitch rx = (NO_PITCH, skipn 1 rx).
Proof.
  intros Hlen Hsync. unfold WT901.readPitch.
  destruct (Nat.leb_spec 11 (List.length rx)); [ | lia].
  destruct rx as [ | header rx1]; [simpl in Hlen; lia | ].
  simpl in Hsync. simpl skipn.
  destruct (Byte.eqb header x55) eqn:E; [ | reflexivity].
  apply Byte.byte_dec_bl in E. contradiction.
Qed.

Lemma readPitch_bad_type (rx : list byte) :
  (11 <= List.length rx)%nat -> nth 0 rx x00 = x55 -> nth 1 rx x00 <> x53 ->
  WT901.readPitch rx = (NO_PITCH, skipn 10 rx).
Proof.
  intros Hlen Hsync Htype. unfold WT901.readPitch.
  destruct (Nat.leb_spec 11 (List.length rx)); [ | lia].
  destruct rx as [ | header [ | ty rx2]]; try (simpl in Hlen; lia).
  simpl in Hsync, Htype. subst header.
  change (Byte.eqb x55 x55) with true. cbv iota.
  unfold WT901.readBytes, WT901.at_. simpl nth.
  destruct (Byte.eqb ty x53) eqn:E.
  - apply Byte.byte_dec_bl in E. contradiction.
  - reflexivity.
Qed.

Lemma readPitch_angle (rx : list byte) :
  (11 <= List.length rx)%nat -> nth 0 rx x00 = x55 -> nth 1 rx x00 = x53 ->
  WT901.readPitch rx =
    ((inject_Z (int16_le (nth 2 rx x00) (nth 3 rx x00)) / 32768 * 180)%Q,
     skipn 10 rx).
Proof.
  intros Hlen Hsync Htype. unfold WT901.readPitch.
  destruct (Nat.leb_spec 11 (List.length rx)); [ | lia].
  destruct rx as [ | header [ | ty [ | b2 [ | b3 rx4]]]];
    try (simpl in Hlen; lia).
  simpl in Hsync, Htype. subst header ty.
  change (Byte.eqb x55 x55) with true. cbv iota.
  unfold WT901.readBytes, WT901.at_. simpl nth.
  change (Byte.eqb x53 x53) with true. cbv iota.
  rewrite to_int16_le. reflexivity.
Qed.

(** ** Band thresholds and floating point *)

Lemma dyadic_apart (m n : Z) :
  n mod 5 <> 0 -> 10 * m + 2 <= 8192 * n \/ 8192 * n + 2 <= 10 * m.
Proof.
  intro H.
  assert (Hne : 4096 * n <> 5 * m).
  { intro E. apply H. apply Z.mod_divide; [lia | ].
    exists (m - 819 * n). lia. }
  lia.
Qed.

(** The thresholds 0.1, 4.9, 5.1, 9.9, 10.1 and their negatives are the only
    constants of the firmware that binary floating point does not hold
    exactly.  Each is [n/10] with [n] not a multiple of 5.  A pitch the
    reader returns is a dyadic [m/8192], and no such value lies between
    [n/10] and a number [c] within a millionth of it: comparing with the
    rounded constant, in binary32 or binary64, gives what comparing with the
    decimal gives. *)
Lemma threshold_rounding (m n : Z) (c : Q) :
  n mod 5 <> 0 ->
  (Qabs (c - (n # 10)) <= 1 # 1000000)%Q ->
  Qltb (m # 8192) c = Qltb (m # 8192) (n # 10) /\
  Qltb c (m # 8192) = Qltb (n # 10) (m # 8192).
Proof.
  intros Hn Hc.
  assert (Hiff : ((m # 8192 < c)%Q <-> (m # 8192 < n # 10)%Q) /\
                 ((c < m # 8192)%Q <-> (n # 10 < m # 8192)%Q)).
  { apply Qabs_Qle_condition in Hc. destruct Hc as [Hlo Hhi].
    destruct c as [a b].
    unfold Qlt, Qle, Qminus, Qplus, Qopp in *. cbn [Qnum Qden] in *.
    rewrite !Pos2Z.inj_mul in Hlo, Hhi.
    assert (HB : 0 < Z.pos b) by lia.
    remember (Z.pos b) as B eqn:EB. clear EB b.
    destruct (dyadic_apart m n Hn) as [Hbelow | Habove].
    - pose proof (Z.mul_le_mono_nonneg_r _ _ B ltac:(lia) Hbelow) as Hp.
      split; split; intro; lia.
    - pose proof (Z.mul_le_mono_nonneg_r _ _ B ltac:(lia) Habove) as Hp.
      split; split; intro; lia. }
  destruct Hiff as [Hiff1 Hiff2]. split.
  - destruct (Qltb (m # 8192) (n # 10)) eqn:E.
    + apply Qltb_lt. apply Hiff1. apply Qltb_lt. exact E.
    + destruct (Qltb (m # 8192) c) eqn:E'; [ | reflexivity].
      apply Qltb_lt in E'. apply Hiff1 in E'. apply Qltb_lt in E'. congruence.
  - destruct (Qltb (n # 10) (m # 8192)) eqn:E.
    + apply Qltb_lt. apply Hiff2. apply Qltb_lt. exact E.
    + destruct (Qltb c (m # 8192)) eqn:E'; [ | reflexivity].
      apply Qltb_lt in E'. apply Hiff2 in E'. apply Qltb_lt in E'. congruence.
Qed.

(** ** Running the monad *)

Lemma bind_Ret {A B} (m : M A) (k : A -> M B) (w w' : World) (a : A) :
  m w = Ret a w' -> bind m k w = k a w'.
Proof. intro H. unfold bind. rewrite H. reflexivity. Qed.

(** ** Bus telemetry reader *)

Lemma readCANData_idle (w : World) :
  bus w = [] -> readCANData w = Ret (lastValidData w) w.
Proof.
  intro H. unfold readCANData, bind, checkReceive. rewrite H. reflexivity.
Qed.

Lemma readCANData_nothing (w : World) (rest : list (option CANFrame)) :
  bus w = None :: rest ->
  readCANData w = Ret (lastValidData w) (set_bus rest w).
Proof.
  intro H. unfold readCANData, bind, checkReceive. rewrite H. reflexivity.
Qed.

Lemma readCANData_short (w : World) f (rest : list (option CANFrame)) :
  bus w = Some f :: rest -> (len f < 6)%nat ->
  readCANData w =
    Ret (lastValidData w)
        (set_lastCanMsgTime (u32 (now w))
           (set_now (now w + tick) (set_bus rest w))).
Proof.
  intros H Hlen. unfold readCANData, bind, checkReceive. rewrite H.
  destruct (Nat.leb_spec 6 (len f)); [lia | reflexivity].
Qed.

Lemma readCANData_frame (w : World) f (rest : list (option CANFrame)) :
  bus w = Some f :: rest -> (6 <= len f)%nat ->
  readCANData w =
    Ret (storeFrame f (lastValidData w))
        (set_lastValidData (storeFrame f (lastValidData w))
           (set_lastCanMsgTime (u32 (now w))
              (set_now (now w + tick) (set_bus rest w)))).
Proof.
  intros H Hlen. unfold readCANData, bind, checkReceive. rewrite H.
  destruct (Nat.leb_spec 6 (len f)); [reflexivity | lia].
Qed.

Lemma storeFrame_forgets (f : CANFrame) (old old' : CANData) :
  storeFrame f old = storeFrame f old'.
Proof.
  unfold storeFrame.
  destruct (word_be f 4 =? 65535); [reflexivity | ].
  destruct (word_be f 4 =? 32769); [reflexivity | ].
  destruct (word_be f 4 =? 32770); reflexivity.
Qed.

Lemma word_be_value (f : CANFrame) (i : nat) :
  word_be f i = 256 * byteZ (rx f i) + byteZ (rx f (S i)).
Proof. unfold word_be. apply u16_word. Qed.

Lemma word_be_range (f : CANFrame) (i : nat) : 0 <= word_be f i < 65536.
Proof.
  rewrite word_be_value.
  pose proof (byteZ_range (rx f i)). pose proof (byteZ_range (rx f (S i))).
  lia.
Qed.

Lemma String_of_value (v : Z) :
  0 <= v ->
  option_map (fun u => Z.of_N (N.of_uint u))
             (NilEmpty.uint_of_string (String_of v)) = Some v.
Proof.
  intro H. unfold String_of. rewrite NilEmpty.usu. simpl.
  rewrite DecimalN.Unsigned.of_to. f_equal. lia.
Qed.

(** ** Telemetry streamer *)

(** One call of [streamCSVData]: it always returns; it polls the angle
    source once, leaves the actuator alone, and writes one record on
    [Serial] exactly when the sample is in the envelope.  The time stamp and
    the bus data of the record are whatever the bus poll and the clock gave. *)
Lemma streamCSVData_spec (phase direction : string) (w : World) :
  exists (w' : World) (elapsedTime : Z) (canData : CANData),
    streamCSVData phase direction w = Ret tt w'
    /\ angle w' = snd (pollSrc (angle w))
    /\ log w' = log w ++ [EvPoll]
    /\ pins w' = pins w
    /\ serial w' =
         serial w ++
           (if in_envelope (fst (pollSrc (angle w)))
            then csvRecord elapsedTime canData (fst (pollSrc (angle w)))
                           phase direction
            else [])
    /\ (in_envelope (fst (pollSrc (angle w))) = false ->
        serial1 w' = serial1 w)
    /\ (canData = lastValidData w'
        /\ ((forall f, hd_error (bus w) = Some (Some f) -> (len f < 6)%nat) ->
            lastValidData w' = lastValidData w))
    /\ (bus w' = tl (bus w))
    /\ (now w' = now w + tick \/ now w' = now w + tick + tick).
Proof.
  unfold streamCSVData, bind at 1, readPitch.
  destruct (pollSrc (angle w)) as [pitch s] eqn:Epoll. simpl fst. simpl snd.
  set (w1 := set_log (log w ++ [EvPoll]) (set_angle s w)).
  assert (Hcan : exists c wc,
             readCANData w1 = Ret c wc /\ c = lastValidData wc
             /\ angle wc = s /\ log wc = log w ++ [EvPoll]
             /\ pins wc = pins w /\ serial wc = serial w
             /\ serial1 wc = serial1 w /\ startTime wc = startTime w
             /\ ((forall f, hd_error (bus w) = Some (Some f) -> (len f < 6)%nat) ->
                 lastValidData wc = lastValidData w)
             /\ bus wc = tl (bus w)
             /\ (now wc = now w \/ now wc = now w + tick)).
  { destruct (bus w) as [ | [f | ] rest] eqn:Ebus.
    - exists (lastValidData w1), w1. rewrite readCANData_idle by exact Ebus.
      subst w1. simpl. rewrite Ebus. repeat split; auto.
    - destruct (Nat.leb_spec 6 (len f)) as [Hlong | Hshort].
      + eexists. eexists.
        rewrite (readCANData_frame w1 f rest) by (subst w1; simpl; assumption).
        subst w1. simpl. repeat split; auto.
        intro Hall. specialize (Hall f eq_refl). lia.
      + eexists. eexists.
        rewrite (readCANData_short w1 f rest) by (subst w1; simpl; assumption).
        subst w1. simpl. repeat split; auto.
    - eexists. eexists.
      rewrite (readCANData_nothing w1 rest) by (subst w1; simpl; assumption).
      subst w1. simpl. repeat split; auto. }
  destruct Hcan as (c & wc & Hrun & Hc & Hangle & Hlog & Hpins & Hser & Hser1
                    & Hstart & Hkeep & Hbus & Hnow).
  rewrite (bind_Ret _ _ _ _ _ Hrun).
  unfold bind, millis, get, print, println, print1, println1, put, ret.
  simpl.
  destruct (in_envelope pitch) eqn:Eenv.
  - destruct (u32 (u32 (now wc) - startTime wc) mod 1000 <? 10);
      eexists; exists (u32 (u32 (now wc) - startTime wc)), c;
      (split; [reflexivity | ]); simpl; rewrite Hser; unfold csvRecord;
      rewrite <- !app_assoc; simpl;
      (repeat split; auto; try discriminate; try lia).
  - eexists. exists 0, c. split; [reflexivity | ].
    simpl. rewrite Hser, app_nil_r.
    repeat split; auto; lia.
Qed.

Lemma records_app (out out' : list Tok) :
  records (out ++ out') = (records out + records out')%nat.
Proof.
  induction out as [ | t out IH]; [reflexivity | ].
  destruct t; simpl; rewrite IH; reflexivity.
Qed.

Lemma streamMany_records (n : nat) (phase direction : string) :
  forall w : World,
  exists (ps : list Q) (w' : World),
    streamMany n phase direction w = Ret ps w'
    /\ List.length ps = n
    /\ records (serial w') =
         (records (serial w) + List.length (filter in_envelope ps))%nat.
Proof.
  induction n as [ | n IH]; intro w.
  - exists [], w. simpl. repeat split; lia.
  - destruct (streamCSVData_spec phase direction w)
      as (w1 & e & c & Hrun & _ & _ & _ & Hser & _).
    destruct (IH w1) as (ps & w' & Hrest & Hlen & Hrec).
    exists (fst (pollSrc (angle w)) :: ps), w'.
    split; [ | split].
    + simpl streamMany. unfold bind at 1, get.
      rewrite (bind_Ret _ _ _ _ _ Hrun).
      rewrite (bind_Ret _ _ _ _ _ Hrest). reflexivity.
    + simpl. rewrite Hlen. reflexivity.
    + rewrite Hrec, Hser, records_app. simpl filter.
      destruct (in_envelope (fst (pollSrc (angle w)))); simpl; lia.
Qed.

(** C8.  A call of [streamCSVData] whose pitch sample is the no-sample value
    or lies outside [-25, 25] returns normally and writes nothing, on the
    primary sink or on the diagnostic one.  A call whose sample is in the
    envelope appends exactly one record to the primary sink.  So over [n]
    successive calls the records written are as many as the calls whose
    sample was valid and in the envelope. *)
Theorem stream_silent_on_invalid_sample :
  forall (phase direction : string) (w : World),
    let pitch := fst (pollSrc (angle w)) in
    ((pitch == NO_PITCH \/ pitch < -25 \/ 25 < pitch)%Q ->
     exists w', streamCSVData phase direction w = Ret tt w'
                /\ serial w' = serial w /\ serial1 w' = serial1 w) /\
    ((-25 <= pitch /\ pitch <= 25)%Q ->
     exists w' elapsedTime canData,
       streamCSVData phase direction w = Ret tt w'
       /\ serial w' =
            serial w ++ csvRecord elapsedTime canData pitch phase direction
       /\ records (serial w') = S (records (serial w))) /\
    (forall n : nat,
        exists (samples : list Q) (w' : World),
          streamMany n phase direction w = Ret samples w'
          /\ List.length samples = n
          /\ records (serial w') =
               (records (serial w)
                + List.length (filter in_envelope samples))%nat).
Proof.
  intros phase direction w pitch.
  destruct (streamCSVData_spec phase direction w)
    as (w' & e & c & Hrun & _ & _ & _ & Hser & Hser1 & _).
  fold pitch in Hser, Hser1.
  split; [ | split].
  - intro Hbad.
    assert (Henv : in_envelope pitch = false).
    { destruct (in_envelope pitch) eqn:E; [ | reflexivity].
      apply in_envelope_iff in E. destruct E as [Hlo Hhi]. exfalso.
      destruct Hbad as [Hno | [Hlt | Hgt]].
      - rewrite Hno in Hlo. revert Hlo. unfold NO_PITCH, Qle. simpl. lia.
      - exact (Qlt_not_le _ _ Hlt Hlo).
      - exact (Qlt_not_le _ _ Hgt Hhi). }
    exists w'. split; [exact Hrun | ]. rewrite Henv in Hser.
    rewrite app_nil_r in Hser. split; [exact Hser | exact (Hser1 Henv)].
  - intro Hok. apply in_envelope_iff in Hok. rewrite Hok in Hser.
    exists w', e, c. split; [exact Hrun | ]. split; [exact Hser | ].
    rewrite Hser, records_app. simpl. lia.
  - intro n. apply streamMany_records.
Qed.

(** C5.  A bus frame of payload length at least 6 maps its third
    big-endian word [v] (payload bytes 4 and 5) as follows: [0xFFFF],
    [0x8001] and [0x8002] give the labels Disabled, Open Circuit and Short
    Circuit with [externalSensorValid = false]; every other 16-bit value
    gives [externalSensorValid = true] and the value itself, in decimal, as
    the external temperature.  The poll returns that decode. *)
Theorem external_temperature_sentinels :
  forall (w : World) (f : CANFrame) (rest : list (option CANFrame)),
    bus w = Some f :: rest ->
    (6 <= len f)%nat ->
    let v := 256 * byteZ (rx f 4) + byteZ (rx f 5) in
    exists (d : CANData) (w' : World),
      readCANData w = Ret d w' /\ lastValidData w' = d /\
      0 <= v < 65536 /\
      (v = 65535 ->
       externalTemp d = "Disabled" /\ externalSensorValid d = false) /\
      (v = 32769 ->
       externalTemp d = "Open Circuit" /\ externalSensorValid d = false) /\
      (v = 32770 ->
       externalTemp d = "Short Circuit" /\ externalSensorValid d = false) /\
      (v <> 65535 -> v <> 32769 -> v <> 32770 ->
       externalSensorValid d = true /\
       externalTemp d = String_of v /\
       option_map (fun u => Z.of_N (N.of_uint u))
                  (NilEmpty.uint_of_string (externalTemp d)) = Some v).
Proof.
  intros w f rest Hbus Hlen v.
  pose proof (word_be_range f 4) as Hrange.
  pose proof (word_be_value f 4) as Hword. fold v in Hword.
  rewrite Hword in Hrange. clearbody v.
  eexists. eexists.
  split; [apply (readCANData_frame w f rest Hbus Hlen) | ].
  split; [reflexivity | ].
  split; [exact Hrange | ].
  unfold storeFrame. rewrite Hword.
  split; [intros ->; split; reflexivity | ].
  split; [intros ->; split; reflexivity | ].
  split; [intros ->; split; reflexivity | ].
  intros H1 H2 H3.
  destruct (Z.eqb_spec v 65535); [contradiction | ].
  destruct (Z.eqb_spec v 32769); [contradiction | ].
  destruct (Z.eqb_spec v 32770); [contradiction | ].
  split; [reflexivity | ]. split; [reflexivity | ].
  simpl externalTemp. apply String_of_value. lia.
Qed.

(** C6.  A poll that finds a frame of payload length below 6 leaves the
    cached data as it was.  A poll that finds a frame of length at least 6
    replaces the whole cache by one value that the frame alone determines,
    whatever the cache held before: its fuel level and internal temperature
    are the first two big-endian words of that frame. *)
Theorem cache_update_all_or_nothing :
  forall (f : CANFrame),
    ((len f < 6)%nat ->
     forall (w : World) (rest : list (option CANFrame)),
       bus w = Some f :: rest ->
       lastValidData (world_of (readCANData w)) = lastValidData w) /\
    ((6 <= len f)%nat ->
     exists d : CANData,
       fuelLevel d = String_of (256 * byteZ (rx f 0) + byteZ (rx f 1)) /\
       internalTemp d = String_of (256 * byteZ (rx f 2) + byteZ (rx f 3)) /\
       forall (w : World) (rest : list (option CANFrame)),
         bus w = Some f :: rest ->
         lastValidData (world_of (readCANData w)) = d).
Proof.
  intro f. split.
  - intros Hlen w rest Hbus.
    rewrite (readCANData_short w f rest Hbus Hlen). reflexivity.
  - intro Hlen. exists (storeFrame f noData). repeat split.
    + rewrite <- word_be_value. unfold storeFrame.
      destruct (word_be f 4 =? 65535); [reflexivity | ].
      destruct (word_be f 4 =? 32769); [reflexivity | ].
      destruct (word_be f 4 =? 32770); reflexivity.
    + rewrite <- word_be_value. unfold storeFrame.
      destruct (word_be f 4 =? 65535); [reflexivity | ].
      destruct (word_be f 4 =? 32769); [reflexivity | ].
      destruct (word_be f 4 =? 32770); reflexivity.
    + intros w rest Hbus.
      rewrite (readCANData_frame w f rest Hbus Hlen). simpl.
      apply storeFrame_forgets.
Qed.


(** ** Reasoning about computations *)

Lemma post_bind {A B} (m : M A) (k : A -> M B) (w : World)
      (Q : B -> World -> Prop) (S : World -> Prop) :
  post m w (fun a w1 => post (k a) w1 Q S) S -> post (bind m k) w Q S.
Proof.
  unfold post, bind. destruct (m w); auto.
Qed.

Lemma post_weaken {A} (m : M A) (w : World)
      (Q Q' : A -> World -> Prop) (S S' : World -> Prop) :
  post m w Q S ->
  (forall a w', Q a w' -> Q' a w') -> (forall w', S w' -> S' w') ->
  post m w Q' S'.
Proof.
  unfold post. destruct (m w); auto.
Qed.

Lemma post_world {A} (m : M A) (w : World) (P : World -> Prop) :
  post m w (fun _ w' => P w') P <-> P (world_of (m w)).
Proof.
  unfold post. destruct (m w); simpl; tauto.
Qed.

Lemma quiet_ret {A} (a : A) : quiet (ret a).
Proof. intro w. reflexivity. Qed.

Lemma quiet_spin {A} : quiet (@spin A).
Proof. intro w. reflexivity. Qed.

Lemma quiet_bind {A B} (m : M A) (k : A -> M B) :
  quiet m -> (forall a, quiet (k a)) -> quiet (bind m k).
Proof.
  intros Hm Hk w. unfold bind. specialize (Hm w).
  destruct (m w) as [a w1 | w1]; simpl in *.
  - rewrite Hk. exact Hm.
  - exact Hm.
Qed.

Lemma quiet_get {A} (f : World -> A) : quiet (get f).
Proof. intro w. reflexivity. Qed.

Lemma quiet_put (upd : World -> World) :
  (forall w, motor (upd w) = motor w) -> quiet (put upd).
Proof. intros H w. apply H. Qed.

Lemma quiet_if {A} (b : bool) (m1 m2 : M A) :
  quiet m1 -> quiet m2 -> quiet (if b then m1 else m2).
Proof. destruct b; auto. Qed.

Lemma commands_app (l l' : list Event) :
  commands (l ++ l') = commands l ++ commands l'.
Proof.
  induction l as [ | e l IH]; [reflexivity | ].
  destruct e; simpl; rewrite IH; reflexivity.
Qed.

Lemma polls_app (l l' : list Event) : polls (l ++ l') = (polls l + polls l')%nat.
Proof.
  induction l as [ | e l IH]; [reflexivity | ].
  destruct e; simpl; rewrite IH; reflexivity.
Qed.

Lemma quiet_millis : quiet millis.
Proof. intro w. reflexivity. Qed.

Lemma quiet_delay (ms : Z) : quiet (delay ms).
Proof.
  intro w. unfold motor. simpl. rewrite commands_app, app_nil_r. reflexivity.
Qed.

Lemma quiet_print (t : Tok) : quiet (print t).
Proof. intro w. reflexivity. Qed.

Lemma quiet_println (t : Tok) : quiet (println t).
Proof. intro w. reflexivity. Qed.

Lemma quiet_print1 (t : Tok) : quiet (print1 t).
Proof. intro w. reflexivity. Qed.

Lemma quiet_println1 (t : Tok) : quiet (println1 t).
Proof. intro w. reflexivity. Qed.

Lemma quiet_readPitch : quiet readPitch.
Proof.
  intro w. unfold readPitch. destruct (pollSrc (angle w)) as [p s].
  unfold motor. simpl. rewrite commands_app, app_nil_r. reflexivity.
Qed.

Lemma quiet_streamCSVData (phase direction : string) :
  quiet (streamCSVData phase direction).
Proof.
  intro w.
  destruct (streamCSVData_spec phase direction w)
    as (w' & _ & _ & Hrun & _ & Hlog & Hpins & _).
  rewrite Hrun. unfold motor. simpl.
  rewrite Hlog, Hpins, commands_app, app_nil_r. reflexivity.
Qed.

Create HintDb quiet.
#[local] Hint Resolve quiet_ret quiet_spin quiet_get quiet_millis quiet_delay
  quiet_print quiet_println quiet_print1 quiet_println1 quiet_readPitch
  quiet_streamCSVData : quiet.
#[local] Hint Extern 1 (quiet (put _)) =>
  apply quiet_put; intro; reflexivity : quiet.

Ltac quiet_steps :=
  repeat first
    [ solve [ auto with quiet ]
    | apply quiet_if
    | apply quiet_bind; [ | intro ] ].

Lemma quiet_sampleUntil (fuel : nat) :
  forall deadline lastDataTime phase direction,
    quiet (sampleUntil fuel deadline lastDataTime phase direction).
Proof.
  induction fuel as [ | fuel IH]; intros; simpl; quiet_steps.
Qed.

Lemma quiet_sampleFor (fuel : nat) (ms : Z) (phase direction : string) :
  quiet (sampleFor fuel ms phase direction).
Proof.
  unfold sampleFor. quiet_steps. apply quiet_sampleUntil.
Qed.

Lemma quiet_acquirePitch (left : nat) :
  forall pitch, quiet (acquirePitch left pitch).
Proof.
  induction left as [ | left IH]; intro pitch; simpl; quiet_steps.
Qed.

Lemma quiet_getValidPitch : quiet getValidPitch.
Proof. apply quiet_acquirePitch. Qed.

Lemma quiet_finalSamples (n : nat) :
  forall lastDataTime, quiet (finalSamples n lastDataTime).
Proof.
  induction n as [ | n IH]; intro l; simpl; quiet_steps.
Qed.

Lemma quiet_warnIfBusSilent : quiet warnIfBusSilent.
Proof. unfold warnIfBusSilent. quiet_steps. Qed.

#[local] Hint Resolve quiet_sampleUntil quiet_sampleFor quiet_acquirePitch
  quiet_getValidPitch quiet_finalSamples quiet_warnIfBusSilent : quiet.

(** ** Actuator driver and the command trace *)

Lemma last_snoc (cs : list MotorCmd) (c : MotorCmd) :
  last (map Some (cs ++ [c])) None = Some c.
Proof.
  rewrite map_app. simpl. apply last_last.
Qed.

Lemma stopSeparated_snoc (cs : list MotorCmd) (c : MotorCmd) :
  stopSeparated cs = true ->
  (isDrive c = false \/ last (map Some cs) None = Some CmdStop \/ cs = []) ->
  stopSeparated (cs ++ [c]) = true.
Proof.
  induction cs as [ | c0 cs IH]; intros Hsep Hc; [reflexivity | ].
  destruct cs as [ | c1 cs].
  - simpl. rewrite andb_true_r.
    destruct Hc as [Hc | [Hc | Hc]]; [ | | discriminate].
    + rewrite Hc, andb_false_r. reflexivity.
    + simpl in Hc. injection Hc as ->. reflexivity.
  - change (stopSeparated ((c0 :: c1 :: cs) ++ [c]))
      with (negb (isDrive c0 && isDrive c1)
            && stopSeparated ((c1 :: cs) ++ [c])).
    change (stopSeparated (c0 :: c1 :: cs))
      with (negb (isDrive c0 && isDrive c1) && stopSeparated (c1 :: cs))
      in Hsep.
    apply andb_true_iff in Hsep. destruct Hsep as [H01 Hsep].
    rewrite H01. simpl andb. apply IH; [exact Hsep | ].
    destruct Hc as [Hc | [Hc | Hc]]; [left; exact Hc | right; left | discriminate].
    exact Hc.
Qed.

Lemma parked_safe (mv : list MotorCmd * Pins) : parked mv -> safe mv.
Proof.
  intros (Hsep & Hlast & Hpins). split; [exact Hsep | ].
  exists CmdStop. split; assumption.
Qed.

Lemma stopMotor_run (w : World) :
  exists w', stopMotor w = Ret tt w'
             /\ log w' = log w ++ [EvMotor CmdStop]
             /\ pins w' = mkPins LOW LOW 0
             /\ angle w' = angle w /\ now w' = now w /\ bus w' = bus w
             /\ serial w' = serial w.
Proof.
  eexists. split; [reflexivity | ]. simpl. repeat split; reflexivity.
Qed.

Lemma moveMotorForward_run (w : World) :
  exists w', moveMotorForward w = Ret tt w'
             /\ log w' = log w ++ [EvMotor CmdForward]
             /\ pins w' = mkPins HIGH LOW 255
             /\ angle w' = angle w /\ now w' = now w /\ bus w' = bus w
             /\ serial w' = serial w.
Proof.
  eexists. split; [reflexivity | ]. simpl. repeat split; reflexivity.
Qed.

Lemma moveMotorBackward_run (w : World) :
  exists w', moveMotorBackward w = Ret tt w'
             /\ log w' = log w ++ [EvMotor CmdBackward]
             /\ pins w' = mkPins LOW HIGH 255
             /\ angle w' = angle w /\ now w' = now w /\ bus w' = bus w
             /\ serial w' = serial w.
Proof.
  eexists. split; [reflexivity | ]. simpl. repeat split; reflexivity.
Qed.

Lemma post_stopMotor (w : World) (Q : unit -> World -> Prop)
      (S : World -> Prop) :
  stopSeparated (commands (log w)) = true ->
  (forall w', parked (motor w') -> Q tt w') ->
  post stopMotor w Q S.
Proof.
  intros Hsep HQ. unfold post.
  destruct (stopMotor_run w) as (w' & -> & Hlog & Hpins & _).
  apply HQ. unfold parked, motor. simpl.
  rewrite Hlog, Hpins, commands_app. simpl commands.
  split; [apply stopSeparated_snoc; [exact Hsep | left; reflexivity] | ].
  split; [apply last_snoc | reflexivity].
Qed.

Lemma post_moveMotorForward (w : World) (Q : unit -> World -> Prop)
      (S : World -> Prop) :
  parked (motor w) ->
  (forall w', safe (motor w') -> Q tt w') ->
  post moveMotorForward w Q S.
Proof.
  intros (Hsep & Hlast & _) HQ. unfold post.
  destruct (moveMotorForward_run w) as (w' & -> & Hlog & Hpins & _).
  apply HQ. unfold safe, motor in *. simpl in *.
  rewrite Hlog, Hpins, commands_app. simpl commands.
  split; [apply stopSeparated_snoc; [exact Hsep | right; left; exact Hlast] | ].
  exists CmdForward. split; [apply last_snoc | reflexivity].
Qed.

Lemma post_moveMotorBackward (w : World) (Q : unit -> World -> Prop)
      (S : World -> Prop) :
  parked (motor w) ->
  (forall w', safe (motor w') -> Q tt w') ->
  post moveMotorBackward w Q S.
Proof.
  intros (Hsep & Hlast & _) HQ. unfold post.
  destruct (moveMotorBackward_run w) as (w' & -> & Hlog & Hpins & _).
  apply HQ. unfold safe, motor in *. simpl in *.
  rewrite Hlog, Hpins, commands_app. simpl commands.
  split; [apply stopSeparated_snoc; [exact Hsep | right; left; exact Hlast] | ].
  exists CmdBackward. split; [apply last_snoc | reflexivity].
Qed.

Lemma post_quiet {A} (m : M A) (w : World) (P : list MotorCmd * Pins -> Prop)
      (Q : A -> World -> Prop) (S : World -> Prop) :
  quiet m -> P (motor w) ->
  (forall a w', P (motor w') -> Q a w') ->
  (forall w', P (motor w') -> S w') ->
  post m w Q S.
Proof.
  intros Hq HP HQ HS. unfold post. specialize (Hq w).
  destruct (m w) as [a w' | w']; simpl in Hq; rewrite <- Hq in HP; auto.
Qed.

Lemma post_ret {A} (a : A) (w : World) (Q : A -> World -> Prop)
      (S : World -> Prop) :
  Q a w -> post (ret a) w Q S.
Proof. intro H. exact H. Qed.

Lemma post_spin {A} (w : World) (Q : A -> World -> Prop) (S : World -> Prop) :
  S w -> post (@spin A) w Q S.
Proof. intro H. exact H. Qed.

(** One step of a proof that the actuator stays safe. *)
Ltac safe_step :=
  lazymatch goal with
  | |- post (bind _ _) _ _ _ => apply post_bind
  | |- post (ret _) _ _ _ => apply post_ret
  | |- post spin _ _ _ => apply post_spin
  | |- post (if ?b then _ else _) _ _ _ => destruct b
  | |- post stopMotor ?w _ _ =>
      apply post_stopMotor;
      [ first [ match goal with H : safe (motor w) |- _ => exact (proj1 H) end
              | match goal with H : parked (motor w) |- _ => exact (proj1 H) end ]
      | intros ]
  | |- post moveMotorForward ?w _ _ =>
      apply post_moveMotorForward; [ assumption | intros ]
  | |- post moveMotorBackward ?w _ _ =>
      apply post_moveMotorBackward; [ assumption | intros ]
  | H : parked (motor ?w) |- post ?m ?w _ _ =>
      apply (post_quiet m w parked);
      [ solve [ auto with quiet ] | exact H | intros | intros ]
  | H : safe (motor ?w) |- post ?m ?w _ _ =>
      apply (post_quiet m w safe);
      [ solve [ auto with quiet ] | exact H | intros | intros ]
  | H : parked (motor ?w) |- parked (motor ?w) => exact H
  | H : safe (motor ?w) |- safe (motor ?w) => exact H
  | H : parked (motor ?w) |- safe (motor ?w) => exact (parked_safe _ H)
  end.

Lemma zeroLoop_keepsParked (fuel : nat) :
  forall pitch, keepsParked (zeroLoop fuel pitch).
Proof.
  induction fuel as [ | fuel IH]; intros pitch w Hw; simpl.
  - repeat safe_step.
  - destruct (Qltb 0.1 (Qabs pitch)); [ | repeat safe_step].
    repeat safe_step.
    all: try (apply IH; assumption).
Qed.

Ltac loop_keepsParked IH :=
  repeat safe_step; try (apply IH; assumption).

Lemma returnLoop_keepsParked (spins fuel : nat) :
  forall pitch, keepsParked (returnLoop spins fuel pitch).
Proof.
  induction fuel as [ | fuel IH]; intros pitch w Hw; simpl;
    (destruct (Qltb 0.1 (Qabs pitch)); loop_keepsParked IH).
Qed.

Lemma posFiveLoop_keepsParked (spins fuel : nat) :
  forall pitch, keepsParked (posFiveLoop spins fuel pitch).
Proof.
  induction fuel as [ | fuel IH]; intros pitch w Hw; simpl;
    (destruct (Qltb pitch 4.9 || Qltb 5.1 pitch); loop_keepsParked IH).
Qed.

Lemma posTenLoop_keepsParked (spins fuel : nat) :
  forall pitch, keepsParked (posTenLoop spins fuel pitch).
Proof.
  induction fuel as [ | fuel IH]; intros pitch w Hw; simpl;
    (destruct (Qltb pitch 9.9 || Qltb 10.1 pitch); loop_keepsParked IH).
Qed.

Lemma negFiveLoop_keepsParked (spins fuel : nat) :
  forall pitch, keepsParked (negFiveLoop spins fuel pitch).
Proof.
  induction fuel as [ | fuel IH]; intros pitch w Hw; simpl;
    (destruct (Qltb pitch (-5.1) || Qltb (-4.9) pitch); loop_keepsParked IH).
Qed.

Lemma negTenLoop_keepsParked (spins fuel : nat) :
  forall pitch, keepsParked (negTenLoop spins fuel pitch).
Proof.
  induction fuel as [ | fuel IH]; intros pitch w Hw; simpl;
    (destruct (Qltb pitch (-10.1) || Qltb (-9.9) pitch); loop_keepsParked IH).
Qed.

Lemma post_keepsParked {A} (m : M A) (w : World) (Q : A -> World -> Prop)
      (S : World -> Prop) :
  keepsParked m -> parked (motor w) ->
  (forall a w', parked (motor w') -> Q a w') ->
  (forall w', safe (motor w') -> S w') ->
  post m w Q S.
Proof.
  intros Hm Hw HQ HS. apply (post_weaken _ _ _ _ _ _ (Hm w Hw)); auto.
Qed.

(** One step through a computation known to keep the actuator parked. *)
Ltac parked_call lem :=
  lazymatch goal with
  | H : parked (motor ?w) |- post _ ?w _ _ =>
      apply post_keepsParked; [ apply lem | exact H | intros | intros ]
  end.

Lemma adjustToZeroPitch_keepsParked (fuel : nat) :
  keepsParked (adjustToZeroPitch fuel).
Proof.
  intros w Hw. unfold adjustToZeroPitch.
  repeat safe_step.
  parked_call zeroLoop_keepsParked; repeat safe_step.
Qed.

Lemma returnToZeroPitch_keepsParked (fuel : nat) :
  keepsParked (returnToZeroPitch fuel).
Proof.
  intros w Hw. unfold returnToZeroPitch.
  repeat safe_step.
  parked_call returnLoop_keepsParked; repeat safe_step.
Qed.

Lemma adjustToPosFivePitch_keepsParked (fuel : nat) :
  keepsParked (adjustToPosFivePitch fuel).
Proof.
  intros w Hw. unfold adjustToPosFivePitch.
  repeat safe_step.
  parked_call posFiveLoop_keepsParked; repeat safe_step.
Qed.

Lemma adjustToPosTenPitch_keepsParked (fuel : nat) :
  keepsParked (adjustToPosTenPitch fuel).
Proof.
  intros w Hw. unfold adjustToPosTenPitch.
  repeat safe_step.
  parked_call posTenLoop_keepsParked; repeat safe_step.
Qed.

Lemma adjustToNegFivePitch_keepsParked (fuel : nat) :
  keepsParked (adjustToNegFivePitch fuel).
Proof.
  intros w Hw. unfold adjustToNegFivePitch.
  repeat safe_step.
  parked_call negFiveLoop_keepsParked; repeat safe_step.
Qed.

Lemma adjustToNegTenPitch_keepsParked (fuel : nat) :
  keepsParked (adjustToNegTenPitch fuel).
Proof.
  intros w Hw. unfold adjustToNegTenPitch.
  repeat safe_step.
  parked_call negTenLoop_keepsParked; repeat safe_step.
Qed.

(** ** Test sequencer *)

Lemma post_put (upd : World -> World) (w : World)
      (Q : unit -> World -> Prop) (S : World -> Prop) :
  Q tt (upd w) -> post (put upd) w Q S.
Proof. intro H. exact H. Qed.

Lemma setup_parks (fuel : nat) (w : World) :
  stopSeparated (commands (log w)) = true ->
  post (setup fuel) w (fun _ w' => parked (motor w'))
       (fun w' => safe (motor w')).
Proof.
  intro Hsep. unfold setup. apply post_bind. apply post_put.
  apply post_bind. apply post_stopMotor; [exact Hsep | ].
  intros w2 H2. repeat safe_step.
  parked_call adjustToZeroPitch_keepsParked; repeat safe_step.
Qed.

Lemma loop_keepsParked (fuel : nat) : keepsParked (loop fuel).
Proof.
  intros w Hw. unfold loop. do 2 safe_step; [ | safe_step].
  destruct a.
  - do 2 safe_step; [ | safe_step].
    destruct a as [ | command rest]; repeat safe_step.
    all: try (apply post_weaken with (Q := fun _ w' => parked (motor w'))
                                     (S := fun w' => safe (motor w'));
              [ apply setup_parks | auto | auto ];
              match goal with H : parked _ |- _ => exact (proj1 H) end).
  - repeat safe_step.
    all: parked_call adjustToPosFivePitch_keepsParked; repeat safe_step.
    all: parked_call adjustToNegFivePitch_keepsParked; repeat safe_step.
    all: parked_call adjustToPosTenPitch_keepsParked; repeat safe_step.
    all: parked_call adjustToNegTenPitch_keepsParked; repeat safe_step.
    all: parked_call returnToZeroPitch_keepsParked; repeat safe_step.
Qed.

Lemma loops_keepsParked (n fuel : nat) : keepsParked (loops n fuel).
Proof.
  induction n as [ | n IH]; intros w Hw; simpl.
  - safe_step. exact Hw.
  - safe_step. parked_call loop_keepsParked; [ | safe_step].
    apply IH. assumption.
Qed.

Lemma firmware_safe (n fuel : nat) (w : World) :
  stopSeparated (commands (log w)) = true ->
  safe (motor (world_of (firmware n fuel w))).
Proof.
  intro Hsep.
  apply (post_world (firmware n fuel) w (fun w' => safe (motor w'))).
  unfold firmware. apply post_bind.
  apply post_weaken with (Q := fun _ w' => parked (motor w'))
                         (S := fun w' => safe (motor w'));
    [ apply setup_parks; exact Hsep | | auto ].
  intros _ w1 H1.
  apply post_weaken with (Q := fun _ w' => parked (motor w'))
                         (S := fun w' => safe (motor w'));
    [ apply loops_keepsParked; exact H1 | | auto ].
  intros _ w2 H2. apply parked_safe. exact H2.
Qed.

Lemma stopSeparated_prefix (pre suf : list MotorCmd) :
  stopSeparated (pre ++ suf) = true -> stopSeparated pre = true.
Proof.
  induction pre as [ | c pre IH]; intro H; [reflexivity | ].
  destruct pre as [ | c' pre]; [reflexivity | ].
  change (negb (isDrive c && isDrive c') && stopSeparated ((c' :: pre) ++ suf)
          = true) in H.
  apply andb_true_iff in H. destruct H as [H1 H2].
  change (negb (isDrive c && isDrive c') && stopSeparated (c' :: pre) = true).
  rewrite H1. simpl. apply IH. exact H2.
Qed.

(** C9.  Run the firmware from a world with an empty trace, for any number
    of passes of [loop] and any loop budgets, and stop wherever the budget
    cuts it off.  The motor commands given so far are stop-separated: no
    drive command directly follows another drive command, in the whole
    history and so in every prefix of it.  The pins show one of the three
    patterns forward, backward, stopped, namely the one the last command
    set. *)
Theorem actuator_commands_stop_separated :
  forall (n fuel : nat) (w0 : World),
    log w0 = [] ->
    let w := world_of (firmware n fuel w0) in
    (forall pre suf, commands (log w) = pre ++ suf ->
                     stopSeparated pre = true) /\
    (forall pre c c' suf, commands (log w) = pre ++ c :: c' :: suf ->
                          isDrive c = true -> c' = CmdStop) /\
    exists c, lastCommand (log w) = Some c /\
              actuator (pins w) = Some (stateAfter c) /\
              (actuator (pins w) = Some Forward \/
               actuator (pins w) = Some Backward \/
               actuator (pins w) = Some Stopped).
Proof.
  intros n fuel w0 Hlog w.
  assert (Hsafe : safe (motor w)).
  { apply firmware_safe. rewrite Hlog. reflexivity. }
  destruct Hsafe as (Hsep & c & Hlast & Hpins). unfold motor in *.
  simpl in Hsep, Hlast, Hpins.
  split; [ | split].
  - intros pre suf E. rewrite E in Hsep.
    exact (stopSeparated_prefix _ _ Hsep).
  - intros pre c1 c2 suf E Hdrive. rewrite E in Hsep.
    replace (pre ++ c1 :: c2 :: suf) with ((pre ++ [c1; c2]) ++ suf) in Hsep
      by (rewrite <- app_assoc; reflexivity).
    apply stopSeparated_prefix in Hsep.
    clear E. induction pre as [ | c0 pre IH].
    + simpl in Hsep. rewrite Hdrive in Hsep.
      destruct c2; simpl in Hsep; try discriminate. reflexivity.
    + apply IH. destruct pre; simpl in Hsep |- *;
        apply andb_true_iff in Hsep; tauto.
  - exists c. split; [exact Hlast | ]. split; [exact Hpins | ].
    rewrite Hpins. destruct c; simpl; auto.
Qed.
(** No frame of payload length 6 or more among the given poll results. *)
Lemma pollBus_before_first_frame (n : nat) :
  forall w : World,
    lastValidData w = noData ->
    Forall shortOrNone (firstn n (bus w)) ->
    exists w', pollBus n w = Ret (repeat noData n) w'
               /\ lastValidData w' = noData.
Proof.
  induction n as [ | n IH]; intros w Hinit Hshort.
  - exists w. split; [reflexivity | assumption].
  - simpl pollBus.
    destruct (bus w) as [ | [f | ] rest] eqn:Ebus.
    + rewrite (bind_Ret _ _ _ _ _ (readCANData_idle w Ebus)).
      destruct (IH w Hinit) as (w' & Hrun & Hkeep).
      { rewrite Ebus. destruct n; constructor. }
      exists w'. rewrite (bind_Ret _ _ _ _ _ Hrun). rewrite Hinit.
      split; [reflexivity | assumption].
    + simpl in Hshort. inversion Hshort as [ | ? ? Hf Hrest]; subst.
      rewrite (bind_Ret _ _ _ _ _ (readCANData_short w f rest Ebus Hf)).
      edestruct IH as (w' & Hrun & Hkeep);
        [ | | exists w'; rewrite (bind_Ret _ _ _ _ _ Hrun); rewrite Hinit;
              split; [reflexivity | exact Hkeep]].
      * simpl. assumption.
      * simpl. assumption.
    + simpl in Hshort. inversion Hshort as [ | ? ? Hf Hrest]; subst.
      rewrite (bind_Ret _ _ _ _ _ (readCANData_nothing w rest Ebus)).
      edestruct IH as (w' & Hrun & Hkeep);
        [ | | exists w'; rewrite (bind_Ret _ _ _ _ _ Hrun); rewrite Hinit;
              split; [reflexivity | exact Hkeep]].
      * simpl. assumption.
      * simpl. assumption.
Qed.


(** ** The cache before the first frame *)

Lemma staysCold_ret {A} (a : A) : staysCold (ret a).
Proof. intros w H. exact H. Qed.

Lemma staysCold_spin {A} : staysCold (@spin A).
Proof. intros w H. exact H. Qed.

Lemma staysCold_bind {A B} (m : M A) (k : A -> M B) :
  staysCold m -> (forall a, staysCold (k a)) -> staysCold (bind m k).
Proof.
  intros Hm Hk w Hw. unfold bind. specialize (Hm w Hw).
  destruct (m w) as [a w1 | w1]; simpl in *; [apply Hk | ]; exact Hm.
Qed.

Lemma staysCold_if {A} (b : bool) (m1 m2 : M A) :
  staysCold m1 -> staysCold m2 -> staysCold (if b then m1 else m2).
Proof. destruct b; auto. Qed.

Lemma staysCold_get {A} (f : World -> A) : staysCold (get f).
Proof. intros w H. exact H. Qed.

Lemma staysCold_put (upd : World -> World) :
  (forall w, cold w -> cold (upd w)) -> staysCold (put upd).
Proof. intros H w Hw. apply H. exact Hw. Qed.

Lemma staysCold_millis : staysCold millis.
Proof. intros w H. exact H. Qed.

Lemma staysCold_delay (ms : Z) : staysCold (delay ms).
Proof. intros w H. exact H. Qed.

Lemma staysCold_print1 (t : Tok) : staysCold (print1 t).
Proof. intros w H. exact H. Qed.

Lemma staysCold_println1 (t : Tok) : staysCold (println1 t).
Proof. intros w H. exact H. Qed.

Lemma staysCold_header (s : string) : staysCold (println (text s)).
Proof.
  intros w (Hdata & Hbus & Hout). repeat split; try assumption.
  simpl. apply po_header. exact Hout.
Qed.

Lemma staysCold_readPitch : staysCold readPitch.
Proof.
  intros w H. unfold readPitch. destruct (pollSrc (angle w)). exact H.
Qed.

Lemma staysCold_moveMotorForward : staysCold moveMotorForward.
Proof. intros w H. exact H. Qed.

Lemma staysCold_moveMotorBackward : staysCold moveMotorBackward.
Proof. intros w H. exact H. Qed.

Lemma staysCold_stopMotor : staysCold stopMotor.
Proof. intros w H. exact H. Qed.

Lemma staysCold_streamCSVData (phase direction : string) :
  staysCold (streamCSVData phase direction).
Proof.
  intros w (Hdata & Hbus & Hout).
  destruct (streamCSVData_spec phase direction w)
    as (w' & e & c & Hrun & _ & _ & _ & Hser & _ & (Hc & Hkeep) & Hbus' & _).
  rewrite Hrun. simpl world_of.
  assert (Hdata' : lastValidData w' = noData).
  { rewrite Hkeep; [exact Hdata | ].
    intros f Hf. destruct (bus w) as [ | m rest]; [discriminate | ].
    simpl in Hf. injection Hf as ->. inversion Hbus; assumption. }
  split; [exact Hdata' | ]. split.
  - rewrite Hbus'. destruct (bus w); [constructor | ].
    inversion Hbus; assumption.
  - rewrite Hser. destruct (in_envelope _).
    + rewrite Hc, Hdata'. apply po_record. exact Hout.
    + rewrite app_nil_r. exact Hout.
Qed.

Create HintDb cold.
#[local] Hint Resolve staysCold_ret staysCold_spin staysCold_get
  staysCold_millis staysCold_delay staysCold_print1 staysCold_println1
  staysCold_header staysCold_readPitch staysCold_streamCSVData : cold.
#[local] Hint Resolve staysCold_moveMotorForward staysCold_moveMotorBackward
  staysCold_stopMotor : cold.
#[local] Hint Extern 1 (staysCold (put _)) =>
  apply staysCold_put; intros ? H; exact H : cold.

Ltac cold_steps :=
  repeat first
    [ solve [ auto with cold ]
    | apply staysCold_if
    | apply staysCold_bind; [ | intro ]
    | match goal with
      | |- staysCold (match ?x with _ => _ end) => destruct x
      end ].

Lemma staysCold_sampleUntil (fuel : nat) :
  forall deadline lastDataTime phase direction,
    staysCold (sampleUntil fuel deadline lastDataTime phase direction).
Proof. induction fuel as [ | fuel IH]; intros; simpl; cold_steps. Qed.

Lemma staysCold_sampleFor (fuel : nat) (ms : Z) (phase direction : string) :
  staysCold (sampleFor fuel ms phase direction).
Proof. unfold sampleFor. cold_steps. apply staysCold_sampleUntil. Qed.

Lemma staysCold_acquirePitch (left : nat) :
  forall pitch, staysCold (acquirePitch left pitch).
Proof. induction left as [ | left IH]; intro pitch; simpl; cold_steps. Qed.

Lemma staysCold_getValidPitch : staysCold getValidPitch.
Proof. apply staysCold_acquirePitch. Qed.

Lemma staysCold_finalSamples (n : nat) :
  forall lastDataTime, staysCold (finalSamples n lastDataTime).
Proof. induction n as [ | n IH]; intro l; simpl; cold_steps. Qed.

Lemma staysCold_warnIfBusSilent : staysCold warnIfBusSilent.
Proof. unfold warnIfBusSilent. cold_steps. Qed.

#[local] Hint Resolve staysCold_sampleUntil staysCold_sampleFor
  staysCold_acquirePitch staysCold_getValidPitch staysCold_finalSamples
  staysCold_warnIfBusSilent : cold.

Lemma staysCold_zeroLoop (fuel : nat) :
  forall pitch, staysCold (zeroLoop fuel pitch).
Proof. induction fuel as [ | fuel IH]; intro pitch; simpl; cold_steps. Qed.

Lemma staysCold_returnLoop (spins fuel : nat) :
  forall pitch, staysCold (returnLoop spins fuel pitch).
Proof. induction fuel as [ | fuel IH]; intro pitch; simpl; cold_steps. Qed.

Lemma staysCold_posFiveLoop (spins fuel : nat) :
  forall pitch, staysCold (posFiveLoop spins fuel pitch).
Proof. induction fuel as [ | fuel IH]; intro pitch; simpl; cold_steps. Qed.

Lemma staysCold_posTenLoop (spins fuel : nat) :
  forall pitch, staysCold (posTenLoop spins fuel pitch).
Proof. induction fuel as [ | fuel IH]; intro pitch; simpl; cold_steps. Qed.

Lemma staysCold_negFiveLoop (spins fuel : nat) :
  forall pitch, staysCold (negFiveLoop spins fuel pitch).
Proof. induction fuel as [ | fuel IH]; intro pitch; simpl; cold_steps. Qed.

Lemma staysCold_negTenLoop (spins fuel : nat) :
  forall pitch, staysCold (negTenLoop spins fuel pitch).
Proof. induction fuel as [ | fuel IH]; intro pitch; simpl; cold_steps. Qed.

#[local] Hint Resolve staysCold_zeroLoop staysCold_returnLoop
  staysCold_posFiveLoop staysCold_posTenLoop staysCold_negFiveLoop
  staysCold_negTenLoop : cold.

Lemma staysCold_run (r : Routine) (fuel : nat) : staysCold (run r fuel).
Proof.
  destruct r; cbn [run];
    unfold adjustToZeroPitch, returnToZeroPitch, adjustToPosFivePitch,
      adjustToPosTenPitch, adjustToNegFivePitch, adjustToNegTenPitch;
    cold_steps.
Qed.

Lemma staysCold_setup (fuel : nat) : staysCold (setup fuel).
Proof.
  unfold setup. cold_steps.
Qed.

Lemma staysCold_loop (fuel : nat) : staysCold (loop fuel).
Proof.
  pose proof (staysCold_setup fuel).
  pose proof (fun r => staysCold_run r fuel) as Hrun.
  pose proof (Hrun PosFive). pose proof (Hrun NegFive).
  pose proof (Hrun PosTen). pose proof (Hrun NegTen).
  pose proof (Hrun ZeroAtEnd). cbn [run] in *.
  unfold loop. cold_steps.
Qed.

Lemma staysCold_firmware (n fuel : nat) : staysCold (firmware n fuel).
Proof.
  unfold firmware. apply staysCold_bind; [apply staysCold_setup | intros _].
  induction n as [ | n IH]; simpl; [apply staysCold_ret | ].
  apply staysCold_bind; [apply staysCold_loop | intros _; exact IH].
Qed.

(** C10.  While no frame of payload length 6 or more has been found on
    the bus, every poll of the bus telemetry reader returns the placeholder
    of power-on: fuel level, internal temperature and external temperature
    all "No Data", external sensor not valid; and a record written then
    carries "No Data" in its fuel and temperature columns.  This holds for
    successive polls, for a call of [streamCSVData], and for a whole run of
    the firmware on a bus that never delivers such a frame. *)
Theorem no_data_before_first_frame :
  forall (n : nat) (w : World),
    lastValidData w = noData ->
    Forall shortOrNone (firstn (S n) (bus w)) ->
    (exists w', pollBus (S n) w =
                  Ret (repeat (mkCANData "No Data" "No Data" "No Data" false)
                              (S n)) w') /\
    (forall phase direction,
        in_envelope (fst (pollSrc (angle w))) = true ->
        exists elapsedTime,
          serial (world_of (streamCSVData phase direction w)) =
            serial w ++
              [TNum elapsedTime; TStr ","; TStr "No Data"; TStr ",";
               TStr "No Data"; TStr ","; TStr "No Data"; TStr ",";
               TFloat (fst (pollSrc (angle w))) 2; TStr ",";
               TStr phase; TStr ","; TStr direction; TLn]) /\
    (forall passes fuel,
        Forall shortOrNone (bus w) -> serial w = [] ->
        lastValidData (world_of (firmware passes fuel w)) = noData /\
        placeholderOnly (serial (world_of (firmware passes fuel w)))).
Proof.
  intros n w Hinit Hshort. split; [ | split].
  - destruct (pollBus_before_first_frame (S n) w Hinit Hshort)
      as (w' & Hrun & _).
    exists w'. exact Hrun.
  - intros phase direction Henv.
    destruct (streamCSVData_spec phase direction w)
      as (w' & e & c & Hrun & _ & _ & _ & Hser & _ & (Hc & Hkeep) & _).
    exists e. rewrite Hrun. simpl world_of. rewrite Hser, Henv.
    assert (Hc' : c = noData).
    { rewrite Hc, Hkeep; [exact Hinit | ].
      intros f Hf. destruct (bus w) as [ | m rest]; [discriminate | ].
      simpl in Hf. injection Hf as ->.
      simpl in Hshort. inversion Hshort; assumption. }
    rewrite Hc'. reflexivity.
  - intros passes fuel Hbus Hout.
    destruct (staysCold_firmware passes fuel w) as (Hdata & _ & Hser).
    + split; [exact Hinit | ]. split; [exact Hbus | ].
      rewrite Hout. constructor.
    + split; assumption.
Qed.

(** ** Pitch controller: acquisition *)

(** A routine whose first acquisition ends on a rejected pitch reports
    [InitialReadFailed] and does nothing but print the diagnostic. *)
Lemma routine_aborts (r : Routine) :
  forall (fuel : nat) (w w1 : World) (pitch : Q),
    getValidPitch w = Ret pitch w1 -> rejected pitch = true ->
    exists w', run r fuel w = Ret InitialReadFailed w'
               /\ log w' = log w1 /\ pins w' = pins w1
               /\ angle w' = angle w1 /\ now w' = now w1
               /\ serial w' = serial w1.
Proof.
  intros fuel w w1 pitch Hget Hrej. destruct r; cbn [run];
    unfold adjustToZeroPitch, returnToZeroPitch, adjustToPosFivePitch,
      adjustToPosTenPitch, adjustToNegFivePitch, adjustToNegTenPitch;
    rewrite (bind_Ret _ _ _ _ _ Hget), Hrej;
    eexists; (split; [reflexivity | ]); simpl; repeat split; reflexivity.
Qed.

Lemma attempts_polls (n : nat) : polls (attempts n) = n.
Proof. induction n as [ | n IH]; simpl; [ | rewrite IH]; reflexivity. Qed.

Lemma attempts_commands (n : nat) : commands (attempts n) = [].
Proof. induction n as [ | n IH]; simpl; [ | rewrite IH]; reflexivity. Qed.

(** Against a source that never yields an acceptable sample the
    acquisition loop uses up its attempts: a poll and a 10 ms delay each. *)
Lemma acquirePitch_exhausts :
  (forall s, rejected (fst (pollSrc s)) = true) ->
  forall (left : nat) (pitch : Q) (w : World),
    rejected pitch = true ->
    exists pitch' w',
      acquirePitch left pitch w = Ret pitch' w'
      /\ rejected pitch' = true
      /\ log w' = log w ++ attempts left
      /\ pins w' = pins w
      /\ now w' = now w + 10 * Z.of_nat left
      /\ serial w' = serial w.
Proof.
  intros Hdead left. induction left as [ | left IH]; intros pitch w Hrej.
  - exists pitch, w. simpl. rewrite app_nil_r.
    repeat split; auto; lia.
  - simpl acquirePitch. rewrite Hrej.
    unfold bind at 1, readPitch.
    pose proof (Hdead (angle w)) as Hp.
    destruct (pollSrc (angle w)) as [p s]. simpl in Hp. rewrite Hp.
    unfold bind at 1. cbv beta iota delta [bind delay put trace].
    match goal with
    | |- context [acquirePitch left p ?w1] =>
        destruct (IH p w1 Hp) as (p' & w' & Hrun & Hrej' & Hlog & Hpins & Hnow & Hser)
    end.
    exists p', w'. rewrite Hrun. split; [reflexivity | ].
    split; [exact Hrej' | ].
    rewrite Hlog, Hpins, Hnow, Hser.
    cbn [log pins now serial set_log set_now set_angle].
    rewrite Nat2Z.inj_succ, <- !app_assoc.
    repeat split; auto; lia.
Qed.

(** C2.  Against an angle source that never yields a valid in-envelope
    sample, each of the six pitch routines polls the angle reader exactly
    1000 times, each poll followed by [delay(10)], and then reports
    [InitialReadFailed].  It gives no motor command, so the pins are as it
    found them: an actuator that was stopped is left stopped. *)
Theorem timeout_after_1000_attempts :
  (forall s, rejected (fst (pollSrc s)) = true) ->
  forall (r : Routine) (fuel : nat) (w : World),
    exists w',
      run r fuel w = Ret InitialReadFailed w'
      /\ log w' = log w ++ attempts 1000
      /\ polls (log w') = (polls (log w) + 1000)%nat
      /\ now w' = now w + 10 * 1000
      /\ commands (log w') = commands (log w)
      /\ pins w' = pins w
      /\ (actuator (pins w) = Some Stopped ->
          actuator (pins w') = Some Stopped).
Proof.
  intros Hdead r fuel w.
  destruct (acquirePitch_exhausts Hdead maxTimeout NO_PITCH w eq_refl)
    as (p & w1 & Hget & Hrej & Hlog & Hpins & Hnow & _).
  destruct (routine_aborts r fuel w w1 p Hget Hrej)
    as (w' & Hrun & Hlog' & Hpins' & _ & Hnow' & _).
  exists w'. split; [exact Hrun | ].
  rewrite Hlog', Hlog, Hpins', Hpins, Hnow', Hnow.
  rewrite polls_app, commands_app, attempts_polls, attempts_commands, app_nil_r.
  repeat split; auto.
Qed.

(** Every value [readPitch] returns is the no-sample value or a dyadic
    rational [m / 8192] with [|m| < 2^24]: binary32 holds it exactly. *)
Lemma pitch_is_dyadic (rx rx' : list byte) (pitch : Q) :
  WT901.readPitch rx = (pitch, rx') ->
  pitch = NO_PITCH \/
  exists m : Z, - 2 ^ 24 < m < 2 ^ 24 /\ (pitch == m # 8192)%Q.
Proof.
  intro H. pose proof (f_equal fst H) as Hp. cbn [fst] in Hp. clear H.
  destruct (Nat.lt_ge_cases (List.length rx) 11) as [Hshort | Hlong].
  { rewrite readPitch_short in Hp by exact Hshort. left. symmetry. exact Hp. }
  destruct (Byte.byte_eq_dec (nth 0 rx x00) x55) as [Hsync | Hsync].
  2:{ rewrite readPitch_bad_sync in Hp by assumption.
      left. symmetry. exact Hp. }
  destruct (Byte.byte_eq_dec (nth 1 rx x00) x53) as [Htype | Htype].
  2:{ rewrite readPitch_bad_type in Hp by assumption.
      left. symmetry. exact Hp. }
  rewrite readPitch_angle in Hp by assumption. cbn [fst] in Hp.
  right. subst pitch.
  set (lo := nth 2 rx x00). set (hi := nth 3 rx x00).
  pose proof (int16_le_range lo hi) as Hr.
  exists (45 * int16_le lo hi). split; [change (2 ^ 24) with 16777216; lia | ].
  generalize dependent (int16_le lo hi). intros v Hv.
  unfold Qeq, Qdiv, Qmult, Qinv, inject_Z. cbn -[Z.mul]. lia.
Qed.

(** C1.  A ten-byte frame with sync byte 0x55 and type byte 0x53, at the
    head of a receive buffer that passes the availability test, decodes to
    the signed 16-bit little-endian integer of its bytes 2 (low) and 3
    (high), divided by 32768 and multiplied by 180; the ten bytes are
    consumed.  Whatever pitch a poll yields, decoded or not, a value outside
    [-25, 25] is treated as no reading: the guards reject it,
    [streamCSVData] writes nothing, the acquisition loop delays and polls
    again, and a routine whose acquisition ends on it reports
    [InitialReadFailed] without a motor command. *)
Theorem decode_scales_and_envelope_rejects :
  (forall (frame rest : list byte),
      List.length frame = 10%nat ->
      nth 0 frame x00 = x55 -> nth 1 frame x00 = x53 ->
      rest <> [] ->
      WT901.readPitch (frame ++ rest) =
        ((inject_Z (int16_le (nth 2 frame x00) (nth 3 frame x00))
          / 32768 * 180)%Q, rest)) /\
  (forall (pitch : Q),
      ~ (-25 <= pitch /\ pitch <= 25)%Q ->
      rejected pitch = true /\ in_envelope pitch = false) /\
  (forall (w : World) (phase direction : string),
      ~ (-25 <= fst (pollSrc (angle w)) /\ fst (pollSrc (angle w)) <= 25)%Q ->
      exists w', streamCSVData phase direction w = Ret tt w'
                 /\ serial w' = serial w) /\
  (forall (w : World) (left : nat),
      ~ (-25 <= fst (pollSrc (angle w)) /\ fst (pollSrc (angle w)) <= 25)%Q ->
      acquirePitch (S left) NO_PITCH w =
        (p <- readPitch;; delay 10;; acquirePitch left p) w) /\
  (forall (r : Routine) (fuel : nat) (w w1 : World) (pitch : Q),
      getValidPitch w = Ret pitch w1 ->
      ~ (-25 <= pitch /\ pitch <= 25)%Q ->
      exists w', run r fuel w = Ret InitialReadFailed w'
                 /\ commands (log w') = commands (log w)).
Proof.
  split; [ | split; [ | split; [ | split]]].
  - intros frame rest Hlen Hsync Htype Hrest.
    assert (Hlong : (11 <= List.length (frame ++ rest))%nat).
    { rewrite length_app, Hlen. destruct rest; [contradiction | simpl; lia]. }
    rewrite (readPitch_angle (frame ++ rest) Hlong).
    + rewrite !app_nth1 by lia. f_equal.
      rewrite skipn_app, Hlen, Nat.sub_diag. simpl skipn at 2.
      rewrite <- Hlen, skipn_all. reflexivity.
    + rewrite app_nth1 by lia. exact Hsync.
    + rewrite app_nth1 by lia. exact Htype.
  - exact outside_rejected.
  - intros w phase direction Hout.
    destruct (outside_rejected _ Hout) as [_ Henv].
    destruct (streamCSVData_spec phase direction w)
      as (w' & e & c & Hrun & _ & _ & _ & Hser & _).
    exists w'. split; [exact Hrun | ].
    rewrite Henv, app_nil_r in Hser. exact Hser.
  - intros w left Hout.
    destruct (outside_rejected _ Hout) as [Hrej _].
    simpl acquirePitch. change (rejected NO_PITCH) with true. cbv iota.
    unfold bind at 1 3, readPitch.
    destruct (pollSrc (angle w)) as [p s]. simpl in Hrej. rewrite Hrej.
    reflexivity.
  - intros r fuel w w1 pitch Hget Hout.
    destruct (outside_rejected _ Hout) as [Hrej _].
    destruct (routine_aborts r fuel w w1 pitch Hget Hrej)
      as (w' & Hrun & Hlog & _).
    exists w'. split; [exact Hrun | ]. rewrite Hlog.
    pose proof (quiet_getValidPitch w) as Hq. rewrite Hget in Hq.
    unfold motor in Hq. simpl in Hq. congruence.
Qed.

(** C7, as the code has it.  With fewer than eleven bytes buffered
    [readPitch] returns the no-sample value and consumes nothing.  With
    eleven or more buffered: a failed sync test consumes the one byte that
    was tested; a passed sync test with a failed type test consumes the ten
    bytes of the frame; both return the no-sample value. *)
Theorem readPitch_consumption :
  forall rx : list byte,
    ((List.length rx < 11)%nat -> WT901.readPitch rx = (NO_PITCH, rx)) /\
    ((11 <= List.length rx)%nat -> nth 0 rx x00 <> x55 ->
     WT901.readPitch rx = (NO_PITCH, skipn 1 rx)) /\
    ((11 <= List.length rx)%nat -> nth 0 rx x00 = x55 ->
     nth 1 rx x00 <> x53 ->
     WT901.readPitch rx = (NO_PITCH, skipn 10 rx)).
Proof.
  intro rx. split; [ | split].
  - apply readPitch_short.
  - apply readPitch_bad_sync.
  - apply readPitch_bad_type.
Qed.

(** ** Pitch controller: the convergence band *)

Lemma zero_band (pitch : Q) :
  Qltb 0.1 (Qabs pitch) = false <-> (Qabs (pitch - 0) <= 0.1)%Q.
Proof.
  rewrite Qltb_ge.
  assert (E : (Qabs (pitch - 0) == Qabs pitch)%Q).
  { apply Qabs_wd. unfold Qminus. setoid_replace (- 0)%Q with 0%Q by reflexivity.
    apply Qplus_0_r. }
  rewrite E. reflexivity.
Qed.

Lemma band_iff (lo hi target pitch : Q) :
  (lo == target - 0.1)%Q -> (hi == target + 0.1)%Q ->
  Qltb pitch lo || Qltb hi pitch = false <->
  (Qabs (pitch - target) <= 0.1)%Q.
Proof.
  intros Hlo Hhi. rewrite orb_false_iff, !Qltb_ge, Qabs_Qle_condition.
  rewrite Hlo, Hhi. split; intros [H1 H2]; split; lra.
Qed.

Lemma posFive_band (pitch : Q) :
  Qltb pitch 4.9 || Qltb 5.1 pitch = false <-> (Qabs (pitch - 5) <= 0.1)%Q.
Proof. apply band_iff; reflexivity. Qed.

Lemma posTen_band (pitch : Q) :
  Qltb pitch 9.9 || Qltb 10.1 pitch = false <-> (Qabs (pitch - 10) <= 0.1)%Q.
Proof. apply band_iff; reflexivity. Qed.

Lemma negFive_band (pitch : Q) :
  Qltb pitch (-5.1) || Qltb (-4.9) pitch = false <->
  (Qabs (pitch - -5) <= 0.1)%Q.
Proof. apply band_iff; reflexivity. Qed.

Lemma negTen_band (pitch : Q) :
  Qltb pitch (-10.1) || Qltb (-9.9) pitch = false <->
  (Qabs (pitch - -10) <= 0.1)%Q.
Proof. apply band_iff; reflexivity. Qed.

Lemma post_any {A} (m : M A) (w : World) (Q : A -> World -> Prop)
      (S : World -> Prop) :
  (forall a w', Q a w') -> (forall w', S w') -> post m w Q S.
Proof. intros HQ HS. unfold post. destruct (m w); auto. Qed.

Ltac band_step IH :=
  lazymatch goal with
  | |- post (bind _ _) _ _ _ => apply post_bind
  | |- post (ret _) _ _ _ => apply post_ret
  | |- post spin _ _ _ => apply post_spin; exact I
  | |- post (if ?b then _ else _) _ _ _ => destruct b
  | |- reachedWithin _ LostSignal _ => intros ? ?; discriminate
  | |- reachedWithin _ InitialReadFailed _ => intros ? ?; discriminate
  | |- post _ _ (reachedWithin _) _ => first [ apply IH | fail 1 ]
  | |- post _ _ _ _ => apply post_any; [ intros | intros; exact I ]
  end.

Ltac loop_band lem :=
  let G := fresh "G" in
  lazymatch goal with
  | |- post (if ?g then _ else _) _ _ _ =>
      destruct g eqn:G;
      [ | apply post_ret; intros ? E; injection E as <-; apply lem; exact G ]
  end.

Lemma zeroLoop_band (fuel : nat) :
  forall pitch w,
    post (zeroLoop fuel pitch) w (reachedWithin 0) (fun _ => True).
Proof.
  induction fuel as [ | fuel IH]; intros pitch w; simpl;
    loop_band zero_band; repeat band_step IH.
Qed.

Lemma returnLoop_band (spins fuel : nat) :
  forall pitch w,
    post (returnLoop spins fuel pitch) w (reachedWithin 0) (fun _ => True).
Proof.
  induction fuel as [ | fuel IH]; intros pitch w; simpl;
    loop_band zero_band; repeat band_step IH.
Qed.

Lemma posFiveLoop_band (spins fuel : nat) :
  forall pitch w,
    post (posFiveLoop spins fuel pitch) w (reachedWithin 5) (fun _ => True).
Proof.
  induction fuel as [ | fuel IH]; intros pitch w; simpl;
    loop_band posFive_band; repeat band_step IH.
Qed.

Lemma posTenLoop_band (spins fuel : nat) :
  forall pitch w,
    post (posTenLoop spins fuel pitch) w (reachedWithin 10) (fun _ => True).
Proof.
  induction fuel as [ | fuel IH]; intros pitch w; simpl;
    loop_band posTen_band; repeat band_step IH.
Qed.

Lemma negFiveLoop_band (spins fuel : nat) :
  forall pitch w,
    post (negFiveLoop spins fuel pitch) w (reachedWithin (-5)) (fun _ => True).
Proof.
  induction fuel as [ | fuel IH]; intros pitch w; simpl;
    loop_band negFive_band; repeat band_step IH.
Qed.

Lemma negTenLoop_band (spins fuel : nat) :
  forall pitch w,
    post (negTenLoop spins fuel pitch) w (reachedWithin (-10)) (fun _ => True).
Proof.
  induction fuel as [ | fuel IH]; intros pitch w; simpl;
    loop_band negTen_band; repeat band_step IH.
Qed.

Ltac band_call lem :=
  lazymatch goal with
  | |- post _ _ _ _ =>
      eapply post_weaken;
      [ apply lem | cbv beta; intros ? ? Hreached | intros; exact I ]
  end.

Ltac band_finish :=
  repeat first
    [ match goal with
      | H : reachedWithin ?t ?r _ |- reachedWithin ?t ?r _ => exact H
      end
    | band_step False ].

Lemma routine_band (r : Routine) :
  forall fuel w, post (run r fuel) w (reachedWithin (target r)) (fun _ => True).
Proof.
  intros fuel w. destruct r; cbn [run target];
    unfold adjustToZeroPitch, returnToZeroPitch, adjustToPosFivePitch,
      adjustToPosTenPitch, adjustToNegFivePitch, adjustToNegTenPitch;
    do 3 band_step False; try solve [band_finish];
    do 4 band_step False; try solve [band_finish]; band_step False.
  - band_call zeroLoop_band; band_finish.
  - band_call returnLoop_band; band_finish.
  - band_call posFiveLoop_band; band_finish.
  - band_call posTenLoop_band; band_finish.
  - band_call negFiveLoop_band; band_finish.
  - band_call negTenLoop_band; band_finish.
Qed.

Lemma millis_run (w : World) :
  millis w = Ret (u32 (now w)) (set_now (now w + tick) w).
Proof. reflexivity. Qed.

Lemma delay_run (ms : Z) (w : World) :
  delay ms w = Ret tt (set_log (log w ++ [EvDelay ms]) (set_now (now w + ms) w)).
Proof. reflexivity. Qed.

Lemma finalSamples_returns (n : nat) :
  forall lastDataTime w, exists w', finalSamples n lastDataTime w = Ret tt w'.
Proof.
  induction n as [ | n IH]; intros l w; simpl.
  - exists w. reflexivity.
  - rewrite (bind_Ret _ _ _ _ _ (millis_run w)).
    destruct (DATA_INTERVAL <=? u32 (u32 (now w) - l)).
    + match goal with
      | |- context [streamCSVData ?p ?d] =>
          destruct (streamCSVData_spec p d (set_now (now w + tick) w))
            as (w2 & _ & _ & Hs & _)
      end.
      erewrite bind_Ret;
        [ | rewrite (bind_Ret _ _ _ _ _ Hs); apply millis_run ].
      rewrite (bind_Ret _ _ _ _ _ (delay_run _ _)). apply IH.
    + erewrite bind_Ret; [ | reflexivity ].
      rewrite (bind_Ret _ _ _ _ _ (delay_run _ _)). apply IH.
Qed.

(** A pitch already in the band ends the routine at once: it reports the
    pitch as reached and its only motor command is the closing stop. *)
Lemma routine_accepts (r : Routine) :
  forall (fuel : nat) (w w1 : World) (pitch : Q),
    getValidPitch w = Ret pitch w1 -> rejected pitch = false ->
    (Qabs (pitch - target r) <= 0.1)%Q ->
    exists w', run r fuel w = Ret (Reached pitch) w'
               /\ commands (log w') = commands (log w) ++ [CmdStop].
Proof.
  intros fuel w w1 pitch Hget Hrej Hband.
  assert (Hquiet : commands (log w1) = commands (log w)).
  { pose proof (quiet_getValidPitch w) as Hq. rewrite Hget in Hq.
    unfold motor in Hq. simpl in Hq. congruence. }
  destruct r; cbn [run target] in *;
    unfold adjustToZeroPitch, returnToZeroPitch, adjustToPosFivePitch,
      adjustToPosTenPitch, adjustToNegFivePitch, adjustToNegTenPitch;
    rewrite (bind_Ret _ _ _ _ _ Hget), Hrej.
  - apply zero_band in Hband.
    unfold bind at 1, print1, put. unfold bind at 1, println1, put.
    unfold bind at 1.
    assert (E : forall w, zeroLoop fuel pitch w = Ret (Reached pitch) w)
      by (intro; destruct fuel; simpl; rewrite Hband; reflexivity).
    rewrite E. eexists. split; [reflexivity | ].
    simpl. rewrite commands_app, Hquiet. reflexivity.
  - apply zero_band in Hband.
    unfold bind at 1, print1, put. unfold bind at 1, println1, put.
    unfold bind at 1.
    assert (E : forall w, returnLoop fuel fuel pitch w = Ret (Reached pitch) w)
      by (intro; destruct fuel; simpl; rewrite Hband; reflexivity).
    rewrite E.
    unfold bind at 1.
    match goal with
    | |- context [stopMotor ?w0] =>
        destruct (stopMotor_run w0) as (ws & -> & Hlog & _)
    end.
    unfold bind at 1, millis. unfold bind at 1.
    match goal with
    | |- context [finalSamples ?n ?l ?w0] =>
        pose proof (quiet_finalSamples n l w0) as Hq;
        destruct (finalSamples_returns n l w0) as (wf & Hf)
    end.
    rewrite Hf in Hq |- *. eexists. split; [reflexivity | ].
    unfold motor in Hq. simpl in Hq. injection Hq as Hq _.
    simpl. rewrite Hq, Hlog. simpl. rewrite commands_app, Hquiet. reflexivity.
  - apply posFive_band in Hband.
    unfold bind at 1, print1, put. unfold bind at 1, println1, put.
    unfold bind at 1.
    assert (E : forall w, posFiveLoop fuel fuel pitch w = Ret (Reached pitch) w)
      by (intro; destruct fuel; simpl; rewrite Hband; reflexivity).
    rewrite E. eexists. split; [reflexivity | ].
    simpl. rewrite commands_app, Hquiet. reflexivity.
  - apply posTen_band in Hband.
    unfold bind at 1, print1, put. unfold bind at 1, println1, put.
    unfold bind at 1.
    assert (E : forall w, posTenLoop fuel fuel pitch w = Ret (Reached pitch) w)
      by (intro; destruct fuel; simpl; rewrite Hband; reflexivity).
    rewrite E. eexists. split; [reflexivity | ].
    simpl. rewrite commands_app, Hquiet. reflexivity.
  - apply negFive_band in Hband.
    unfold bind at 1, print1, put. unfold bind at 1, println1, put.
    unfold bind at 1.
    assert (E : forall w, negFiveLoop fuel fuel pitch w = Ret (Reached pitch) w)
      by (intro; destruct fuel; simpl; rewrite Hband; reflexivity).
    rewrite E. eexists. split; [reflexivity | ].
    simpl. rewrite commands_app, Hquiet. reflexivity.
  - apply negTen_band in Hband.
    unfold bind at 1, print1, put. unfold bind at 1, println1, put.
    unfold bind at 1.
    assert (E : forall w, negTenLoop fuel fuel pitch w = Ret (Reached pitch) w)
      by (intro; destruct fuel; simpl; rewrite Hband; reflexivity).
    rewrite E. eexists. split; [reflexivity | ].
    simpl. rewrite commands_app, Hquiet. reflexivity.
Qed.

(** C4, as the code has it.  All six routines, the zeroing ones included,
    converge on a band of 0.1 degrees around their target, neither wider
    nor narrower: a pitch a routine reports as reached is within 0.1 of the
    target, and a valid first sample within 0.1 of the target is reported as
    reached at once, with no drive command. *)
Theorem every_target_uses_tolerance_0_1 :
  forall (r : Routine) (fuel : nat) (w : World),
    (forall p w', run r fuel w = Ret (Reached p) w' ->
                  (Qabs (p - target r) <= 0.1)%Q) /\
    (forall p w1, getValidPitch w = Ret p w1 -> rejected p = false ->
                  (Qabs (p - target r) <= 0.1)%Q ->
                  exists w', run r fuel w = Ret (Reached p) w'
                             /\ commands (log w') =
                                  commands (log w) ++ [CmdStop]).
Proof.
  intros r fuel w. split.
  - intros p w' Hrun. pose proof (routine_band r fuel w) as Hpost.
    unfold post in Hpost. rewrite Hrun in Hpost. apply Hpost. reflexivity.
  - intros p w1 Hget Hrej Hband.
    exact (routine_accepts r fuel w w1 p Hget Hrej Hband).
Qed.

(** ** Sampling windows on the virtual clock *)

Lemma u32_small (z : Z) : 0 <= z < 2 ^ 32 -> u32 z = z.
Proof. intro H. unfold u32. apply Z.mod_small. exact H. Qed.

Lemma polled_add (j k : nat) (s : Src) :
  polled j (polled k s) = polled (j + k) s.
Proof. unfold polled. symmetry. apply Nat.iter_add. Qed.

Lemma sampleUntil_exit (fuel : nat) (deadline last : Z)
      (phase direction : string) (w : World) :
  deadline <= u32 (now w) ->
  sampleUntil (S fuel) deadline last phase direction w =
    Ret tt (set_now (now w + tick) w).
Proof.
  intro H. simpl. rewrite (bind_Ret _ _ _ _ _ (millis_run w)).
  destruct (Z.ltb_spec (u32 (now w)) deadline); [lia | reflexivity].
Qed.

Lemma sampleUntil_skip (fuel : nat) (deadline last : Z)
      (phase direction : string) (w : World) :
  u32 (now w) < deadline ->
  u32 (u32 (now w + tick) - last) < DATA_INTERVAL ->
  sampleUntil (S fuel) deadline last phase direction w =
    sampleUntil fuel deadline last phase direction
                (set_now (now w + tick + tick) w).
Proof.
  intros H1 H2. simpl. rewrite (bind_Ret _ _ _ _ _ (millis_run w)).
  destruct (Z.ltb_spec (u32 (now w)) deadline); [ | lia].
  rewrite (bind_Ret _ _ _ _ _ (millis_run _)).
  cbn [now set_now].
  destruct (Z.leb_spec DATA_INTERVAL (u32 (u32 (now w + tick) - last)));
    [lia | reflexivity].
Qed.

Lemma sampleUntil_emit (fuel : nat) (deadline last : Z)
      (phase direction : string) (w w3 : World) :
  u32 (now w) < deadline ->
  DATA_INTERVAL <= u32 (u32 (now w + tick) - last) ->
  streamCSVData phase direction (set_now (now w + tick + tick) w) = Ret tt w3 ->
  sampleUntil (S fuel) deadline last phase direction w =
    sampleUntil fuel deadline (u32 (now w3)) phase direction
                (set_now (now w3 + tick) w3).
Proof.
  intros H1 H2 Hs. simpl. rewrite (bind_Ret _ _ _ _ _ (millis_run w)).
  destruct (Z.ltb_spec (u32 (now w)) deadline); [ | lia].
  rewrite (bind_Ret _ _ _ _ _ (millis_run _)).
  cbn [now set_now].
  destruct (Z.leb_spec DATA_INTERVAL (u32 (u32 (now w + tick) - last)));
    [ | lia].
  change (set_now (now w + tick + tick) (set_now (now w + tick) w))
    with (set_now (now w + tick + tick) w).
  rewrite (bind_Ret _ _ _ _ _ Hs).
  rewrite (bind_Ret _ _ _ _ _ (millis_run _)). reflexivity.
Qed.

(** The sampling loop on a clock with [1 <= tick] that does not wrap:
    with budget beyond the time left it returns, not long after the
    deadline, and it has polled the source often: [k] polls before and [j]
    in the loop put the deadline within [(k + j) * (10 + 5 * tick)] of the
    time [B] at which the count started. *)
Lemma sampleUntil_progress (phase direction : string) (D B : Z) :
  1 <= tick -> 0 <= D -> D + 6 * tick < 2 ^ 32 ->
  forall (fuel : nat) (w : World) (last : Z) (k : nat),
    0 <= last -> last + tick <= now w -> now w < last + 10 + tick ->
    last <= B + Z.of_nat k * (10 + 5 * tick) ->
    now w < D + 5 * tick ->
    0 < Z.of_nat fuel -> D - now w < Z.of_nat fuel ->
    exists w' j,
      sampleUntil fuel D last phase direction w = Ret tt w'
      /\ angle w' = polled j (angle w)
      /\ D + tick <= now w' /\ now w' < D + 6 * tick
      /\ D < B + Z.of_nat (k + j) * (10 + 5 * tick) + 10 + tick.
Proof.
  intros Htick HD Hwrap fuel.
  induction fuel as [ | fuel IH];
    intros w last k Hlast Hread Hdue Hcount Hnear Hpos Hfuel; [lia | ].
  assert (Hnow : u32 (now w) = now w) by (apply u32_small; lia).
  destruct (Z.lt_ge_cases (now w) D) as [Hbefore | Hafter].
  - assert (Hnow' : u32 (now w + tick) = now w + tick)
      by (apply u32_small; lia).
    assert (Hgap : u32 (u32 (now w + tick) - last) = now w + tick - last)
      by (rewrite Hnow'; apply u32_small; lia).
    destruct (Z.lt_ge_cases (now w + tick - last) DATA_INTERVAL)
      as [Hskip | Hemit]; unfold DATA_INTERVAL in *.
    + rewrite sampleUntil_skip by (unfold DATA_INTERVAL; lia).
      destruct (IH (set_now (now w + tick + tick) w) last k)
        as (w' & j & Hrun & Hangle & Hlo & Hhi & Hbound);
        cbn [now set_now]; try lia.
      exists w', j. split; [exact Hrun | ]. split; [exact Hangle | ].
      repeat split; assumption.
    + destruct (streamCSVData_spec phase direction
                  (set_now (now w + tick + tick) w))
        as (w3 & _ & _ & Hs & Ha3 & _ & _ & _ & _ & _ & _ & Hn3).
      cbn [now angle set_now] in Ha3, Hn3.
      rewrite (sampleUntil_emit fuel D last phase direction w w3)
        by (unfold DATA_INTERVAL; lia || exact Hs).
      assert (Hl : u32 (now w3) = now w3) by (apply u32_small; lia).
      rewrite Hl.
      destruct (IH (set_now (now w3 + tick) w3) (now w3) (S k))
        as (w' & j & Hrun & Hangle & Hlo & Hhi & Hbound);
        cbn [now angle set_now]; try lia.
      exists w', (j + 1)%nat. split; [exact Hrun | ].
      split.
      * rewrite Hangle. cbn [angle set_now]. rewrite Ha3.
        rewrite <- polled_add. reflexivity.
      * repeat split; try assumption.
        replace (k + (j + 1))%nat with (S k + j)%nat by lia. exact Hbound.
  - rewrite sampleUntil_exit by lia.
    exists (set_now (now w + tick) w), O. split; [reflexivity | ].
    split; [reflexivity | ]. cbn [now set_now].
    rewrite Nat.add_0_r. repeat split; lia.
Qed.

(** A sampling window of [ms] milliseconds on a clock that does not wrap:
    it returns, a little after its deadline, gives no motor command, and
    has polled the source [j] times with [ms - 10 - 2 * tick] below
    [j * (10 + 5 * tick)]. *)
Lemma sampleFor_runs (fuel : nat) (ms : Z) (phase direction : string)
      (w : World) :
  1 <= tick -> 0 <= now w -> 0 < ms -> now w + ms + 6 * tick < 2 ^ 32 ->
  ms < Z.of_nat fuel ->
  exists w' j,
    sampleFor fuel ms phase direction w = Ret tt w'
    /\ angle w' = polled j (angle w)
    /\ now w + ms + tick <= now w' /\ now w' < now w + ms + 6 * tick
    /\ ms - 10 - 2 * tick < Z.of_nat j * (10 + 5 * tick)
    /\ commands (log w') = commands (log w) /\ pins w' = pins w.
Proof.
  intros Htick Hnow Hms Hwrap Hfuel.
  pose proof (quiet_sampleFor fuel ms phase direction w) as Hquiet.
  unfold sampleFor in *.
  rewrite (bind_Ret _ _ _ _ _ (millis_run w)) in *.
  rewrite (bind_Ret _ _ _ _ _ (millis_run _)) in *.
  cbn [now set_now] in *.
  rewrite (u32_small (now w)) in * by lia.
  rewrite (u32_small (now w + tick)) in * by lia.
  rewrite (u32_small (now w + ms)) in * by lia.
  destruct (sampleUntil_progress phase direction (now w + ms) (now w + tick)
              Htick ltac:(lia) ltac:(lia) fuel
              (set_now (now w + tick + tick) (set_now (now w + tick) w))
              (now w + tick) O)
    as (w' & j & Hrun & Hangle & Hlo & Hhi & Hbound);
    cbn [now set_now]; try lia.
  rewrite Hrun in Hquiet. unfold motor in Hquiet. simpl in Hquiet.
  injection Hquiet as Hcmds Hpins.
  exists w', j. split; [exact Hrun | ]. split; [exact Hangle | ].
  simpl Nat.add in Hbound. repeat split; try assumption; lia.
Qed.

Lemma acquirePitch_first (left : nat) (w : World) :
  rejected (fst (pollSrc (angle w))) = false ->
  acquirePitch (S left) NO_PITCH w =
    Ret (fst (pollSrc (angle w)))
        (set_log (log w ++ [EvPoll]) (set_angle (snd (pollSrc (angle w))) w)).
Proof.
  intro H. cbn [acquirePitch]. change (rejected NO_PITCH) with true.
  cbv iota. unfold bind, readPitch.
  destruct (pollSrc (angle w)) as [p s]. simpl in H |- *. rewrite H.
  reflexivity.
Qed.

Lemma getValidPitch_first (w : World) :
  rejected (fst (pollSrc (angle w))) = false ->
  getValidPitch w =
    Ret (fst (pollSrc (angle w)))
        (set_log (log w ++ [EvPoll]) (set_angle (snd (pollSrc (angle w))) w)).
Proof. exact (acquirePitch_first 999 w). Qed.

Lemma two_polls (j : nat) :
  1 <= tick <= 25 -> 200 - 10 - 2 * tick < Z.of_nat j * (10 + 5 * tick) ->
  (2 <= j)%nat.
Proof.
  intros Htick H. destruct j as [ | [ | j]]; [ | | lia].
  - change (Z.of_nat 0) with 0 in H. lia.
  - change (Z.of_nat 1) with 1 in H. lia.
Qed.

(** C3.  An angle source answers 8.0 degrees to its first three polls and
    10.05 degrees to every later one.  On a clock that advances between 1 and
    25 ms per reading and does not wrap during the run, with loop budgets
    above 1000, [adjustToPosTenPitch] gives one drive command (backward,
    that is up) and its stop, finds 10.05 degrees in the band, and ends
    with its closing stop: it reports 10.05 as reached and leaves the
    actuator stopped. *)
Theorem converges_in_one_pulse :
  forall (fuel : nat) (w : World),
    1 <= tick <= 25 ->
    (1000 < fuel)%nat ->
    0 <= now w -> now w + 2000 < 2 ^ 32 ->
    (forall k, (k < 3)%nat -> fst (pollSrc (polled k (angle w))) = 8%Q) ->
    (forall k, (3 <= k)%nat ->
               fst (pollSrc (polled k (angle w))) = 10.05%Q) ->
    exists w',
      adjustToPosTenPitch fuel w = Ret (Reached 10.05) w'
      /\ commands (log w') =
           commands (log w) ++ [CmdBackward; CmdStop; CmdStop]
      /\ List.length (filter isDrive (commands (log w'))) =
           S (List.length (filter isDrive (commands (log w))))
      /\ actuator (pins w') = Some Stopped.
Proof.
  intros fuel w Htick Hfuel Hnow Hwrap Hfirst Hlater.
  destruct fuel as [ | f]; [lia | ].
  set (fuel := S f) in *.
  pose proof (Hfirst O ltac:(lia)) as H0.
  change (fst (pollSrc (angle w)) = 8%Q) in H0.
  unfold adjustToPosTenPitch.
  rewrite (bind_Ret _ _ _ _ _ (getValidPitch_first w ltac:(rewrite H0; reflexivity))).
  rewrite H0. change (rejected 8) with false. cbv iota.
  unfold bind at 1, print1, put. unfold bind at 1, println1, put.
  set (w1 := set_serial1 _ _).
  assert (Hloop : exists w2,
             posTenLoop fuel fuel 8 w1 = Ret (Reached 10.05) w2
             /\ commands (log w2) =
                  commands (log w) ++ [CmdBackward; CmdStop]).
  { unfold fuel at 2. cbn [posTenLoop].
    change (Qltb 8 9.9 || Qltb 10.1 8) with true.
    change (Qltb 10.1 8) with false. change (Qltb 8 9.9) with true.
    cbv iota.
    unfold bind at 1. unfold bind at 1, println1 at 1, put.
    destruct (moveMotorBackward_run
                (set_serial1 (serial1 w1 ++ [text "# Moving actuator UP"; TLn]) w1))
      as (wa & -> & Hlog_a & Hpins_a & Hangle_a & Hnow_a & _).
    subst w1. cbn [log angle now set_serial1 set_log set_angle] in Hlog_a, Hangle_a, Hnow_a.
    destruct (sampleFor_runs fuel 200 "AdjustingToPos10" "Up" wa)
      as (wb & j1 & Hrun_b & Hangle_b & Hlo_b & Hhi_b & Hj1 & Hcmd_b & Hpins_b);
      try lia.
    rewrite (bind_Ret _ _ _ _ _ Hrun_b).
    apply two_polls in Hj1; [ | exact Htick].
    destruct (stopMotor_run wb)
      as (wc & Hrun_c & Hlog_c & Hpins_c & Hangle_c & Hnow_c & _).
    rewrite (bind_Ret _ _ _ _ _ Hrun_c).
    destruct (sampleFor_runs fuel 1000 "AdjustingToPos10" "Stabilizing" wc)
      as (wd & j2 & Hrun_d & Hangle_d & Hlo_d & Hhi_d & _ & Hcmd_d & Hpins_d);
      try lia.
    rewrite (bind_Ret _ _ _ _ _ Hrun_d).
    assert (Hsrc : angle wd = polled (j2 + (j1 + 1)) (angle w)).
    { rewrite Hangle_d, Hangle_c, Hangle_b, Hangle_a.
      rewrite <- !polled_add. reflexivity. }
    assert (Hp : fst (pollSrc (angle wd)) = 10.05%Q).
    { rewrite Hsrc. apply Hlater. lia. }
    rewrite (bind_Ret _ _ _ _ _
               (getValidPitch_first wd ltac:(rewrite Hp; reflexivity))).
    rewrite Hp. change (rejected 10.05) with false. cbv iota.
    unfold bind at 1, print1, put. unfold bind at 1, println1, put.
    eexists. split.
    - destruct f; cbn [posTenLoop];
        change (Qltb 10.05 9.9 || Qltb 10.1 10.05) with false; reflexivity.
    - cbn [log set_serial1 set_log set_angle].
      rewrite commands_app, Hcmd_d, Hlog_c, commands_app, Hcmd_b, Hlog_a.
      rewrite !commands_app. simpl. rewrite !app_nil_r, <- !app_assoc.
      reflexivity. }
  destruct Hloop as (w2 & Hrun2 & Hcmd2).
  rewrite (bind_Ret _ _ _ _ _ Hrun2).
  destruct (stopMotor_run w2) as (w3 & Hrun3 & Hlog3 & Hpins3 & _).
  rewrite (bind_Ret _ _ _ _ _ Hrun3).
  eexists. split; [reflexivity | ].
  cbn [log pins set_serial1].
  rewrite Hlog3, Hpins3, commands_app, Hcmd2, <- app_assoc.
  split; [reflexivity | ]. split; [ | reflexivity].
  rewrite !filter_app, !length_app. simpl. lia.
Qed.

(** * Further properties *)

(** ** Angle reader *)

Lemma decoded_range (lo hi : byte) :
  (-180 <= inject_Z (int16_le lo hi) / 32768 * 180)%Q /\
  (inject_Z (int16_le lo hi) / 32768 * 180 < 180)%Q.
Proof.
  pose proof (int16_le_range lo hi) as H.
  generalize dependent (int16_le lo hi). intros v H.
  unfold Qle, Qlt, Qdiv, Qmult, Qinv, inject_Z. cbn -[Z.mul]. lia.
Qed.

(** X1.  [readPitch] returns a decoded angle exactly when at least eleven
    bytes are buffered, the first is 0x55 and the second 0x53.  A decoded
    angle lies in [-180, 180), so it is never the no-sample value -999;
    in every other case the result is the no-sample value itself. *)
Theorem readPitch_valid_iff :
  forall buffered : list byte,
    let pitch := fst (WT901.readPitch buffered) in
    (pitch = NO_PITCH \/ (-180 <= pitch /\ pitch < 180)%Q) /\
    (~ (pitch == NO_PITCH)%Q <->
     (11 <= List.length buffered)%nat
     /\ nth 0 buffered x00 = x55 /\ nth 1 buffered x00 = x53).
Proof.
  intros buffered pitch. subst pitch.
  destruct (Nat.lt_ge_cases (List.length buffered) 11) as [Hshort | Hlong].
  { rewrite readPitch_short by exact Hshort. cbn [fst]. split; [left; reflexivity | ].
    split; [intro H; exfalso; apply H; reflexivity | intros [H _]; lia]. }
  destruct (Byte.byte_eq_dec (nth 0 buffered x00) x55) as [Hsync | Hsync].
  2:{ rewrite readPitch_bad_sync by assumption. cbn [fst].
      split; [left; reflexivity | ].
      split; [intro H; exfalso; apply H; reflexivity | intros (_ & H & _); contradiction]. }
  destruct (Byte.byte_eq_dec (nth 1 buffered x00) x53) as [Htype | Htype].
  2:{ rewrite readPitch_bad_type by assumption. cbn [fst].
      split; [left; reflexivity | ].
      split; [intro H; exfalso; apply H; reflexivity | intros (_ & _ & H); contradiction]. }
  rewrite readPitch_angle by assumption. cbn [fst].
  pose proof (decoded_range (nth 2 buffered x00) (nth 3 buffered x00)) as [Hlo Hhi].
  split; [right; split; assumption | ].
  split; [intros _; repeat split; assumption | ].
  intros _ E. rewrite E in Hlo. revert Hlo. unfold NO_PITCH, Qle. simpl. lia.
Qed.

Lemma byteZ_inj (a b : byte) : byteZ a = byteZ b -> a = b.
Proof.
  unfold byteZ. intro H. apply N2Z.inj in H.
  pose proof (Byte.of_to_N a) as Ha. pose proof (Byte.of_to_N b) as Hb.
  rewrite H in Ha. congruence.
Qed.

Lemma int16_le_inj (lo hi lo' hi' : byte) :
  int16_le lo hi = int16_le lo' hi' -> lo = lo' /\ hi = hi'.
Proof.
  unfold int16_le. intro H.
  pose proof (byteZ_range lo). pose proof (byteZ_range hi).
  pose proof (byteZ_range lo'). pose proof (byteZ_range hi').
  assert (byteZ lo = byteZ lo' /\ byteZ hi = byteZ hi').
  { destruct (Z.ltb_spec (byteZ lo + 256 * byteZ hi) 32768);
      destruct (Z.ltb_spec (byteZ lo' + 256 * byteZ hi') 32768); lia. }
  split; apply byteZ_inj; tauto.
Qed.

(** X2.  Two buffers that each hold an angle frame at their head decode to
    the same pitch if and only if their bytes 2 and 3 agree: the decode
    looks at nothing else (bytes 4 to 9 and the byte after the frame are
    not examined, no checksum is verified), and distinct raw angles give
    distinct pitches. *)
Theorem pitch_determined_by_bytes_2_3 :
  forall a b : list byte,
    (11 <= List.length a)%nat -> nth 0 a x00 = x55 -> nth 1 a x00 = x53 ->
    (11 <= List.length b)%nat -> nth 0 b x00 = x55 -> nth 1 b x00 = x53 ->
    ((fst (WT901.readPitch a) == fst (WT901.readPitch b))%Q <->
     nth 2 a x00 = nth 2 b x00 /\ nth 3 a x00 = nth 3 b x00).
Proof.
  intros a b Ha Sa Ta Hb Sb Tb.
  rewrite (readPitch_angle a Ha Sa Ta), (readPitch_angle b Hb Sb Tb).
  cbn [fst]. split.
  - intro E. apply int16_le_inj.
    generalize dependent (int16_le (nth 2 a x00) (nth 3 a x00)).
    generalize dependent (int16_le (nth 2 b x00) (nth 3 b x00)).
    intros v v' E. revert E.
    unfold Qeq, Qdiv, Qmult, Qinv, inject_Z. cbn -[Z.mul]. lia.
  - intros [-> ->]. reflexivity.
Qed.

(** X3.  A decoded angle is inside the controller's envelope [-25, 25]
    exactly when the raw 16-bit value is between -4551 and 4551. *)
Theorem envelope_in_raw_units :
  forall buffered : list byte,
    (11 <= List.length buffered)%nat ->
    nth 0 buffered x00 = x55 -> nth 1 buffered x00 = x53 ->
    (in_envelope (fst (WT901.readPitch buffered)) = true <->
     -4551 <= int16_le (nth 2 buffered x00) (nth 3 buffered x00) <= 4551).
Proof.
  intros buffered Hlen Hsync Htype.
  rewrite (readPitch_angle buffered Hlen Hsync Htype). cbn [fst].
  rewrite in_envelope_iff.
  generalize (int16_le (nth 2 buffered x00) (nth 3 buffered x00)). intro v.
  unfold Qle, Qdiv, Qmult, Qinv, inject_Z. cbn -[Z.mul]. lia.
Qed.

Lemma readMany_S (n : nat) (buffered : list byte) :
  readMany (S n) buffered =
    (fst (WT901.readPitch buffered)
       :: fst (readMany n (snd (WT901.readPitch buffered))),
     snd (readMany n (snd (WT901.readPitch buffered)))).
Proof.
  cbn [readMany]. destruct (WT901.readPitch buffered) as [p rest].
  cbn [fst snd]. destruct (readMany n rest). reflexivity.
Qed.

(** X4.  Resynchronisation.  When stray bytes, none of them 0x55, precede an
    angle frame that is followed by at least one more byte, each stray byte
    costs one call of [readPitch] that returns the no-sample value and
    consumes that byte alone; the call after them decodes the frame. *)
Theorem readPitch_resynchronises :
  forall (stray frame rest : list byte),
    Forall (fun b => b <> x55) stray ->
    List.length frame = 10%nat ->
    nth 0 frame x00 = x55 -> nth 1 frame x00 = x53 ->
    rest <> [] ->
    readMany (S (List.length stray)) (stray ++ frame ++ rest) =
      (repeat NO_PITCH (List.length stray)
       ++ [(inject_Z (int16_le (nth 2 frame x00) (nth 3 frame x00))
            / 32768 * 180)%Q],
       rest).
Proof.
  intros stray frame rest Hstray Hlen Hsync Htype Hrest.
  assert (Hlong : (11 <= List.length (frame ++ rest))%nat).
  { rewrite length_app, Hlen. destruct rest; [contradiction | simpl; lia]. }
  induction stray as [ | b stray IH].
  - simpl. rewrite (readPitch_angle (frame ++ rest) Hlong);
      [ | rewrite app_nth1 by lia; assumption
        | rewrite app_nth1 by lia; assumption ].
    rewrite !app_nth1 by lia.
    rewrite skipn_app, Hlen, Nat.sub_diag. simpl skipn at 2.
    rewrite <- Hlen, skipn_all. reflexivity.
  - inversion Hstray as [ | ? ? Hb Hrest']; subst.
    change (List.length (b :: stray)) with (S (List.length stray)).
    rewrite readMany_S.
    rewrite (readPitch_bad_sync ((b :: stray) ++ frame ++ rest)).
    + cbn [fst snd]. simpl skipn. rewrite (IH Hrest'). reflexivity.
    + simpl. rewrite !length_app in *. lia.
    + simpl. exact Hb.
Qed.

(** ** Bus telemetry reader *)

(** X5.  Held last value.  Polls that find nothing pending, or only frames
    of payload length below 6, return the cached data as it stands,
    whatever it is, and leave it; each poll takes one entry off the bus. *)
Theorem cache_holds_last_value :
  forall (n : nat) (w : World),
    Forall shortOrNone (firstn n (bus w)) ->
    exists w', pollBus n w = Ret (repeat (lastValidData w) n) w'
               /\ lastValidData w' = lastValidData w
               /\ bus w' = skipn n (bus w).
Proof.
  induction n as [ | n IH]; intros w Hshort.
  - exists w. repeat split; reflexivity.
  - simpl pollBus.
    destruct (bus w) as [ | [f | ] rest] eqn:Ebus.
    + rewrite (bind_Ret _ _ _ _ _ (readCANData_idle w Ebus)).
      destruct (IH w) as (w' & Hrun & Hkeep & Hbus).
      { rewrite Ebus. destruct n; constructor. }
      exists w'. rewrite (bind_Ret _ _ _ _ _ Hrun).
      split; [reflexivity | ]. split; [exact Hkeep | ].
      rewrite Hbus, Ebus. destruct n; reflexivity.
    + simpl in Hshort. inversion Hshort as [ | ? ? Hf Hrest]; subst.
      rewrite (bind_Ret _ _ _ _ _ (readCANData_short w f rest Ebus Hf)).
      edestruct IH as (w' & Hrun & Hkeep & Hbus);
        [ | exists w'; rewrite (bind_Ret _ _ _ _ _ Hrun);
            split; [reflexivity | split; [exact Hkeep | exact Hbus]]].
      simpl. assumption.
    + simpl in Hshort. inversion Hshort as [ | ? ? Hf Hrest]; subst.
      rewrite (bind_Ret _ _ _ _ _ (readCANData_nothing w rest Ebus)).
      edestruct IH as (w' & Hrun & Hkeep & Hbus);
        [ | exists w'; rewrite (bind_Ret _ _ _ _ _ Hrun);
            split; [reflexivity | split; [exact Hkeep | exact Hbus]]].
      simpl. assumption.
Qed.

Lemma readCANData_cases (w : World) :
  exists d w',
    readCANData w = Ret d w' /\ lastValidData w' = d /\ bus w' = tl (bus w)
    /\ d = match hd None (bus w) with
           | Some f => if (6 <=? len f)%nat
                       then storeFrame f (lastValidData w)
                       else lastValidData w
           | None => lastValidData w
           end
    /\ lastCanMsgTime w' = match hd None (bus w) with
                           | Some _ => u32 (now w)
                           | None => lastCanMsgTime w
                           end
    /\ now w' = match hd None (bus w) with
                | Some _ => now w + tick
                | None => now w
                end
    /\ angle w' = angle w /\ log w' = log w /\ pins w' = pins w
    /\ serial w' = serial w /\ serial1 w' = serial1 w
    /\ startTime w' = startTime w
    /\ headersWritten w' = headersWritten w /\ cmdIn w' = cmdIn w
    /\ testComplete w' = testComplete w.
Proof.
  destruct (bus w) as [ | [f | ] rest] eqn:Ebus.
  - rewrite (readCANData_idle w Ebus).
    exists (lastValidData w), w.
    rewrite ?Ebus. simpl. repeat split; reflexivity.
  - destruct (Nat.leb_spec 6 (len f)) as [Hlong | Hshort].
    + rewrite (readCANData_frame w f rest Ebus Hlong).
      apply Nat.leb_le in Hlong.
      eexists. eexists. split; [reflexivity | ]. cbn -[Nat.leb].
      rewrite Hlong. repeat split; reflexivity.
    + rewrite (readCANData_short w f rest Ebus Hshort).
      apply Nat.leb_gt in Hshort.
      eexists. eexists. split; [reflexivity | ]. cbn -[Nat.leb].
      rewrite Hshort. repeat split; reflexivity.
  - rewrite (readCANData_nothing w rest Ebus).
    eexists. eexists. split; [reflexivity | ]. simpl.
    repeat split; reflexivity.
Qed.

(** X6.  The latest frame wins.  After the bus has been polled through,
    the cache holds the decode of the last frame of payload length 6 or
    more that was found, with nothing of earlier frames or of the earlier
    cache left in it; if there was no such frame the cache is as before. *)
Theorem latest_frame_wins :
  forall (w : World),
    exists ds w',
      pollBus (List.length (bus w)) w = Ret ds w'
      /\ bus w' = []
      /\ lastValidData w' =
           match lastLong (bus w) with
           | Some f => storeFrame f noData
           | None => lastValidData w
           end.
Proof.
  intro w. remember (bus w) as found eqn:Efound.
  revert w Efound. induction found as [ | m found IH]; intros w Efound.
  - exists [], w. simpl. repeat split; auto.
  - simpl pollBus.
    destruct (readCANData_cases w)
      as (d & w1 & Hrun & Hd & Hbus & Hval & _).
    rewrite <- Efound in Hbus, Hval. cbn [hd tl] in Hbus, Hval.
    rewrite (bind_Ret _ _ _ _ _ Hrun).
    destruct (IH w1 (eq_sym Hbus)) as (ds & w' & Hrest & Hempty & Hcache).
    rewrite (bind_Ret _ _ _ _ _ Hrest).
    exists (d :: ds), w'. split; [reflexivity | ]. split; [exact Hempty | ].
    cbn [lastLong]. rewrite Hcache.
    destruct (lastLong found) as [f | ]; [reflexivity | ].
    rewrite Hd, Hval. destruct m as [f0 | ]; [ | reflexivity].
    destruct (6 <=? len f0)%nat; [apply storeFrame_forgets | reflexivity].
Qed.

(** X7.  A poll that finds any message, whatever its length, stamps
    [lastCanMsgTime] with the clock and uses one clock reading; a poll that
    finds none leaves the stamp and the clock.  So frames too short to be
    decoded still keep the bus-silent warning off. *)
Theorem any_message_stamps_the_watchdog :
  forall (w : World),
    exists d w',
      readCANData w = Ret d w'
      /\ bus w' = tl (bus w)
      /\ (lastCanMsgTime w', now w') =
           match hd None (bus w) with
           | Some _ => (u32 (now w), now w + tick)
           | None => (lastCanMsgTime w, now w)
           end.
Proof.
  intro w.
  destruct (readCANData_cases w)
    as (d & w' & Hrun & _ & Hbus & _ & Hstamp & Hnow & _).
  exists d, w'. split; [exact Hrun | ]. split; [exact Hbus | ].
  rewrite Hstamp, Hnow. destruct (hd None (bus w)); reflexivity.
Qed.

(** X8.  Round trip of the first two words.  After a frame of payload
    length 6 or more, the fuel level and the internal temperature of the
    returned data are decimal strings that parse back to the first and the
    second big-endian 16-bit word of the frame. *)
Theorem fuel_and_temperature_round_trip :
  forall (w : World) (f : CANFrame) (rest : list (option CANFrame)),
    bus w = Some f :: rest ->
    (6 <= len f)%nat ->
    exists d w',
      readCANData w = Ret d w'
      /\ option_map (fun u => Z.of_N (N.of_uint u))
                    (NilEmpty.uint_of_string (fuelLevel d))
         = Some (256 * byteZ (rx f 0) + byteZ (rx f 1))
      /\ option_map (fun u => Z.of_N (N.of_uint u))
                    (NilEmpty.uint_of_string (internalTemp d))
         = Some (256 * byteZ (rx f 2) + byteZ (rx f 3)).
Proof.
  intros w f rest Hbus Hlen.
  eexists. eexists. split; [apply (readCANData_frame w f rest Hbus Hlen) | ].
  pose proof (word_be_range f 0). pose proof (word_be_range f 2).
  rewrite <- !word_be_value.
  unfold storeFrame.
  destruct (word_be f 4 =? 65535);
    [ | destruct (word_be f 4 =? 32769);
        [ | destruct (word_be f 4 =? 32770)]];
    simpl fuelLevel; simpl internalTemp;
    (split; apply String_of_value; lia).
Qed.

(** ** Relations respected step by step *)

Lemma world_of_bind {A B} (m : M A) (k : A -> M B) (w : World) :
  world_of (bind m k w) =
    match m w with
    | Ret a w1 => world_of (k a w1)
    | Spin w1 => w1
    end.
Proof. unfold bind. destruct (m w); reflexivity. Qed.

Lemma steps_put (R : World -> World -> Prop) (upd : World -> World) :
  (forall w, R w (upd w)) -> steps R (put upd).
Proof. intros H w. apply H. Qed.

Section Steps.

Variable R : World -> World -> Prop.
Hypothesis R_refl : forall w, R w w.
Hypothesis R_trans : forall w1 w2 w3, R w1 w2 -> R w2 w3 -> R w1 w3.

Lemma steps_ret {A} (a : A) : steps R (ret a).
Proof. intro w. apply R_refl. Qed.

Lemma steps_spin {A} : steps R (@spin A).
Proof. intro w. apply R_refl. Qed.

Lemma steps_get {A} (f : World -> A) : steps R (get f).
Proof. intro w. apply R_refl. Qed.

Lemma steps_bind {A B} (m : M A) (k : A -> M B) :
  steps R m -> (forall a, steps R (k a)) -> steps R (bind m k).
Proof.
  intros Hm Hk w. rewrite world_of_bind. specialize (Hm w).
  destruct (m w) as [a w1 | w1]; [ | exact Hm].
  exact (R_trans _ _ _ Hm (Hk a w1)).
Qed.

Lemma steps_if {A} (b : bool) (m1 m2 : M A) :
  steps R m1 -> steps R m2 -> steps R (if b then m1 else m2).
Proof. destruct b; auto. Qed.

(** The primitives the firmware is made of. *)
Hypothesis R_millis : steps R millis.
Hypothesis R_delay : forall ms, steps R (delay ms).
Hypothesis R_print1 : forall t, steps R (print1 t).
Hypothesis R_println1 : forall t, steps R (println1 t).
Hypothesis R_readPitch : steps R readPitch.
Hypothesis R_forward : steps R moveMotorForward.
Hypothesis R_backward : steps R moveMotorBackward.
Hypothesis R_stop : steps R stopMotor.
Hypothesis R_stream :
  forall phase direction,
    isLabel phase direction = true -> steps R (streamCSVData phase direction).
Hypothesis R_header : steps R (println (text csvHeader)).
Hypothesis R_headersWritten : forall b, steps R (put (set_headersWritten b)).
Hypothesis R_startTime : forall t, steps R (put (set_startTime t)).
Hypothesis R_testComplete : forall b, steps R (put (set_testComplete b)).
Hypothesis R_lastCanMsgTime : forall t, steps R (put (set_lastCanMsgTime t)).
Hypothesis R_cmdIn : forall l, steps R (put (set_cmdIn l)).

Create HintDb steps.
#[local] Hint Resolve steps_ret steps_spin steps_get R_millis R_delay
  R_print1 R_println1 R_readPitch R_forward R_backward R_stop R_header
  R_headersWritten R_startTime R_testComplete R_lastCanMsgTime R_cmdIn
  : steps.
#[local] Hint Extern 1 (steps _ (streamCSVData _ _)) =>
  apply R_stream; reflexivity : steps.

Ltac steps_go :=
  repeat first
    [ solve [ auto with steps ]
    | apply steps_if
    | apply steps_bind; [ | intro ]
    | match goal with
      | |- steps _ (match ?x with _ => _ end) => destruct x
      end ].

Lemma steps_sampleUntil (fuel : nat) :
  forall deadline lastDataTime phase direction,
    isLabel phase direction = true ->
    steps R (sampleUntil fuel deadline lastDataTime phase direction).
Proof.
  induction fuel as [ | fuel IH]; intros deadline l phase direction Hl;
    cbn [sampleUntil]; [apply steps_spin | ].
  apply steps_bind; [apply R_millis | intro t].
  apply steps_if; [ | apply steps_ret].
  apply steps_bind; [apply R_millis | intro t'].
  apply steps_if; [ | apply IH; exact Hl].
  apply steps_bind; [apply R_stream; exact Hl | intros _].
  apply steps_bind; [apply R_millis | intro l'].
  apply IH; exact Hl.
Qed.

Lemma steps_sampleFor (fuel : nat) (ms : Z) (phase direction : string) :
  isLabel phase direction = true ->
  steps R (sampleFor fuel ms phase direction).
Proof.
  intro Hl. unfold sampleFor.
  apply steps_bind; [apply R_millis | intro t].
  apply steps_bind; [apply R_millis | intro l].
  apply steps_sampleUntil; exact Hl.
Qed.

#[local] Hint Extern 1 (steps _ (sampleFor _ _ _ _)) =>
  apply steps_sampleFor; reflexivity : steps.

Lemma steps_acquirePitch (left : nat) :
  forall pitch, steps R (acquirePitch left pitch).
Proof.
  induction left as [ | left IH]; intro pitch; cbn [acquirePitch]; steps_go.
Qed.

Lemma steps_getValidPitch : steps R getValidPitch.
Proof. apply steps_acquirePitch. Qed.

Lemma steps_finalSamples (n : nat) :
  forall lastDataTime, steps R (finalSamples n lastDataTime).
Proof.
  induction n as [ | n IH]; intro l; cbn [finalSamples]; steps_go.
Qed.

Lemma steps_warnIfBusSilent : steps R warnIfBusSilent.
Proof. unfold warnIfBusSilent. steps_go. Qed.

#[local] Hint Resolve steps_acquirePitch steps_getValidPitch
  steps_finalSamples steps_warnIfBusSilent : steps.

Ltac steps_loop IH :=
  repeat match goal with
         | |- context [Qltb ?a ?b] => destruct (Qltb a b)
         end;
  cbn [orb]; steps_go.

Lemma steps_zeroLoop (fuel : nat) :
  forall pitch, steps R (zeroLoop fuel pitch).
Proof.
  induction fuel as [ | fuel IH]; intro pitch; cbn [zeroLoop];
    steps_loop IH.
Qed.

Lemma steps_returnLoop (spins fuel : nat) :
  forall pitch, steps R (returnLoop spins fuel pitch).
Proof.
  induction fuel as [ | fuel IH]; intro pitch; cbn [returnLoop];
    steps_loop IH.
Qed.

Lemma steps_posFiveLoop (spins fuel : nat) :
  forall pitch, steps R (posFiveLoop spins fuel pitch).
Proof.
  induction fuel as [ | fuel IH]; intro pitch; cbn [posFiveLoop];
    steps_loop IH.
Qed.

Lemma steps_posTenLoop (spins fuel : nat) :
  forall pitch, steps R (posTenLoop spins fuel pitch).
Proof.
  induction fuel as [ | fuel IH]; intro pitch; cbn [posTenLoop];
    steps_loop IH.
Qed.

Lemma steps_negFiveLoop (spins fuel : nat) :
  forall pitch, steps R (negFiveLoop spins fuel pitch).
Proof.
  induction fuel as [ | fuel IH]; intro pitch; cbn [negFiveLoop];
    steps_loop IH.
Qed.

Lemma steps_negTenLoop (spins fuel : nat) :
  forall pitch, steps R (negTenLoop spins fuel pitch).
Proof.
  induction fuel as [ | fuel IH]; intro pitch; cbn [negTenLoop];
    steps_loop IH.
Qed.

#[local] Hint Resolve steps_zeroLoop steps_returnLoop steps_posFiveLoop
  steps_posTenLoop steps_negFiveLoop steps_negTenLoop : steps.

Lemma steps_adjustToZeroPitch (fuel : nat) : steps R (adjustToZeroPitch fuel).
Proof. unfold adjustToZeroPitch. steps_go. Qed.

Lemma steps_run (r : Routine) (fuel : nat) : steps R (run r fuel).
Proof.
  destruct r; cbn [run];
    unfold adjustToZeroPitch, returnToZeroPitch, adjustToPosFivePitch,
      adjustToPosTenPitch, adjustToNegFivePitch, adjustToNegTenPitch;
    steps_go.
Qed.

Lemma steps_setup (fuel : nat) : steps R (setup fuel).
Proof.
  unfold setup.
  pose proof (steps_adjustToZeroPitch fuel). steps_go.
Qed.

Lemma steps_loop_pass (fuel : nat) : steps R (loop fuel).
Proof.
  pose proof (steps_setup fuel).
  pose proof (steps_run PosFive fuel). pose proof (steps_run NegFive fuel).
  pose proof (steps_run PosTen fuel). pose proof (steps_run NegTen fuel).
  pose proof (steps_run ZeroAtEnd fuel).
  cbn [run] in *. unfold loop. steps_go.
Qed.

Lemma steps_loops (n fuel : nat) : steps R (loops n fuel).
Proof.
  pose proof (steps_loop_pass fuel).
  induction n as [ | n IH]; cbn [loops]; steps_go.
Qed.

Lemma steps_firmware (n fuel : nat) : steps R (firmware n fuel).
Proof.
  pose proof (steps_setup fuel). pose proof (steps_loops n fuel).
  unfold firmware. steps_go.
Qed.

End Steps.

(** ** Telemetry streamer, call by call *)

Lemma streamCSVData_run (phase direction : string) (w : World) :
  exists (canData : CANData) (w2 w' : World),
    readCANData (set_log (log w ++ [EvPoll])
                   (set_angle (snd (pollSrc (angle w))) w)) = Ret canData w2
    /\ streamCSVData phase direction w = Ret tt w'
    /\ serial w' =
         serial w ++
           (if in_envelope (fst (pollSrc (angle w)))
            then csvRecord (u32 (u32 (now w2) - startTime w)) canData
                           (fst (pollSrc (angle w))) phase direction
            else [])
    /\ serial1 w' =
         serial1 w ++
           (if in_envelope (fst (pollSrc (angle w)))
               && (u32 (u32 (now w2) - startTime w) mod 1000 <? 10)
            then statusLine (u32 (u32 (now w2) - startTime w)) canData
                            (fst (pollSrc (angle w))) phase direction
            else [])
    /\ angle w' = snd (pollSrc (angle w))
    /\ bus w' = tl (bus w)
    /\ lastValidData w' = canData
    /\ now w' = now w2 + tick
    /\ log w' = log w ++ [EvPoll]
    /\ pins w' = pins w
    /\ script w' = script w
    /\ testComplete w' = testComplete w.
Proof.
  unfold streamCSVData, bind at 1, readPitch.
  destruct (pollSrc (angle w)) as [pitch s] eqn:Epoll. cbn [fst snd].
  set (w1 := set_log (log w ++ [EvPoll]) (set_angle s w)).
  destruct (readCANData_cases w1)
    as (c & wc & Hrun & Hc & Hbus & _ & _ & _ & Hangle & Hlog & Hpins & Hser
        & Hser1 & Hstart & Hhw & Hcmd & Htc).
  exists c, wc.
  change (startTime w) with (startTime w1). rewrite <- Hstart.
  destruct (in_envelope pitch) eqn:Eenv; cbn [andb];
    [destruct (u32 (u32 (now wc) - startTime wc) mod 1000 <? 10) eqn:Emod | ];
    eexists; (split; [exact Hrun | ]);
    rewrite (bind_Ret _ _ _ _ _ Hrun);
    unfold bind, millis, get, print, println, print1, println1, put, ret;
    cbn -[Z.modulo u32 Z.ltb]; rewrite ?Emod;
    (split; [reflexivity | ]);
    cbn -[Z.modulo u32 Z.ltb]; rewrite Hser, Hser1;
    unfold csvRecord, statusLine; rewrite <- ?app_assoc;
    cbn -[Z.modulo u32 Z.ltb]; rewrite ?app_nil_r;
    unfold script; cbn -[Z.modulo u32 Z.ltb];
    rewrite Hstart, Hhw, Hcmd, Htc;
    repeat split; auto.
Qed.

(** X9.  A record carries the frame found at the same call.  When a call
    of [streamCSVData] finds a frame of payload length 6 or more pending
    and the sample is in the envelope, the record it writes has the decode
    of that very frame in its bus columns, and a time stamp taken after
    the clock read that the bus reader made. *)
Theorem record_carries_frame_of_same_call :
  forall (phase direction : string) (w : World) (f : CANFrame)
         (rest : list (option CANFrame)),
    bus w = Some f :: rest ->
    (6 <= len f)%nat ->
    in_envelope (fst (pollSrc (angle w))) = true ->
    exists w',
      streamCSVData phase direction w = Ret tt w'
      /\ serial w' =
           serial w ++
             csvRecord (u32 (u32 (now w + tick) - startTime w))
                       (storeFrame f noData)
                       (fst (pollSrc (angle w))) phase direction
      /\ lastValidData w' = storeFrame f noData
      /\ bus w' = rest.
Proof.
  intros phase direction w f rest Hbus Hlen Henv.
  destruct (streamCSVData_run phase direction w)
    as (c & w2 & w' & Hcan & Hrun & Hser & _ & _ & Hbus' & Hlast & _).
  rewrite (readCANData_frame _ f rest) in Hcan by (cbn; assumption).
  injection Hcan as Hc Hw2. exists w'. split; [exact Hrun | ].
  rewrite Hser, Henv, Hlast, Hbus', Hbus, <- Hc, <- Hw2.
  cbn [now set_lastValidData set_lastCanMsgTime set_now set_bus
       lastValidData set_log set_angle].
  rewrite (storeFrame_forgets f (lastValidData w) noData).
  repeat split; reflexivity.
Qed.

(** X10.  The status line accompanies a record.  Every call of
    [streamCSVData] returns, having taken one sample off the angle source
    and one entry off the bus whether it prints or not.  A status line
    goes to [Serial1] only together with a record on [Serial], carries the
    time stamp, the sample and the bus data of that record, and is written
    exactly when the time stamp modulo 1000 is below 10. *)
Theorem status_line_accompanies_record :
  forall (phase direction : string) (w : World),
    let pitch := fst (pollSrc (angle w)) in
    exists (elapsedTime : Z) (canData : CANData) (w' : World),
      streamCSVData phase direction w = Ret tt w'
      /\ 0 <= elapsedTime < 2 ^ 32
      /\ serial w' =
           serial w ++
             (if in_envelope pitch
              then csvRecord elapsedTime canData pitch phase direction
              else [])
      /\ serial1 w' =
           serial1 w ++
             (if in_envelope pitch && (elapsedTime mod 1000 <? 10)
              then statusLine elapsedTime canData pitch phase direction
              else [])
      /\ angle w' = snd (pollSrc (angle w))
      /\ bus w' = tl (bus w)
      /\ polls (log w') = S (polls (log w)).
Proof.
  intros phase direction w pitch.
  destruct (streamCSVData_run phase direction w)
    as (c & w2 & w' & _ & Hrun & Hser & Hser1 & Hangle & Hbus & _ & _
        & Hlog & _).
  exists (u32 (u32 (now w2) - startTime w)), c, w'.
  split; [exact Hrun | ].
  split; [unfold u32; apply Z.mod_pos_bound; lia | ].
  split; [exact Hser | ]. split; [exact Hser1 | ].
  split; [exact Hangle | ]. split; [exact Hbus | ].
  rewrite Hlog, polls_app. cbn. lia.
Qed.

(** ** What the whole firmware respects *)

Lemma post_steps {A} (R : World -> World -> Prop) (m : M A) (w : World)
      (Q : A -> World -> Prop) (S : World -> Prop) :
  steps R m ->
  (forall a w', R w w' -> Q a w') -> (forall w', R w w' -> S w') ->
  post m w Q S.
Proof.
  intros Hm HQ HS. unfold post. specialize (Hm w).
  destruct (m w); cbn [world_of] in Hm; auto.
Qed.

Lemma csvStream_app (out out' : list Tok) :
  csvStream out -> csvStream out' -> csvStream (out ++ out').
Proof.
  intros Hout Hout'. induction Hout' as [ | o _ IH | o t d p ph dir _ IH].
  - rewrite app_nil_r. exact Hout.
  - rewrite app_assoc. apply cs_header. exact IH.
  - rewrite app_assoc. apply cs_record; assumption.
Qed.

Lemma csvGrows_refl (w : World) : csvGrows w w.
Proof. exists []. rewrite app_nil_r. split; [reflexivity | constructor]. Qed.

Lemma csvGrows_trans (w1 w2 w3 : World) :
  csvGrows w1 w2 -> csvGrows w2 w3 -> csvGrows w1 w3.
Proof.
  intros (o1 & H1 & C1) (o2 & H2 & C2). exists (o1 ++ o2).
  rewrite H2, H1, app_assoc. split; [reflexivity | ].
  apply csvStream_app; assumption.
Qed.

Lemma csvGrows_same (w w' : World) : serial w' = serial w -> csvGrows w w'.
Proof.
  intro H. exists []. rewrite app_nil_r. split; [exact H | constructor].
Qed.

Lemma csvGrows_streamCSVData (phase direction : string) :
  isLabel phase direction = true ->
  steps csvGrows (streamCSVData phase direction).
Proof.
  intros Hl w.
  destruct (streamCSVData_run phase direction w)
    as (d & w2 & w' & _ & Hrun & Hser & _).
  rewrite Hrun. cbn [world_of]. eexists. split; [exact Hser | ].
  destruct (in_envelope (fst (pollSrc (angle w)))) eqn:Eenv;
    [ | constructor].
  apply (cs_record [] _ d _ phase direction);
    [constructor | unfold u32; apply Z.mod_pos_bound; lia | assumption ..].
Qed.

Lemma csvGrows_firmware (n fuel : nat) : steps csvGrows (firmware n fuel).
Proof.
  apply steps_firmware;
    try (intros; intro w; apply csvGrows_same; reflexivity).
  - exact csvGrows_refl.
  - exact csvGrows_trans.
  - intro w. apply csvGrows_same. unfold readPitch.
    destruct (pollSrc (angle w)). reflexivity.
  - exact csvGrows_streamCSVData.
  - intro w. exists [TStr csvHeader; TLn]. split; [reflexivity | ].
    apply (cs_header []). constructor.
Qed.

(** X11.  [Serial] carries CSV and nothing else.  Whatever the angle
    source and the bus deliver, and wherever the run is cut off, [setup]
    and any number of passes of [loop] only append to [Serial], and what
    they append is made of copies of the header line and of records whose
    pitch is in the envelope, whose time stamp is a 32-bit value and whose
    phase and direction are a pair of labels of the script. *)
Theorem serial_carries_only_csv :
  forall (n fuel : nat) (w : World),
    exists out,
      serial (world_of (firmware n fuel w)) = serial w ++ out
      /\ csvStream out.
Proof. intros n fuel w. exact (csvGrows_firmware n fuel w). Qed.

(** *** Frames: what a computation leaves alone *)

Ltac frame_prims :=
  first
    [ solve [ intros; reflexivity ]
    | solve [ intros ? ? ? ? ?; congruence ]
    | solve [ intros; intro; reflexivity ]
    | solve [ let w0 := fresh "w" in
              intro w0; unfold readPitch; destruct (pollSrc (angle w0));
              reflexivity ] ].

Lemma setup_keeps_telemetry (fuel : nat) :
  steps (fun w w' => telemetry w' = telemetry w) (setup fuel).
Proof. apply steps_setup; frame_prims. Qed.




Lemma setup_flags (fuel : nat) (w : World) :
  post (setup fuel) w
       (fun _ w' => startTime w' = u32 (now w' - tick)
                    /\ testComplete w' = false /\ headersWritten w' = false
                    /\ cmdIn w' = cmdIn w)
       (fun _ => True).
Proof.
  set (keeps := fun w w' : World =>
                  headersWritten w' = headersWritten w
                  /\ cmdIn w' = cmdIn w).
  assert (Hrefl : forall w : World, keeps w w) by (intro; split; reflexivity).
  assert (Htrans : forall w1 w2 w3 : World,
             keeps w1 w2 -> keeps w2 w3 -> keeps w1 w3)
    by (intros ? ? ? [? ?] [? ?]; split; congruence).
  assert (Hzero : steps keeps (adjustToZeroPitch fuel)).
  { apply steps_adjustToZeroPitch;
      try solve [ assumption
                | intros; intro; split; reflexivity
                | intro w0; unfold readPitch; destruct (pollSrc (angle w0));
                  split; reflexivity ]. }
  unfold setup. apply post_bind. apply post_put.
  apply post_bind.
  apply (post_steps keeps); [intro; split; reflexivity | | intros; exact I].
  intros _ w1 [Hh1 Hc1].
  apply post_bind.
  apply (post_steps keeps); [intro; split; reflexivity | | intros; exact I].
  intros _ w2 [Hh2 Hc2].
  apply post_bind.
  apply (post_steps keeps); [exact Hzero | | intros; exact I].
  intros _ w3 [Hh3 Hc3].
  apply post_bind.
  apply (post_steps keeps); [intro; split; reflexivity | | intros; exact I].
  intros _ w4 [Hh4 Hc4].
  unfold post, bind, millis, put. cbn.
  split; [f_equal; lia | ]. split; [reflexivity | ].
  cbn in Hh1, Hc1. split; congruence.
Qed.

(** X12.  The initial levelling is silent.  [setup] writes nothing on
    [Serial], takes nothing off the bus and leaves the telemetry cache and
    its time stamp as they are, wherever it ends; when it returns, the test
    is armed, the header is due, and the origin of the time stamps,
    [startTime], is the clock as read after the levelling. *)
Theorem initial_levelling_is_silent :
  forall (fuel : nat) (w : World),
    telemetry (world_of (setup fuel w)) = telemetry w
    /\ match setup fuel w with
       | Ret _ w' => startTime w' = u32 (now w' - tick)
                     /\ testComplete w' = false
                     /\ headersWritten w' = false
       | Spin _ => True
       end.
Proof.
  intros fuel w. split; [apply setup_keeps_telemetry | ].
  pose proof (setup_flags fuel w) as H. unfold post in H.
  destruct (setup fuel w); [tauto | exact I].
Qed.

(** *** The idle state *)

Lemma loop_idle (fuel : nat) (w : World) :
  testComplete w = true ->
  hd "" (cmdIn w) <> "reset" ->
  loop fuel w =
    Ret tt (set_log (log w ++ [EvDelay 100])
              (set_now (now w + 100) (set_cmdIn (tl (cmdIn w)) w))).
Proof.
  intros Hdone Hcmd. unfold loop, bind at 1, get. rewrite Hdone.
  unfold bind at 1. destruct (cmdIn w) as [ | command rest] eqn:Ecmd.
  - rewrite delay_run. f_equal. destruct w. cbn in *. subst. reflexivity.
  - cbn [hd] in Hcmd. apply String.eqb_neq in Hcmd.
    unfold bind at 1, put. rewrite Hcmd. rewrite delay_run. reflexivity.
Qed.

(** X13.  Idle until reset.  Once the test is complete, passes of [loop]
    that find no pending command line, or one that is not exactly
    [reset], do nothing but wait 100 ms each and consume the line: no
    motor command, no poll of the angle source or of the bus, nothing
    written on either sink; the test stays complete. *)
Theorem idle_until_reset :
  forall (n fuel : nat) (w : World),
    testComplete w = true ->
    Forall (fun command => command <> "reset") (firstn n (cmdIn w)) ->
    exists w',
      loops n fuel w = Ret tt w'
      /\ rig w' = rig w
      /\ testComplete w' = true
      /\ cmdIn w' = skipn n (cmdIn w)
      /\ now w' = now w + 100 * Z.of_nat n.
Proof.
  induction n as [ | n IH]; intros fuel w Hdone Hcmds.
  - exists w. cbn [loops skipn]. repeat split; try reflexivity; try assumption.
    cbn. lia.
  - cbn [loops].
    assert (Hhd : hd "" (cmdIn w) <> "reset").
    { destruct (cmdIn w) as [ | c rest]; [discriminate | ].
      cbn in Hcmds. inversion Hcmds; assumption. }
    rewrite (bind_Ret _ _ _ _ _ (loop_idle fuel w Hdone Hhd)).
    set (w1 := set_log _ _).
    destruct (IH fuel w1) as (w' & Hrun & Hrig & Hdone' & Hcmd' & Hnow).
    { exact Hdone. }
    { subst w1. cbn. destruct (cmdIn w) as [ | c rest];
        [destruct n; constructor | ].
      cbn in Hcmds. inversion Hcmds; assumption. }
    exists w'. split; [exact Hrun | ].
    split.
    { rewrite Hrig. subst w1. unfold rig. cbn. rewrite commands_app.
      cbn. rewrite app_nil_r. reflexivity. }
    split; [exact Hdone' | ].
    split.
    { rewrite Hcmd'. subst w1. cbn.
      destruct (cmdIn w); [destruct n | ]; reflexivity. }
    rewrite Hnow. subst w1. cbn [now set_log set_now set_cmdIn].
    rewrite Nat2Z.inj_succ. lia.
Qed.

(** *** A pass of the script *)









(** *** CAN bring-up *)

(** X23.  The CAN bring-up settles on the first rate that answers.  The
    rates are tried in the order 1 Mbps, 500, 250, 125 kbps, each at most
    once and none after a success, with a 100 ms wait before each
    alternate rate.  The bring-up always returns: with the status of the
    rate that answered, or, when none does, with the status of the last
    attempt, after which [setup] goes on all the same.  Nothing is written
    on [Serial] and no motor command is given. *)
Theorem can_bring_up_settles_on_first_rate :
  forall (begin : Baud -> Z) (w : World),
    exists w',
      canBringUp begin w =
        Ret (match find (fun rate => begin rate =? CAN_OK)
                        [CAN_1000KBPS; CAN_500KBPS; CAN_250KBPS; CAN_125KBPS]
             with
             | Some _ => CAN_OK
             | None => begin CAN_125KBPS
             end) w'
      /\ now w' =
           now w + 100 * Z.of_nat (failedFirst begin
                                     [CAN_1000KBPS; CAN_500KBPS; CAN_250KBPS])
      /\ commands (log w') = commands (log w)
      /\ polls (log w') = polls (log w)
      /\ rig w' = (angle w, bus w, pins w, commands (log w), serial w,
                   serial1 w', lastValidData w).
Proof.
  intros begin w. unfold canBringUp, tryRates, failedFirst, find.
  destruct (begin CAN_1000KBPS =? CAN_OK) eqn:E1;
    [ | destruct (begin CAN_500KBPS =? CAN_OK) eqn:E2;
        [ | destruct (begin CAN_250KBPS =? CAN_OK) eqn:E3;
            [ | destruct (begin CAN_125KBPS =? CAN_OK) eqn:E4 ] ] ];
    try (apply Z.eqb_eq in E1); try (apply Z.eqb_eq in E2);
    try (apply Z.eqb_eq in E3); try (apply Z.eqb_eq in E4);
    unfold bind, delay, trace, print1, println1, put, ret;
    rewrite ?E1, ?E2, ?E3, ?E4; cbn -[Z.mul Z.of_nat];
    rewrite ?E4; cbn -[Z.mul Z.of_nat];
    eexists; (split; [reflexivity | ]);
    unfold rig; cbn -[Z.mul Z.of_nat];
    rewrite ?commands_app, ?polls_app; cbn -[Z.mul Z.of_nat];
    rewrite ?app_nil_r;
    repeat split; try reflexivity; try lia.
Qed.

(** ** Pitch controller: how a routine ends *)

Ltac outcome_step IH :=
  first
    [ apply IH
    | lazymatch goal with
      | |- post (bind _ _) _ _ _ => apply post_bind
      | |- post (ret _) _ _ _ => apply post_ret; try discriminate
      | |- post spin _ _ _ => apply post_spin; exact I
      | |- post (if ?b then _ else _) _ _ _ => destruct b
      | |- post _ _ _ _ => apply post_any; [ intros | intros; exact I ]
      end ].

Lemma zeroLoop_outcome (fuel : nat) :
  forall pitch w,
    post (zeroLoop fuel pitch) w (fun r _ => r <> InitialReadFailed)
         (fun _ => True).
Proof.
  induction fuel as [ | fuel IH]; intros pitch w; cbn [zeroLoop];
    [repeat outcome_step False | repeat outcome_step IH].
Qed.

Lemma returnLoop_outcome (spins fuel : nat) :
  forall pitch w,
    post (returnLoop spins fuel pitch) w (fun r _ => r <> InitialReadFailed)
         (fun _ => True).
Proof.
  induction fuel as [ | fuel IH]; intros pitch w; cbn [returnLoop];
    [repeat outcome_step False | repeat outcome_step IH].
Qed.

Lemma posFiveLoop_outcome (spins fuel : nat) :
  forall pitch w,
    post (posFiveLoop spins fuel pitch) w (fun r _ => r <> InitialReadFailed)
         (fun _ => True).
Proof.
  induction fuel as [ | fuel IH]; intros pitch w; cbn [posFiveLoop];
    [repeat outcome_step False | repeat outcome_step IH].
Qed.

Lemma posTenLoop_outcome (spins fuel : nat) :
  forall pitch w,
    post (posTenLoop spins fuel pitch) w (fun r _ => r <> InitialReadFailed)
         (fun _ => True).
Proof.
  induction fuel as [ | fuel IH]; intros pitch w; cbn [posTenLoop];
    [repeat outcome_step False | repeat outcome_step IH].
Qed.

Lemma negFiveLoop_outcome (spins fuel : nat) :
  forall pitch w,
    post (negFiveLoop spins fuel pitch) w (fun r _ => r <> InitialReadFailed)
         (fun _ => True).
Proof.
  induction fuel as [ | fuel IH]; intros pitch w; cbn [negFiveLoop];
    [repeat outcome_step False | repeat outcome_step IH].
Qed.

Lemma negTenLoop_outcome (spins fuel : nat) :
  forall pitch w,
    post (negTenLoop spins fuel pitch) w (fun r _ => r <> InitialReadFailed)
         (fun _ => True).
Proof.
  induction fuel as [ | fuel IH]; intros pitch w; cbn [negTenLoop];
    [repeat outcome_step False | repeat outcome_step IH].
Qed.

Lemma post_stop_then (w : World) (Q : unit -> World -> Prop)
      (S : World -> Prop) :
  (forall w', last (map Some (fst (motor w'))) None = Some CmdStop
              /\ actuator (snd (motor w')) = Some Stopped -> Q tt w') ->
  post stopMotor w Q S.
Proof.
  intro H. destruct (stopMotor_run w) as (w' & Hrun & Hlog & Hpins & _).
  unfold post. rewrite Hrun. apply H. unfold motor. cbn [fst snd]. split.
  - rewrite Hlog, commands_app. cbn [commands]. apply last_snoc.
  - rewrite Hpins. reflexivity.
Qed.

Ltac ends_quiet :=
  repeat (apply post_bind;
          apply (post_quiet _ _
                   (fun mv => last (map Some (fst mv)) None = Some CmdStop
                              /\ actuator (snd mv) = Some Stopped));
          [ solve [ auto with quiet ] | assumption | intros | intros; exact I ]).

(** X16.  However a routine ends, the actuator is not left driving.  A
    routine that returns without a first sample has given no motor command
    and has not touched the pins; a routine that returns in any other
    way, band reached or signal lost, has given a stop as its last
    command and leaves the pins in the stop pattern, whatever the pins
    were when it was called. *)
Theorem routine_never_leaves_the_motor_driving :
  forall (r : Routine) (fuel : nat) (w : World),
    match run r fuel w with
    | Ret InitialReadFailed w' => motor w' = motor w
    | Ret _ w' => lastCommand (log w') = Some CmdStop
                  /\ actuator (pins w') = Some Stopped
    | Spin _ => True
    end.
Proof.
  intros r fuel w.
  assert (H : post (run r fuel) w
                (fun out w' =>
                   (out = InitialReadFailed /\ motor w' = motor w)
                   \/ (out <> InitialReadFailed
                       /\ last (map Some (fst (motor w'))) None = Some CmdStop
                       /\ actuator (snd (motor w')) = Some Stopped))
                (fun _ => True)).
  { destruct r; cbn [run];
      unfold adjustToZeroPitch, returnToZeroPitch, adjustToPosFivePitch,
        adjustToPosTenPitch, adjustToNegFivePitch, adjustToNegTenPitch;
      apply post_bind;
      (apply (post_quiet _ _ (fun mv => mv = motor w));
       [solve [auto with quiet] | reflexivity | | intros; exact I]);
      intros p w1 Hm1; destruct (rejected p).
    all: try (apply post_bind;
              (apply (post_quiet _ _ (fun mv => mv = motor w));
               [solve [auto with quiet] | exact Hm1 | | intros; exact I]);
              intros _ w2 Hm2; apply post_ret; left;
              split; [reflexivity | exact Hm2]).
    all: apply post_bind; (apply post_any; [intros _ w2 | intros; exact I]);
      apply post_bind; (apply post_any; [intros _ w3 | intros; exact I]);
      apply post_bind;
      (eapply post_weaken;
       [ first [ apply zeroLoop_outcome | apply returnLoop_outcome
               | apply posFiveLoop_outcome | apply posTenLoop_outcome
               | apply negFiveLoop_outcome | apply negTenLoop_outcome ]
       | cbv beta; intros out w4 Hout
       | intros; exact I ]);
      apply post_bind; apply post_stop_then; intros w5 Hstopped;
      ends_quiet; apply post_ret; right; tauto. }
  unfold post in H. destruct (run r fuel w) as [out w' | w']; [ | exact I].
  unfold motor, lastCommand in *. cbn [fst snd] in H.
  destruct out; destruct H as [[Hout Hm] | (Hout & Hlast & Hpins)];
    try discriminate; try (exfalso; apply Hout; reflexivity); auto.
Qed.

(** ** Pitch controller: which way it drives *)

Lemma logGrows_refl (w : World) : logGrows w w.
Proof. exists []. rewrite app_nil_r. reflexivity. Qed.

Lemma logGrows_trans (w1 w2 w3 : World) :
  logGrows w1 w2 -> logGrows w2 w3 -> logGrows w1 w3.
Proof.
  intros [l1 H1] [l2 H2]. exists (l1 ++ l2).
  rewrite H2, H1, app_assoc. reflexivity.
Qed.

Lemma logGrows_same (w w' : World) : log w' = log w -> logGrows w w'.
Proof. intro H. exists []. rewrite app_nil_r. exact H. Qed.

Lemma logGrows_millis : steps logGrows millis.
Proof. intro w. apply logGrows_same. reflexivity. Qed.

Lemma logGrows_delay (ms : Z) : steps logGrows (delay ms).
Proof. intro w. exists [EvDelay ms]. reflexivity. Qed.

Lemma logGrows_print1 (t : Tok) : steps logGrows (print1 t).
Proof. intro w. apply logGrows_same. reflexivity. Qed.

Lemma logGrows_println1 (t : Tok) : steps logGrows (println1 t).
Proof. intro w. apply logGrows_same. reflexivity. Qed.

Lemma logGrows_readPitch : steps logGrows readPitch.
Proof.
  intro w. unfold readPitch. destruct (pollSrc (angle w)).
  exists [EvPoll]. reflexivity.
Qed.

Lemma logGrows_moveMotorForward : steps logGrows moveMotorForward.
Proof. intro w. exists [EvMotor CmdForward]. reflexivity. Qed.

Lemma logGrows_moveMotorBackward : steps logGrows moveMotorBackward.
Proof. intro w. exists [EvMotor CmdBackward]. reflexivity. Qed.

Lemma logGrows_stopMotor : steps logGrows stopMotor.
Proof. intro w. exists [EvMotor CmdStop]. reflexivity. Qed.

Lemma logGrows_streamCSVData (phase direction : string) :
  steps logGrows (streamCSVData phase direction).
Proof.
  intro w.
  destruct (streamCSVData_run phase direction w)
    as (d & w2 & w' & _ & Hrun & _ & _ & _ & _ & _ & _ & Hlog & _).
  rewrite Hrun. exists [EvPoll]. exact Hlog.
Qed.

Ltac logGrows_prims :=
  first
    [ exact logGrows_refl | exact logGrows_trans | exact logGrows_millis
    | exact logGrows_delay | exact logGrows_print1 | exact logGrows_println1
    | exact logGrows_readPitch | exact logGrows_moveMotorForward
    | exact logGrows_moveMotorBackward | exact logGrows_stopMotor
    | intros; apply logGrows_streamCSVData
    | assumption ].

Lemma logGrows_sampleFor (fuel : nat) (ms : Z) (phase direction : string) :
  isLabel phase direction = true ->
  steps logGrows (sampleFor fuel ms phase direction).
Proof. intro Hl. apply steps_sampleFor; logGrows_prims. Qed.

Lemma logGrows_getValidPitch : steps logGrows getValidPitch.
Proof. apply steps_getValidPitch; logGrows_prims. Qed.

Lemma logGrows_finalSamples (n : nat) (lastDataTime : Z) :
  steps logGrows (finalSamples n lastDataTime).
Proof. apply steps_finalSamples; logGrows_prims. Qed.

Ltac logGrows_loop lem := apply lem; logGrows_prims.

Lemma logGrows_zeroLoop (fuel : nat) (pitch : Q) :
  steps logGrows (zeroLoop fuel pitch).
Proof. logGrows_loop steps_zeroLoop. Qed.

Lemma logGrows_returnLoop (spins fuel : nat) (pitch : Q) :
  steps logGrows (returnLoop spins fuel pitch).
Proof. logGrows_loop steps_returnLoop. Qed.

Lemma logGrows_posFiveLoop (spins fuel : nat) (pitch : Q) :
  steps logGrows (posFiveLoop spins fuel pitch).
Proof. logGrows_loop steps_posFiveLoop. Qed.

Lemma logGrows_posTenLoop (spins fuel : nat) (pitch : Q) :
  steps logGrows (posTenLoop spins fuel pitch).
Proof. logGrows_loop steps_posTenLoop. Qed.

Lemma logGrows_negFiveLoop (spins fuel : nat) (pitch : Q) :
  steps logGrows (negFiveLoop spins fuel pitch).
Proof. logGrows_loop steps_negFiveLoop. Qed.

Lemma logGrows_negTenLoop (spins fuel : nat) (pitch : Q) :
  steps logGrows (negTenLoop spins fuel pitch).
Proof. logGrows_loop steps_negTenLoop. Qed.

Ltac logGrows_go :=
  repeat lazymatch goal with
    | |- steps _ millis => exact logGrows_millis
    | |- steps _ (delay _) => exact (logGrows_delay _)
    | |- steps _ (print1 _) => exact (logGrows_print1 _)
    | |- steps _ (println1 _) => exact (logGrows_println1 _)
    | |- steps _ (put _) =>
        first [ exact (logGrows_print1 _) | exact (logGrows_println1 _) ]
    | |- steps _ stopMotor => exact logGrows_stopMotor
    | |- steps _ getValidPitch => exact logGrows_getValidPitch
    | |- steps _ (finalSamples _ _) => exact (logGrows_finalSamples _ _)
    | |- steps _ (zeroLoop _ _) => exact (logGrows_zeroLoop _ _)
    | |- steps _ (returnLoop _ _ _) => exact (logGrows_returnLoop _ _ _)
    | |- steps _ (posFiveLoop _ _ _) => exact (logGrows_posFiveLoop _ _ _)
    | |- steps _ (posTenLoop _ _ _) => exact (logGrows_posTenLoop _ _ _)
    | |- steps _ (negFiveLoop _ _ _) => exact (logGrows_negFiveLoop _ _ _)
    | |- steps _ (negTenLoop _ _ _) => exact (logGrows_negTenLoop _ _ _)
    | |- steps _ (sampleFor _ _ _ _) => apply logGrows_sampleFor; reflexivity
    | |- steps _ (ret _) => apply steps_ret; exact logGrows_refl
    | |- steps _ (if _ then _ else _) => apply steps_if
    | |- steps _ (bind _ _) =>
        apply steps_bind; [ exact logGrows_trans | | intro ]
    end.

Lemma first_command (w0 w1 w2 : World) (c : MotorCmd) :
  commands (log w1) = commands (log w0) ++ [c] ->
  logGrows w1 w2 ->
  exists rest, commands (log w2) = commands (log w0) ++ c :: rest.
Proof.
  intros H1 [l H2]. exists (commands l).
  rewrite H2, commands_app, H1, <- app_assoc. reflexivity.
Qed.

Lemma drives_after {A B} (m : M A) (k : A -> M B) (w w1 : World) (a : A)
      (c : MotorCmd) :
  m w = Ret a w1 ->
  commands (log w1) = commands (log w) ++ [c] ->
  steps logGrows (k a) ->
  exists rest,
    commands (log (world_of (bind m k w))) = commands (log w) ++ c :: rest.
Proof.
  intros Hm Hc Hk. rewrite (bind_Ret _ _ _ _ _ Hm).
  exact (first_command w w1 _ c Hc (Hk w1)).
Qed.

Lemma forward_first (t : Tok) (w : World) :
  exists w1, bind (println1 t) (fun _ => moveMotorForward) w = Ret tt w1
             /\ commands (log w1) = commands (log w) ++ [CmdForward].
Proof.
  eexists. split; [reflexivity | ]. cbn. rewrite commands_app. reflexivity.
Qed.

Lemma backward_first (t : Tok) (w : World) :
  exists w1, bind (println1 t) (fun _ => moveMotorBackward) w = Ret tt w1
             /\ commands (log w1) = commands (log w) ++ [CmdBackward].
Proof.
  eexists. split; [reflexivity | ]. cbn. rewrite commands_app. reflexivity.
Qed.

Ltac decide_Qltb :=
  repeat match goal with
         | |- context [Qltb ?a ?b] =>
             let E := fresh "E" in
             destruct (Qltb a b) eqn:E;
             [ apply Qltb_lt in E | apply Qltb_ge in E ];
             try (exfalso; lra)
         end.

Ltac drive_first :=
  cbn [orb];
  lazymatch goal with
  | |- context [moveMotorForward] =>
      lazymatch goal with
      | |- context [bind (bind (println1 ?t) _) _ ?w] =>
          destruct (forward_first t w) as (?w1 & ?Hm & ?Hc)
      end
  | |- context [moveMotorBackward] =>
      lazymatch goal with
      | |- context [bind (bind (println1 ?t) _) _ ?w] =>
          destruct (backward_first t w) as (?w1 & ?Hm & ?Hc)
      end
  end;
  eapply drives_after; [ eassumption | eassumption | logGrows_go ].

Lemma zeroLoop_drives (fuel : nat) (pitch : Q) (w : World) :
  ((0 + 0.1 < pitch)%Q ->
   exists rest, commands (log (world_of (zeroLoop (S fuel) pitch w))) =
                  commands (log w) ++ CmdForward :: rest)
  /\ ((pitch < 0 - 0.1)%Q ->
      exists rest, commands (log (world_of (zeroLoop (S fuel) pitch w))) =
                     commands (log w) ++ CmdBackward :: rest).
Proof.
  pose proof (Qle_Qabs pitch) as Habs.
  pose proof (Qle_Qabs (- pitch)) as Habs'. rewrite Qabs_opp in Habs'.
  split; intro Hp; cbn [zeroLoop]; decide_Qltb; drive_first.
Qed.

Lemma returnLoop_drives (spins fuel : nat) (pitch : Q) (w : World) :
  ((0 + 0.1 < pitch)%Q ->
   exists rest,
     commands (log (world_of (returnLoop spins (S fuel) pitch w))) =
       commands (log w) ++ CmdForward :: rest)
  /\ ((pitch < 0 - 0.1)%Q ->
      exists rest,
        commands (log (world_of (returnLoop spins (S fuel) pitch w))) =
          commands (log w) ++ CmdBackward :: rest).
Proof.
  pose proof (Qle_Qabs pitch) as Habs.
  pose proof (Qle_Qabs (- pitch)) as Habs'. rewrite Qabs_opp in Habs'.
  split; intro Hp; cbn [returnLoop]; decide_Qltb; drive_first.
Qed.

Lemma posFiveLoop_drives (spins fuel : nat) (pitch : Q) (w : World) :
  ((5 + 0.1 < pitch)%Q ->
   exists rest,
     commands (log (world_of (posFiveLoop spins (S fuel) pitch w))) =
       commands (log w) ++ CmdForward :: rest)
  /\ ((pitch < 5 - 0.1)%Q ->
      exists rest,
        commands (log (world_of (posFiveLoop spins (S fuel) pitch w))) =
          commands (log w) ++ CmdBackward :: rest).
Proof.
  split; intro Hp; cbn [posFiveLoop]; decide_Qltb; drive_first.
Qed.

Lemma posTenLoop_drives (spins fuel : nat) (pitch : Q) (w : World) :
  ((10 + 0.1 < pitch)%Q ->
   exists rest,
     commands (log (world_of (posTenLoop spins (S fuel) pitch w))) =
       commands (log w) ++ CmdForward :: rest)
  /\ ((pitch < 10 - 0.1)%Q ->
      exists rest,
        commands (log (world_of (posTenLoop spins (S fuel) pitch w))) =
          commands (log w) ++ CmdBackward :: rest).
Proof.
  split; intro Hp; cbn [posTenLoop]; decide_Qltb; drive_first.
Qed.

Lemma negFiveLoop_drives (spins fuel : nat) (pitch : Q) (w : World) :
  ((-5 + 0.1 < pitch)%Q ->
   exists rest,
     commands (log (world_of (negFiveLoop spins (S fuel) pitch w))) =
       commands (log w) ++ CmdForward :: rest)
  /\ ((pitch < -5 - 0.1)%Q ->
      exists rest,
        commands (log (world_of (negFiveLoop spins (S fuel) pitch w))) =
          commands (log w) ++ CmdBackward :: rest).
Proof.
  split; intro Hp; cbn [negFiveLoop]; decide_Qltb; drive_first.
Qed.

Lemma negTenLoop_drives (spins fuel : nat) (pitch : Q) (w : World) :
  ((-10 + 0.1 < pitch)%Q ->
   exists rest,
     commands (log (world_of (negTenLoop spins (S fuel) pitch w))) =
       commands (log w) ++ CmdForward :: rest)
  /\ ((pitch < -10 - 0.1)%Q ->
      exists rest,
        commands (log (world_of (negTenLoop spins (S fuel) pitch w))) =
          commands (log w) ++ CmdBackward :: rest).
Proof.
  split; intro Hp; cbn [negTenLoop]; decide_Qltb; drive_first.
Qed.

Lemma grows_bind {A B} (m : M A) (k : A -> M B) (w : World) :
  (forall a, steps logGrows (k a)) ->
  logGrows (world_of (m w)) (world_of (bind m k w)).
Proof.
  intro Hk. rewrite world_of_bind.
  destruct (m w) as [a w1 | w1]; [apply Hk | apply logGrows_refl].
Qed.

Lemma first_command_kept (w0 w1 w2 : World) (c : MotorCmd) :
  (exists rest, commands (log w1) = commands (log w0) ++ c :: rest) ->
  logGrows w1 w2 ->
  exists rest, commands (log w2) = commands (log w0) ++ c :: rest.
Proof.
  intros [rest H1] [l H2]. exists (rest ++ commands l).
  rewrite H2, commands_app, H1, <- app_assoc. reflexivity.
Qed.

Lemma bind_put {B} (upd : World -> World) (k : unit -> M B) (w : World) :
  bind (put upd) k w = k tt (upd w).
Proof. reflexivity. Qed.

(** X17.  The first pulse drives toward the target.  When the first
    sample is accepted and lies above the band of a routine, the first
    motor command of the routine is a forward drive, which the firmware
    takes to lower the table; when it lies below the band, it is a
    backward drive.  This holds for the six routines alike, for every
    budget that lets the loop start, and wherever the run ends. *)
Theorem first_pulse_drives_toward_target :
  forall (r : Routine) (fuel : nat) (w : World),
    let pitch := fst (pollSrc (angle w)) in
    rejected pitch = false ->
    ((target r + 0.1 < pitch)%Q ->
     exists rest,
       commands (log (world_of (run r (S fuel) w))) =
         commands (log w) ++ CmdForward :: rest)
    /\ ((pitch < target r - 0.1)%Q ->
        exists rest,
          commands (log (world_of (run r (S fuel) w))) =
            commands (log w) ++ CmdBackward :: rest).
Proof.
  intros r fuel w pitch Hok.
  pose proof (getValidPitch_first w Hok) as Hfirst. fold pitch in Hfirst.
  set (w1 := set_log _ _) in Hfirst.
  assert (Hcmd : commands (log w1) = commands (log w)).
  { subst w1. cbn. rewrite commands_app. cbn. apply app_nil_r. }
  rewrite <- Hcmd.
  destruct r; cbn [run target];
    unfold adjustToZeroPitch, returnToZeroPitch, adjustToPosFivePitch,
      adjustToPosTenPitch, adjustToNegFivePitch, adjustToNegTenPitch;
    rewrite (bind_Ret _ _ _ _ _ Hfirst), Hok;
    unfold print1, println1; rewrite !bind_put;
    lazymatch goal with
    | |- context [bind _ _ ?w3] =>
        change (commands (log w1)) with (commands (log w3))
    end;
    (split; intro Hp;
     (refine (first_command_kept _ _ _ _ _ (grows_bind _ _ _ _));
      [ first [ apply zeroLoop_drives | apply returnLoop_drives
              | apply posFiveLoop_drives | apply posTenLoop_drives
              | apply negFiveLoop_drives | apply negTenLoop_drives ];
        exact Hp
      | intro; logGrows_go ])).
Qed.

(** ** Acquisition of a sample *)

Lemma polled_S (k : nat) (s : Src) :
  polled k (snd (pollSrc s)) = polled (S k) s.
Proof.
  change (snd (pollSrc s)) with (polled 1 s).
  rewrite polled_add, Nat.add_1_r. reflexivity.
Qed.

Lemma acquirePitch_finds (k : nat) :
  forall (left : nat) (pitch : Q) (w : World),
    rejected pitch = true ->
    (k < left)%nat ->
    (forall j, (j < k)%nat ->
               rejected (fst (pollSrc (polled j (angle w)))) = true) ->
    rejected (fst (pollSrc (polled k (angle w)))) = false ->
    exists w',
      acquirePitch left pitch w = Ret (fst (pollSrc (polled k (angle w)))) w'
      /\ log w' = log w ++ attempts k ++ [EvPoll]
      /\ now w' = now w + 10 * Z.of_nat k
      /\ angle w' = polled (S k) (angle w)
      /\ pins w' = pins w /\ serial w' = serial w
      /\ serial1 w' = serial1 w /\ bus w' = bus w.
Proof.
  induction k as [ | k IH]; intros left pitch w Hrej Hlt Hbad Hgood;
    (destruct left as [ | left]; [lia | ]);
    cbn [acquirePitch]; rewrite Hrej; unfold bind at 1, readPitch.
  - change (polled 0 (angle w)) with (angle w) in *.
    change (polled 1 (angle w)) with (snd (pollSrc (angle w))).
    destruct (pollSrc (angle w)) as [p s]. cbn [fst snd] in *.
    rewrite Hgood. eexists. split; [reflexivity | ].
    cbn. rewrite Z.add_0_r. repeat split; reflexivity.
  - pose proof (Hbad 0%nat ltac:(lia)) as H0.
    change (polled 0 (angle w)) with (angle w) in H0.
    destruct (pollSrc (angle w)) as [p s] eqn:Epoll. cbn [fst snd] in *.
    rewrite H0. rewrite (bind_Ret _ _ _ _ _ (delay_run 10 _)).
    set (w1 := set_log _ (set_now _ _)).
    assert (Hangle : angle w1 = snd (pollSrc (angle w)))
      by (rewrite Epoll; reflexivity).
    destruct (IH left p w1 H0 ltac:(lia)) as (w' & Hrun & Hlog & Hnow & Ha
                                              & Hpins & Hser & Hser1 & Hbus).
    + intros j Hj. rewrite Hangle, polled_S. apply Hbad. lia.
    + rewrite Hangle, polled_S. exact Hgood.
    + rewrite Hangle, !polled_S in *. exists w'.
      split; [exact Hrun | ].
      split.
      { rewrite Hlog. subst w1. cbn [log set_log set_now set_angle attempts].
        rewrite <- !app_assoc. reflexivity. }
      split.
      { rewrite Hnow. subst w1. cbn [now set_log set_now set_angle].
        rewrite Nat2Z.inj_succ. lia. }
      split; [exact Ha | ].
      subst w1. cbn in Hpins, Hser, Hser1, Hbus. auto.
Qed.

(** X18.  The first accepted sample is the one returned.  If the first
    [k] samples of the source are rejected and the next one is accepted,
    with [k] below 1000, [getValidPitch] returns that sample after
    [k + 1] polls and [k] waits of 10 ms, without a motor command and
    without touching the bus or the sinks. *)
Theorem first_accepted_sample_is_returned :
  forall (k : nat) (w : World),
    (k < 1000)%nat ->
    (forall j, (j < k)%nat ->
               rejected (fst (pollSrc (polled j (angle w)))) = true) ->
    rejected (fst (pollSrc (polled k (angle w)))) = false ->
    exists w',
      getValidPitch w = Ret (fst (pollSrc (polled k (angle w)))) w'
      /\ polls (log w') = (polls (log w) + S k)%nat
      /\ now w' = now w + 10 * Z.of_nat k
      /\ angle w' = polled (S k) (angle w)
      /\ motor w' = motor w
      /\ serial w' = serial w /\ serial1 w' = serial1 w /\ bus w' = bus w.
Proof.
  intros k w Hk Hbad Hgood.
  destruct (acquirePitch_finds k maxTimeout NO_PITCH w eq_refl Hk Hbad Hgood)
    as (w' & Hrun & Hlog & Hnow & Ha & Hpins & Hser & Hser1 & Hbus).
  exists w'. split; [exact Hrun | ].
  split.
  { rewrite Hlog, !polls_app, attempts_polls. cbn. lia. }
  split; [exact Hnow | ]. split; [exact Ha | ].
  split.
  { unfold motor. rewrite Hlog, Hpins, !commands_app, attempts_commands.
    cbn. rewrite app_nil_r. reflexivity. }
  auto.
Qed.

Lemma acquirePitch_bounded (left : nat) :
  forall (pitch : Q) (w : World),
    rejected pitch = true ->
    exists (p : Q) (w' : World) (k : nat),
      acquirePitch left pitch w = Ret p w'
      /\ (k <= left)%nat
      /\ angle w' = polled k (angle w)
      /\ polls (log w') = (polls (log w) + k)%nat
      /\ commands (log w') = commands (log w)
      /\ pins w' = pins w
      /\ now w <= now w' <= now w + 10 * Z.of_nat left
      /\ (rejected p = true ->
          k = left /\ now w' = now w + 10 * Z.of_nat left).
Proof.
  induction left as [ | left IH]; intros pitch w Hrej; cbn [acquirePitch].
  - exists pitch, w, 0%nat. split; [reflexivity | ].
    repeat split; try reflexivity; try lia.
  - rewrite Hrej. unfold bind at 1, readPitch.
    destruct (pollSrc (angle w)) as [p s] eqn:Epoll.
    destruct (rejected p) eqn:Ep.
    + rewrite (bind_Ret _ _ _ _ _ (delay_run 10 _)).
      set (w1 := set_log _ (set_now _ _)).
      destruct (IH p w1 Ep)
        as (p' & w' & k & Hrun & Hk & Ha & Hpolls & Hcmd & Hpins & Hnow
            & Hall).
      exists p', w', (S k). split; [exact Hrun | ].
      split; [lia | ].
      split.
      { rewrite Ha. subst w1. cbn [angle set_log set_now set_angle].
        replace s with (snd (pollSrc (angle w))) by (rewrite Epoll; reflexivity).
        apply polled_S. }
      split.
      { rewrite Hpolls. subst w1. cbn [log set_log set_now set_angle].
        rewrite !polls_app. cbn. lia. }
      split.
      { rewrite Hcmd. subst w1. cbn [log set_log set_now set_angle].
        rewrite !commands_app. cbn. rewrite !app_nil_r. reflexivity. }
      split; [rewrite Hpins; reflexivity | ].
      subst w1. cbn [now set_log set_now set_angle] in Hnow, Hall.
      rewrite Nat2Z.inj_succ.
      split; [lia | ]. intro Hp'. destruct (Hall Hp'). split; lia.
    + exists p, (set_log (log w ++ [EvPoll]) (set_angle s w)), 1%nat.
      split; [reflexivity | ]. split; [lia | ].
      split.
      { cbn. rewrite Epoll. reflexivity. }
      split; [cbn; rewrite polls_app; reflexivity | ].
      split; [cbn; rewrite commands_app; cbn; apply app_nil_r | ].
      split; [reflexivity | ].
      cbn [now set_log set_angle]. rewrite Nat2Z.inj_succ.
      split; [lia | ]. intro Hp'. congruence.
Qed.

(** X19.  An acquisition always ends.  Whatever the source delivers,
    [getValidPitch] returns after at most 1000 polls and at most 10 s of
    waiting, without a motor command; if what it returns is a rejected
    value, then exactly 1000 polls were made and exactly 10 s waited. *)
Theorem acquisition_always_ends :
  forall w : World,
    exists (pitch : Q) (w' : World) (k : nat),
      getValidPitch w = Ret pitch w'
      /\ (k <= 1000)%nat
      /\ angle w' = polled k (angle w)
      /\ polls (log w') = (polls (log w) + k)%nat
      /\ motor w' = motor w
      /\ now w <= now w' <= now w + 10000
      /\ (rejected pitch = true -> k = 1000%nat /\ now w' = now w + 10000).
Proof.
  intro w.
  destruct (acquirePitch_bounded maxTimeout NO_PITCH w eq_refl)
    as (p & w' & k & Hrun & Hk & Ha & Hpolls & Hcmd & Hpins & Hnow & Hall).
  exists p, w', k. split; [exact Hrun | ].
  unfold maxTimeout in *. change (10 * Z.of_nat 1000) with 10000 in *.
  repeat split; try assumption; try lia; try (apply Hall; assumption).
  unfold motor. rewrite Hcmd, Hpins. reflexivity.
Qed.

(** ** Clock wrap-around *)

(** X20.  A window that straddles the wrap of the clock is lost.  The
    sampling windows end at [start + ms] computed in 32 bits; when that
    sum wraps while the clock has not, the loop test fails at its first
    evaluation: the window returns after three clock reads, with no
    sample taken and no record written, however long [ms] is. *)
Theorem window_is_lost_at_clock_wrap :
  forall (fuel : nat) (ms : Z) (phase direction : string) (w : World),
    0 <= tick -> 0 <= now w -> now w + 2 * tick < 2 ^ 32 ->
    0 <= ms < 2 ^ 32 -> 2 ^ 32 <= now w + ms ->
    exists w',
      sampleFor (S fuel) ms phase direction w = Ret tt w'
      /\ now w' = now w + 3 * tick
      /\ angle w' = angle w /\ log w' = log w
      /\ serial w' = serial w /\ bus w' = bus w.
Proof.
  intros fuel ms phase direction w Htick Hnow Hlate Hms Hwrap.
  unfold sampleFor. rewrite (bind_Ret _ _ _ _ _ (millis_run w)).
  rewrite (bind_Ret _ _ _ _ _ (millis_run _)).
  rewrite sampleUntil_exit.
  - eexists. split; [reflexivity | ]. cbn [now set_now angle log serial bus].
    repeat split; try reflexivity. lia.
  - cbn [now set_now]. rewrite (u32_small (now w)) by lia.
    rewrite (u32_small (now w + tick + tick)) by lia.
    unfold u32.
    replace (now w + ms) with ((now w + ms - 2 ^ 32) + 1 * 2 ^ 32) by lia.
    rewrite Z.mod_add by lia. rewrite Z.mod_small by lia. lia.
Qed.

(** X21.  The bus watchdog measures silence across the wrap.  The test
    [millis() - lastCanMsgTime > 60000] is taken in 32 bits, and gives
    the true silence whenever that is below 2^32 ms, whether or not the
    clock has wrapped since the stamp.  A warning goes to [Serial1] alone
    and re-stamps the watchdog with the next clock read. *)
Theorem watchdog_measures_silence_across_wrap :
  forall (w : World) (last : Z),
    lastCanMsgTime w = u32 last ->
    0 <= now w - last < 2 ^ 32 ->
    exists w',
      warnIfBusSilent w = Ret tt w'
      /\ serial w' = serial w
      /\ motor w' = motor w
      /\ serial1 w' =
           serial1 w ++
             (if 60000 <? now w - last
              then [text "# WARNING: No CAN messages received in the last 60 seconds.";
                    TLn]
              else [])
      /\ lastCanMsgTime w' =
           (if 60000 <? now w - last then u32 (now w + tick) else u32 last)
      /\ now w' =
           (if 60000 <? now w - last then now w + tick + tick
            else now w + tick).
Proof.
  intros w last Hstamp Hsilence.
  unfold warnIfBusSilent. rewrite (bind_Ret _ _ _ _ _ (millis_run w)).
  unfold bind at 1, get. cbn [lastCanMsgTime set_now]. rewrite Hstamp.
  assert (Hmeasure : u32 (u32 (now w) - u32 last) = now w - last).
  { unfold u32. rewrite <- Zminus_mod. apply Z.mod_small. exact Hsilence. }
  rewrite Hmeasure.
  destruct (60000 <? now w - last).
  - eexists. split; [reflexivity | ]. cbn. repeat split; reflexivity.
  - eexists. split; [reflexivity | ]. cbn. rewrite app_nil_r.
    repeat split; try reflexivity. exact Hstamp.
Qed.

End Rig.

(** * Instances on the test bench *)

Lemma stepSource_polled (k n : nat) :
  polled nat stepSource k n = (k + n)%nat.
Proof.
  induction k as [ | k IH]; [reflexivity | ].
  change (polled nat stepSource (S k) n)
    with (snd (stepSource (polled nat stepSource k n))).
  rewrite IH. reflexivity.
Qed.

Arguments Ret {Src A} a w.
Arguments Spin {Src A} w.
Arguments powerOn {Src} s frames commands.
Arguments log {Src} w.
Arguments pins {Src} w.
Arguments now {Src} w.
Arguments bus {Src} w.
Arguments angle {Src} w.
Arguments serial {Src} w.
Arguments serial1 {Src} w.
Arguments lastValidData {Src} w.
Arguments world_of {Src A} r.

Lemma decode_scales_and_envelope_rejects_witness :
  (List.length frame45 = 10%nat /\ [x00] <> []) /\
  WT901.readPitch (frame45 ++ [x00]) = ((inject_Z 8192 / 32768 * 180)%Q, [x00])
  /\ rejected 45 = true
  /\ exists w',
      streamCSVData _ wt901Source 1 "Stationary1" "None"
                    (powerOn ([], [frame45 ++ [x00]]) [] []) = Ret tt w'
      /\ serial w' = [].
Proof.
  assert (Hout : ~ (-25 <= 45 /\ 45 <= 25)%Q).
  { intros [_ H]. revert H. unfold Qle. simpl. lia. }
  assert (Hout' : ~ (-25 <= inject_Z 8192 / 32768 * 180
                     /\ inject_Z 8192 / 32768 * 180 <= 25)%Q).
  { intros [_ H]. revert H. unfold Qle. simpl. lia. }
  destruct (decode_scales_and_envelope_rejects _ wt901Source 1)
    as (Hdecode & Hguard & Hstream & _).
  split; [split; [reflexivity | discriminate] | ].
  split.
  - apply (Hdecode frame45 [x00]);
      [reflexivity | reflexivity | reflexivity | discriminate].
  - split; [exact (proj1 (Hguard 45%Q Hout)) | ].
    exact (Hstream (powerOn ([], [frame45 ++ [x00]]) [] [])
                   "Stationary1" "None" Hout').
Defined.

Lemma timeout_after_1000_attempts_witness :
  (forall s, rejected (fst (deadSource s)) = true) /\
  exists w',
    run unit deadSource 1 PosFive 0 (powerOn tt [] []) =
      Ret InitialReadFailed w'
    /\ log w' = attempts 1000
    /\ polls (log w') = 1000%nat
    /\ commands (log w') = []
    /\ actuator (pins w') = Some Stopped.
Proof.
  assert (Hdead : forall s, rejected (fst (deadSource s)) = true)
    by (intro s; reflexivity).
  split; [exact Hdead | ].
  destruct (timeout_after_1000_attempts unit deadSource 1 Hdead PosFive 0%nat
              (powerOn tt [] []))
    as (w' & Hrun & Hlog & Hpolls & _ & Hcmds & _ & Hstop).
  exists w'. split; [exact Hrun | ]. split; [exact Hlog | ].
  split; [exact Hpolls | ]. split; [exact Hcmds | ].
  apply Hstop. reflexivity.
Defined.

Lemma converges_in_one_pulse_witness :
  (1 <= 1 <= 25 /\ (1000 < 1001)%nat) /\
  exists w',
    adjustToPosTenPitch nat stepSource 1 1001 (powerOn 0%nat [] []) =
      Ret (Reached 10.05) w'
    /\ commands (log w') = [CmdBackward; CmdStop; CmdStop]
    /\ actuator (pins w') = Some Stopped.
Proof.
  split; [lia | ].
  destruct (converges_in_one_pulse nat stepSource 1 1001
              (powerOn 0%nat [] []))
    as (w' & Hrun & Hcmds & _ & Hstop).
  - lia.
  - lia.
  - simpl. lia.
  - simpl. lia.
  - intros k Hk. rewrite stepSource_polled. unfold stepSource. simpl fst.
    destruct (Nat.ltb_spec (k + 0) 3); [reflexivity | lia].
  - intros k Hk. rewrite stepSource_polled. unfold stepSource. simpl fst.
    destruct (Nat.ltb_spec (k + 0) 3); [lia | reflexivity].
  - exists w'. split; [exact Hrun | ]. split; [exact Hcmds | exact Hstop].
Defined.

Lemma every_target_uses_tolerance_0_1_witness :
  (rejected 0.05 = false /\ (Qabs (0.05 - target ZeroAtStart) <= 0.1)%Q) /\
  exists w',
    run (list Q) replaySource 1 ZeroAtStart 0 (powerOn [0.05%Q] [] []) =
      Ret (Reached 0.05) w'
    /\ commands (log w') = [CmdStop].
Proof.
  assert (Hband : (Qabs (0.05 - target ZeroAtStart) <= 0.1)%Q)
    by (unfold Qle; simpl; lia).
  split; [split; [reflexivity | exact Hband] | ].
  destruct (every_target_uses_tolerance_0_1 (list Q) replaySource 1
              ZeroAtStart 0%nat (powerOn [0.05%Q] [] [])) as [_ Haccept].
  destruct (Haccept 0.05%Q _ (getValidPitch_first (list Q) replaySource
                                (powerOn [0.05%Q] [] []) eq_refl)
                    eq_refl Hband)
    as (w' & Hrun & Hcmds).
  exists w'. split; [exact Hrun | exact Hcmds].
Defined.

Lemma external_temperature_sentinels_witness :
  (6 <= len frameOpen)%nat /\
  exists d w',
    readCANData unit 1 (powerOn tt [Some frameOpen] []) = Ret d w'
    /\ externalTemp d = "Open Circuit" /\ externalSensorValid d = false.
Proof.
  split; [simpl; lia | ].
  destruct (external_temperature_sentinels unit 1
              (powerOn tt [Some frameOpen] []) frameOpen [] eq_refl)
    as (d & w' & Hrun & _ & _ & _ & Hopen & _).
  - simpl. lia.
  - exists d, w'. split; [exact Hrun | ]. apply Hopen. reflexivity.
Defined.

Lemma cache_update_all_or_nothing_witness :
  ((len frameShort < 6)%nat /\ (6 <= len frameOpen)%nat) /\
  lastValidData
    (world_of (readCANData unit 1 (powerOn tt [Some frameShort] []))) =
    noData
  /\ exists d,
      fuelLevel d = "300" /\ internalTemp d = "25"
      /\ lastValidData
           (world_of (readCANData unit 1 (powerOn tt [Some frameOpen] []))) = d.
Proof.
  split; [simpl; lia | ]. split.
  - apply (proj1 (cache_update_all_or_nothing unit 1 frameShort)
                 ltac:(simpl; lia) (powerOn tt [Some frameShort] []) []).
    reflexivity.
  - destruct (proj2 (cache_update_all_or_nothing unit 1 frameOpen)
                    ltac:(simpl; lia)) as (d & Hfuel & Htemp & Hall).
    exists d. split; [exact Hfuel | ]. split; [exact Htemp | ].
    apply (Hall (powerOn tt [Some frameOpen] []) []). reflexivity.
Defined.

Lemma readPitch_consumption_witness :
  ((List.length [x55; x53; x00] < 11)%nat
   /\ (11 <= List.length misaligned)%nat
   /\ (11 <= List.length otherFrame)%nat) /\
  WT901.readPitch [x55; x53; x00] = (NO_PITCH, [x55; x53; x00])
  /\ WT901.readPitch misaligned = (NO_PITCH, frame45 ++ [x00])
  /\ WT901.readPitch otherFrame = (NO_PITCH, [x00; x55]).
Proof.
  split; [simpl; lia | ]. split; [ | split].
  - apply (proj1 (readPitch_consumption [x55; x53; x00])). simpl. lia.
  - apply (proj1 (proj2 (readPitch_consumption misaligned)));
      [simpl; lia | discriminate].
  - apply (proj2 (proj2 (readPitch_consumption otherFrame)));
      [simpl; lia | reflexivity | discriminate].
Defined.

Lemma stream_silent_on_invalid_sample_witness :
  ((30 == NO_PITCH \/ 30 < -25 \/ 25 < 30)%Q /\ (-25 <= 12.5 /\ 12.5 <= 25)%Q)
  /\ (exists w',
         streamCSVData (list Q) replaySource 1 "Stationary1" "None"
                       (powerOn [30%Q] [] []) = Ret tt w'
         /\ serial w' = [] /\ serial1 w' = [])
  /\ (exists w' elapsedTime canData,
         streamCSVData (list Q) replaySource 1 "Stationary1" "None"
                       (powerOn [12.5%Q] [] []) = Ret tt w'
         /\ serial w' =
              csvRecord elapsedTime canData 12.5 "Stationary1" "None").
Proof.
  assert (Hbad : (30 == NO_PITCH \/ 30 < -25 \/ 25 < 30)%Q)
    by (right; right; unfold Qlt; simpl; lia).
  assert (Hok : (-25 <= 12.5 /\ 12.5 <= 25)%Q)
    by (split; unfold Qle; simpl; lia).
  split; [split; [exact Hbad | exact Hok] | ]. split.
  - exact (proj1 (stream_silent_on_invalid_sample (list Q) replaySource 1
                    "Stationary1" "None" (powerOn [30%Q] [] [])) Hbad).
  - destruct (proj1 (proj2 (stream_silent_on_invalid_sample
                              (list Q) replaySource 1 "Stationary1" "None"
                              (powerOn [12.5%Q] [] []))) Hok)
      as (w' & e & c & Hrun & Hser & _).
    exists w', e, c. split; [exact Hrun | exact Hser].
Defined.

Lemma actuator_commands_stop_separated_witness :
  exists c,
    lastCommand
      (log (world_of (firmware nat stepSource 1 1 2 (powerOn 0%nat [] []))))
      = Some c
    /\ actuator
         (pins (world_of (firmware nat stepSource 1 1 2 (powerOn 0%nat [] []))))
       = Some (stateAfter c).
Proof.
  destruct (actuator_commands_stop_separated nat stepSource 1 1 2
              (powerOn 0%nat [] []) eq_refl)
    as (_ & _ & c & Hlast & Hpins & _).
  exists c. split; [exact Hlast | exact Hpins].
Defined.

Lemma no_data_before_first_frame_witness :
  lastValidData (powerOn [12.5%Q] [None; Some frameShort; None] []) = noData /\
  (exists w',
      pollBus (list Q) 1 3 (powerOn [12.5%Q] [None; Some frameShort; None] []) =
        Ret (repeat noData 3) w') /\
  (exists elapsedTime,
      serial (world_of (streamCSVData (list Q) replaySource 1 "Stationary1" "None"
                          (powerOn [12.5%Q] [None; Some frameShort; None] []))) =
        [TNum elapsedTime; TStr ","; TStr "No Data"; TStr ",";
         TStr "No Data"; TStr ","; TStr "No Data"; TStr ",";
         TFloat 12.5 2; TStr ","; TStr "Stationary1"; TStr ",";
         TStr "None"; TLn]) /\
  placeholderOnly
    (serial (world_of (firmware (list Q) replaySource 1 1 50
                         (powerOn [12.5%Q] [None; Some frameShort; None] [])))).
Proof.
  split; [reflexivity | ].
  assert (Hbus : Forall shortOrNone [None; Some frameShort; None])
    by (repeat constructor).
  destruct (no_data_before_first_frame (list Q) replaySource 1 2
              (powerOn [12.5%Q] [None; Some frameShort; None] []) eq_refl Hbus)
    as (Hpolls & Hrecord & Hrun).
  split; [exact Hpolls | ].
  split; [exact (Hrecord "Stationary1" "None" eq_refl) | ].
  exact (proj2 (Hrun 1%nat 50%nat Hbus eq_refl)).
Defined.

(** A source that alternates valid and invalid samples: of five calls of
    [streamCSVData] the three that find a valid sample write a record. *)
Example stream_gap_scenario :
  exists w',
    streamMany (list Q) replaySource 1 5 "Stationary1" "None"
               (powerOn [12.5%Q; NO_PITCH; 3%Q; NO_PITCH; (-7.25)%Q] [] [])
      = Ret [12.5%Q; NO_PITCH; 3%Q; NO_PITCH; (-7.25)%Q] w'
    /\ records (serial w') = 3%nat.
Proof. eexists. split; [vm_compute; reflexivity | reflexivity]. Qed.

(** * Counterexamples *)

(** C7, as stated, fails.  With twelve bytes buffered and a first byte
    that is not the sync byte, [readPitch] consumes that one byte, not a
    frame's worth: the eleven bytes behind it stay buffered. *)
Lemma bad_sync_consumes_one_byte :
  (11 <= List.length misaligned)%nat
  /\ nth 0 misaligned x00 <> x55
  /\ WT901.readPitch misaligned = (NO_PITCH, skipn 1 misaligned)
  /\ List.length (snd (WT901.readPitch misaligned)) = 11%nat
  /\ snd (WT901.readPitch misaligned) <> skipn 10 misaligned.
Proof.
  split; [simpl; lia | ]. split; [discriminate | ].
  split; [reflexivity | ]. split; [reflexivity | discriminate].
Qed.

(** C4, as stated, fails.  The zeroing routine accepts no pitch farther
    than 0.1 degrees from zero, so its band is not wider than that of the
    other targets; at 0.15 degrees it drives the actuator. *)
Lemma zeroing_band_is_not_wider :
  ~ (exists (pitch : Q) (fuel : nat) (w w' : World (list Q)),
        (0.1 < Qabs (pitch - 0))%Q
        /\ adjustToZeroPitch (list Q) replaySource fuel w =
             Ret (Reached pitch) w')
  /\ commands
       (log (world_of (adjustToZeroPitch (list Q) replaySource 5
                         (powerOn [0.15%Q; 0.05%Q] [] []))))
     = [CmdForward; CmdStop; CmdStop].
Proof.
  split.
  - intros (pitch & fuel & w & w' & Hout & Hrun).
    pose proof (routine_band (list Q) replaySource 1 ZeroAtStart fuel w)
      as Hpost.
    unfold post in Hpost. cbn [run] in Hpost. rewrite Hrun in Hpost.
    specialize (Hpost pitch eq_refl). cbn [target] in Hpost.
    exact (Qlt_not_le _ _ Hout Hpost).
  - vm_compute. reflexivity.
Qed.

(** * The firmware on its own angle source *)

Lemma wt901_skips_stray (stray : list byte) :
  forall (j : nat) (tail : list byte),
    Forall (fun b => b <> x55) stray ->
    (11 <= List.length tail)%nat ->
    (j <= List.length stray)%nat ->
    polled _ wt901Source j (stray ++ tail, []) = (skipn j stray ++ tail, [])
    /\ forall i, (i < j)%nat ->
                 fst (wt901Source (polled _ wt901Source i (stray ++ tail, [])))
                 = NO_PITCH.
Proof.
  induction stray as [ | b stray IH]; intros j tail Hstray Htail Hj.
  - assert (j = 0)%nat as -> by (simpl in Hj; lia).
    split; [reflexivity | intros i Hi; lia].
  - destruct j as [ | j]; [split; [reflexivity | intros i Hi; lia] | ].
    inversion Hstray as [ | ? ? Hb Hrest]; subst.
    assert (Hstep : wt901Source ((b :: stray) ++ tail, []) =
                      (NO_PITCH, (stray ++ tail, []))).
    { unfold wt901Source. cbn [hd tl]. rewrite app_nil_r.
      rewrite readPitch_bad_sync;
        [reflexivity | simpl; rewrite length_app; lia | exact Hb]. }
    destruct (IH j tail Hrest Htail ltac:(simpl in Hj; lia)) as [Hstate Hbad].
    split.
    + rewrite <- polled_S, Hstep. exact Hstate.
    + intros [ | i] Hi.
      * change (polled _ wt901Source 0 ((b :: stray) ++ tail, []))
          with ((b :: stray) ++ tail, @nil (list byte)).
        rewrite Hstep. reflexivity.
      * rewrite <- polled_S, Hstep. apply Hbad. lia.
Qed.

(** X22.  A misaligned stream costs 10 ms per stray byte.  On the
    firmware's own angle source, when stray bytes, none of them 0x55 and
    fewer than 1000, precede an angle frame in the envelope that is
    followed by at least one more byte, [getValidPitch] returns the angle
    of that frame after one 10 ms wait per stray byte, and leaves in the
    receive buffer what follows the frame. *)
Theorem stray_bytes_cost_10_ms_each :
  forall (stray frame rest : list byte)
         (w : World (list byte * list (list byte))),
    angle w = (stray ++ frame ++ rest, []) ->
    Forall (fun b => b <> x55) stray ->
    (List.length stray < 1000)%nat ->
    List.length frame = 10%nat ->
    nth 0 frame x00 = x55 -> nth 1 frame x00 = x53 ->
    rest <> [] ->
    -4551 <= int16_le (nth 2 frame x00) (nth 3 frame x00) <= 4551 ->
    exists w',
      getValidPitch _ wt901Source w =
        Ret (inject_Z (int16_le (nth 2 frame x00) (nth 3 frame x00))
             / 32768 * 180)%Q w'
      /\ angle w' = (rest, [])
      /\ now w' = now w + 10 * Z.of_nat (List.length stray)
      /\ commands (log w') = commands (log w)
      /\ pins w' = pins w.
Proof.
  intros stray frame rest w Hangle Hstray Hfew Hlen Hsync Htype Hrest Hraw.
  assert (Hlong : (11 <= List.length (frame ++ rest))%nat).
  { rewrite length_app, Hlen. destruct rest; [contradiction | simpl; lia]. }
  destruct (wt901_skips_stray stray (List.length stray) (frame ++ rest)
              Hstray Hlong (le_n _)) as [Hstate Hbad].
  rewrite skipn_all in Hstate. cbn [app] in Hstate.
  assert (Hframe : wt901Source (frame ++ rest, []) =
            ((inject_Z (int16_le (nth 2 frame x00) (nth 3 frame x00))
              / 32768 * 180)%Q, (rest, []))).
  { unfold wt901Source. cbn [hd tl]. rewrite app_nil_r.
    rewrite (readPitch_angle (frame ++ rest) Hlong);
      [ | rewrite app_nth1 by lia; assumption
        | rewrite app_nth1 by lia; assumption ].
    rewrite !app_nth1 by lia.
    rewrite skipn_app, Hlen, Nat.sub_diag. simpl skipn at 2.
    rewrite <- Hlen, skipn_all. reflexivity. }
  assert (Hok : rejected (inject_Z (int16_le (nth 2 frame x00)
                                             (nth 3 frame x00))
                          / 32768 * 180)%Q = false).
  { rewrite rejected_in_envelope. apply negb_false_iff.
    apply in_envelope_iff. revert Hraw.
    generalize (int16_le (nth 2 frame x00) (nth 3 frame x00)). intros v Hv.
    unfold Qle, Qdiv, Qmult, Qinv, inject_Z. cbn -[Z.mul]. lia. }
  destruct (acquirePitch_finds _ wt901Source (List.length stray) maxTimeout
              NO_PITCH w eq_refl Hfew)
    as (w' & Hrun & Hlog & Hnow & Ha & Hpins & _).
  - intros j Hj. rewrite Hangle, (Hbad j Hj). reflexivity.
  - rewrite Hangle, Hstate, Hframe. exact Hok.
  - rewrite Hangle, Hstate, Hframe in Hrun. cbn [fst] in Hrun.
    exists w'. split; [exact Hrun | ].
    split.
    { rewrite Ha, Hangle.
      change (polled _ wt901Source (S (List.length stray))
                     (stray ++ frame ++ rest, []))
        with (snd (wt901Source
                     (polled _ wt901Source (List.length stray)
                             (stray ++ frame ++ rest, [])))).
      rewrite Hstate, Hframe. reflexivity. }
    split; [exact Hnow | ].
    split; [ | exact Hpins].
    rewrite Hlog, !commands_app, attempts_commands. cbn. apply app_nil_r.
Qed.

(** * Instances of the further properties *)

Lemma pitch_determined_by_bytes_2_3_witness :
  (11 <= List.length (frame45 ++ [x00]))%nat
  /\ ((fst (WT901.readPitch (frame45 ++ [x00]))
       == fst (WT901.readPitch (frame5 ++ [x00])))%Q <->
      nth 2 (frame45 ++ [x00]) x00 = nth 2 (frame5 ++ [x00]) x00
      /\ nth 3 (frame45 ++ [x00]) x00 = nth 3 (frame5 ++ [x00]) x00).
Proof.
  split; [simpl; lia | ].
  apply pitch_determined_by_bytes_2_3; first [reflexivity | simpl; lia].
Defined.

Lemma envelope_in_raw_units_witness :
  (11 <= List.length (frame5 ++ [x00]))%nat
  /\ (in_envelope (fst (WT901.readPitch (frame5 ++ [x00]))) = true <->
      -4551 <= int16_le (nth 2 (frame5 ++ [x00]) x00)
                        (nth 3 (frame5 ++ [x00]) x00) <= 4551).
Proof.
  split; [simpl; lia | ].
  apply envelope_in_raw_units; first [reflexivity | simpl; lia].
Defined.

Lemma readPitch_resynchronises_witness :
  Forall (fun b => b <> x55) [x00; x01]
  /\ readMany (S (List.length [x00; x01])) ([x00; x01] ++ frame5 ++ [x00]) =
       (repeat NO_PITCH (List.length [x00; x01])
        ++ [(inject_Z (int16_le (nth 2 frame5 x00) (nth 3 frame5 x00))
             / 32768 * 180)%Q],
        [x00]).
Proof.
  assert (H : Forall (fun b => b <> x55) [x00; x01])
    by (constructor; [discriminate | constructor; [discriminate | constructor]]).
  split; [exact H | ].
  apply (readPitch_resynchronises [x00; x01] frame5 [x00] H);
    first [reflexivity | discriminate].
Defined.

Lemma cache_holds_last_value_witness :
  exists w',
    pollBus (list Q) 1 3
            (set_lastValidData (list Q) (storeFrame frameOpen noData)
               (powerOn [] [None; Some frameShort; None; Some frameOpen] []))
      = Ret (repeat
               (lastValidData
                  (set_lastValidData (list Q) (storeFrame frameOpen noData)
                     (powerOn [] [None; Some frameShort; None; Some frameOpen]
                              [])))
               3) w'
    /\ lastValidData w' =
         lastValidData
           (set_lastValidData (list Q) (storeFrame frameOpen noData)
              (powerOn [] [None; Some frameShort; None; Some frameOpen] []))
    /\ bus w' =
         skipn 3
           (bus (set_lastValidData (list Q) (storeFrame frameOpen noData)
                   (powerOn [] [None; Some frameShort; None; Some frameOpen]
                            []))).
Proof.
  apply (cache_holds_last_value (list Q) 1 3).
  simpl. repeat constructor.
Defined.

Lemma fuel_and_temperature_round_trip_witness :
  exists d w',
    readCANData (list Q) 1 (powerOn [] [Some frameOpen] []) = Ret d w'
    /\ option_map (fun u => Z.of_N (N.of_uint u))
                  (NilEmpty.uint_of_string (fuelLevel d))
       = Some (256 * byteZ (rx frameOpen 0) + byteZ (rx frameOpen 1))
    /\ option_map (fun u => Z.of_N (N.of_uint u))
                  (NilEmpty.uint_of_string (internalTemp d))
       = Some (256 * byteZ (rx frameOpen 2) + byteZ (rx frameOpen 3)).
Proof.
  apply (fuel_and_temperature_round_trip (list Q) 1
           (powerOn [] [Some frameOpen] []) frameOpen []);
    [reflexivity | simpl; lia].
Defined.

Lemma record_carries_frame_of_same_call_witness :
  in_envelope (fst (replaySource [12.5%Q])) = true
  /\ exists w',
      streamCSVData (list Q) replaySource 1 "Stationary1" "None"
                    (powerOn [12.5%Q] [Some frameOpen] []) = Ret tt w'
      /\ serial w' =
           serial (powerOn [12.5%Q] [Some frameOpen] []) ++
             csvRecord
               (u32 (u32 (now (powerOn [12.5%Q] [Some frameOpen] []) + 1)
                     - startTime (list Q)
                                 (powerOn [12.5%Q] [Some frameOpen] [])))
               (storeFrame frameOpen noData)
               (fst (replaySource
                       (angle (powerOn [12.5%Q] [Some frameOpen] []))))
               "Stationary1" "None"
      /\ lastValidData w' = storeFrame frameOpen noData
      /\ bus w' = [].
Proof.
  split; [reflexivity | ].
  apply (record_carries_frame_of_same_call (list Q) replaySource 1
           "Stationary1" "None" (powerOn [12.5%Q] [Some frameOpen] [])
           frameOpen []);
    [reflexivity | simpl; lia | reflexivity].
Defined.

Lemma idle_until_reset_witness :
  exists w',
    loops (list Q) replaySource 1 3 5
          (set_testComplete (list Q) true
             (powerOn [] [] ["status"; "Reset"])) = Ret tt w'
    /\ rig (list Q) w' =
         rig (list Q)
             (set_testComplete (list Q) true
                (powerOn [] [] ["status"; "Reset"]))
    /\ testComplete (list Q) w' = true
    /\ cmdIn (list Q) w' =
         skipn 3 (cmdIn (list Q)
                        (set_testComplete (list Q) true
                           (powerOn [] [] ["status"; "Reset"])))
    /\ now w' =
         now (set_testComplete (list Q) true
                (powerOn [] [] ["status"; "Reset"]))
         + 100 * Z.of_nat 3.
Proof.
  apply (idle_until_reset (list Q) replaySource 1 3 5); [reflexivity | ].
  simpl. constructor; [discriminate | ].
  constructor; [discriminate | constructor].
Defined.



Lemma first_pulse_drives_toward_target_witness :
  rejected (fst (stepSource (angle (powerOn 0%nat [] [])))) = false
  /\ (fst (stepSource (angle (powerOn 0%nat [] []))) < target PosTen - 0.1)%Q
  /\ exists rest,
      commands (log (world_of (run nat stepSource 1 PosTen 1
                                   (powerOn 0%nat [] [])))) =
        commands (log (powerOn 0%nat [] [])) ++ CmdBackward :: rest.
Proof.
  split; [reflexivity | ]. split; [reflexivity | ].
  apply (proj2 (first_pulse_drives_toward_target nat stepSource 1 PosTen 0
                  (powerOn 0%nat [] []) eq_refl)).
  reflexivity.
Defined.

Lemma first_accepted_sample_is_returned_witness :
  exists w',
    getValidPitch (list Q) replaySource
                  (powerOn [NO_PITCH; 30%Q; 12.5%Q; 1%Q] [] []) =
      Ret (fst (replaySource
                  (polled (list Q) replaySource 2
                          (angle (powerOn [NO_PITCH; 30%Q; 12.5%Q; 1%Q]
                                          [] [])))))
          w'
    /\ polls (log w') =
         (polls (log (powerOn [NO_PITCH; 30%Q; 12.5%Q; 1%Q] [] [])) + 3)%nat
    /\ now w' =
         now (powerOn [NO_PITCH; 30%Q; 12.5%Q; 1%Q] [] []) + 10 * Z.of_nat 2
    /\ angle w' =
         polled (list Q) replaySource 3
                (angle (powerOn [NO_PITCH; 30%Q; 12.5%Q; 1%Q] [] []))
    /\ motor (list Q) w' =
         motor (list Q) (powerOn [NO_PITCH; 30%Q; 12.5%Q; 1%Q] [] [])
    /\ serial w' = serial (powerOn [NO_PITCH; 30%Q; 12.5%Q; 1%Q] [] [])
    /\ serial1 w' = serial1 (powerOn [NO_PITCH; 30%Q; 12.5%Q; 1%Q] [] [])
    /\ bus w' = bus (powerOn [NO_PITCH; 30%Q; 12.5%Q; 1%Q] [] []).
Proof.
  apply (first_accepted_sample_is_returned (list Q) replaySource 2
           (powerOn [NO_PITCH; 30%Q; 12.5%Q; 1%Q] [] [])).
  - lia.
  - intros [ | [ | j]] Hj; [reflexivity | reflexivity | lia].
  - reflexivity.
Defined.

Lemma window_is_lost_at_clock_wrap_witness :
  2 ^ 32 <= now (set_now unit (2 ^ 32 - 5000) (powerOn tt [] [])) + 10000
  /\ exists w',
      sampleFor unit deadSource 1 1 10000 "Stationary1" "None"
                (set_now unit (2 ^ 32 - 5000) (powerOn tt [] [])) = Ret tt w'
      /\ now w' = now (set_now unit (2 ^ 32 - 5000) (powerOn tt [] [])) + 3 * 1
      /\ angle w' = angle (set_now unit (2 ^ 32 - 5000) (powerOn tt [] []))
      /\ log w' = log (set_now unit (2 ^ 32 - 5000) (powerOn tt [] []))
      /\ serial w' = serial (set_now unit (2 ^ 32 - 5000) (powerOn tt [] []))
      /\ bus w' = bus (set_now unit (2 ^ 32 - 5000) (powerOn tt [] [])).
Proof.
  split; [simpl; lia | ].
  apply (window_is_lost_at_clock_wrap unit deadSource 1 0 10000
           "Stationary1" "None"
           (set_now unit (2 ^ 32 - 5000) (powerOn tt [] [])));
    simpl; lia.
Defined.

Lemma watchdog_measures_silence_across_wrap_witness :
  u32 (now (set_lastCanMsgTime unit (u32 (2 ^ 32 - 20000))
              (set_now unit (2 ^ 32 + 50000) (powerOn tt [] []))))
  < lastCanMsgTime unit
      (set_lastCanMsgTime unit (u32 (2 ^ 32 - 20000))
         (set_now unit (2 ^ 32 + 50000) (powerOn tt [] [])))
  /\ exists w',
      warnIfBusSilent unit 1
        (set_lastCanMsgTime unit (u32 (2 ^ 32 - 20000))
           (set_now unit (2 ^ 32 + 50000) (powerOn tt [] []))) = Ret tt w'
      /\ serial w' =
           serial (set_lastCanMsgTime unit (u32 (2 ^ 32 - 20000))
                     (set_now unit (2 ^ 32 + 50000) (powerOn tt [] [])))
      /\ motor unit w' =
           motor unit (set_lastCanMsgTime unit (u32 (2 ^ 32 - 20000))
                         (set_now unit (2 ^ 32 + 50000) (powerOn tt [] [])))
      /\ serial1 w' =
           serial1 (set_lastCanMsgTime unit (u32 (2 ^ 32 - 20000))
                      (set_now unit (2 ^ 32 + 50000) (powerOn tt [] []))) ++
             (if 60000 <?
                 now (set_lastCanMsgTime unit (u32 (2 ^ 32 - 20000))
                        (set_now unit (2 ^ 32 + 50000) (powerOn tt [] [])))
                 - (2 ^ 32 - 20000)
              then [text "# WARNING: No CAN messages received in the last 60 seconds.";
                    TLn]
              else [])
      /\ lastCanMsgTime unit w' =
           (if 60000 <?
               now (set_lastCanMsgTime unit (u32 (2 ^ 32 - 20000))
                      (set_now unit (2 ^ 32 + 50000) (powerOn tt [] [])))
               - (2 ^ 32 - 20000)
            then u32 (now (set_lastCanMsgTime unit (u32 (2 ^ 32 - 20000))
                             (set_now unit (2 ^ 32 + 50000)
                                      (powerOn tt [] []))) + 1)
            else u32 (2 ^ 32 - 20000))
      /\ now w' =
           (if 60000 <?
               now (set_lastCanMsgTime unit (u32 (2 ^ 32 - 20000))
                      (set_now unit (2 ^ 32 + 50000) (powerOn tt [] [])))
               - (2 ^ 32 - 20000)
            then now (set_lastCanMsgTime unit (u32 (2 ^ 32 - 20000))
                        (set_now unit (2 ^ 32 + 50000) (powerOn tt [] [])))
                 + 1 + 1
            else now (set_lastCanMsgTime unit (u32 (2 ^ 32 - 20000))
                        (set_now unit (2 ^ 32 + 50000) (powerOn tt [] [])))
                 + 1).
Proof.
  split; [reflexivity | ].
  apply (watchdog_measures_silence_across_wrap unit 1
           (set_lastCanMsgTime unit (u32 (2 ^ 32 - 20000))
              (set_now unit (2 ^ 32 + 50000) (powerOn tt [] [])))
           (2 ^ 32 - 20000));
    [reflexivity | simpl; lia].
Defined.

Lemma stray_bytes_cost_10_ms_each_witness :
  exists w',
    getValidPitch _ wt901Source
                  (powerOn ([x00; x01] ++ frame5 ++ [x00], []) [] []) =
      Ret (inject_Z (int16_le (nth 2 frame5 x00) (nth 3 frame5 x00))
           / 32768 * 180)%Q w'
    /\ angle w' = ([x00], [])
    /\ now w' =
         now (powerOn ([x00; x01] ++ frame5 ++ [x00], @nil (list byte)) [] [])
         + 10 * Z.of_nat (List.length [x00; x01])
    /\ commands (log w') =
         commands
           (log (powerOn ([x00; x01] ++ frame5 ++ [x00], @nil (list byte))
                         [] []))
    /\ pins w' =
         pins (powerOn ([x00; x01] ++ frame5 ++ [x00], @nil (list byte))
                       [] []).
Proof.
  apply (stray_bytes_cost_10_ms_each [x00; x01] frame5 [x00]
           (powerOn ([x00; x01] ++ frame5 ++ [x00], []) [] []));
    try reflexivity; try discriminate.
  - constructor; [discriminate | constructor; [discriminate | constructor]].
  - simpl. lia.
  - vm_compute. split; discriminate.
Defined.
